(** * Switchboard: a shallow embedding of the routing engine

    The development follows the TypeScript sources of the router:
    [src/core/evaluator/heuristics.ts], [src/core/taskType.ts],
    [src/core/healthStore.ts], [src/core/budgetStore.ts],
    [src/core/sessionStore.ts], [src/core/scoring.ts],
    [src/core/router.ts] and [src/server/handler.ts].

    Conventions of the embedding.
    - A JavaScript string is a sequence of code units; texts are modelled
      as [string], read as [list ascii] (code units U+0000..U+00FF).
    - Integral numbers (epoch milliseconds, token counts, strike counters)
      are [Z]; fractional numbers (scores, moving averages, weights) are
      exact rationals [Q], so IEEE rounding is not part of the model.
    - [undefined]/[null] is [None].
    - Asynchronous code is sequential state passing over a [World] that
      holds the wall clock, the three stores and a trace of the calls made
      to the external collaborators. *)

From stdpp Require Import gmap strings list.
From Stdlib Require Import ZArith QArith Qround Qpower Lia Lqa Ascii String Sorted.
From Equations Require Import Equations.

Close Scope Q_scope.

(* ===================================================================== *)
(** * Text: code units, [trim], [toLowerCase], [includes]                  *)
(* ===================================================================== *)

Module Text.

Definition chars (s : string) : list ascii := list_ascii_of_string s.

Definition codeUnit (c : ascii) : N := N_of_ascii c.

Definition between (lo hi : N) (c : ascii) : bool :=
  (lo <=? codeUnit c)%N && (codeUnit c <=? hi)%N.

(** ECMAScript WhiteSpace and LineTerminator code units below U+0100:
    TAB, LF, VT, FF, CR, SPACE and NO-BREAK SPACE. *)
Definition isSpace (c : ascii) : bool :=
  between 9 13 c || (codeUnit c =? 32)%N || (codeUnit c =? 160)%N.

(** [\w] of a non-unicode regular expression: [A-Za-z0-9_]. *)
Definition isWord (c : ascii) : bool :=
  between 65 90 c || between 97 122 c || between 48 57 c || (codeUnit c =? 95)%N.

Definition isDigit (c : ascii) : bool := between 48 57 c.

(** LineTerminator code units below U+0100: LF and CR. *)
Definition isLineTerminator (c : ascii) : bool :=
  (codeUnit c =? 10)%N || (codeUnit c =? 13)%N.

(** [String.prototype.toLowerCase] on one code unit: [A-Z] and the
    Latin-1 capitals U+00C0..U+00DE other than the multiplication sign. *)
Definition lowerChar (c : ascii) : ascii :=
  if between 65 90 c
     || (between 192 222 c && negb (codeUnit c =? 215)%N)
  then ascii_of_N (codeUnit c + 32)
  else c.

(** Canonicalisation used by the [i] flag; only ASCII letters can become
    equal to an ASCII pattern character. *)
Definition upperAscii (c : ascii) : ascii :=
  if between 97 122 c then ascii_of_N (codeUnit c - 32) else c.

Definition charEq (ignoreCase : bool) (a b : ascii) : bool :=
  if ignoreCase then bool_decide (upperAscii a = upperAscii b)
  else bool_decide (a = b).

Definition toLowerCase (s : list ascii) : list ascii := map lowerChar s.

Fixpoint trimStart (s : list ascii) : list ascii :=
  match s with
  | c :: s' => if isSpace c then trimStart s' else s
  | [] => []
  end.

Definition trimEnd (s : list ascii) : list ascii :=
  rev (trimStart (rev s)).

Definition trim (s : list ascii) : list ascii := trimEnd (trimStart s).

(** [stripPrefix ic p s] is the rest of [s] after the literal [p]. *)
Fixpoint stripPrefix (ic : bool) (p s : list ascii) : option (list ascii) :=
  match p with
  | [] => Some s
  | a :: p' =>
      match s with
      | b :: s' => if charEq ic b a then stripPrefix ic p' s' else None
      | [] => None
      end
  end.

(** [String.prototype.includes]. *)
Fixpoint includes (hay needle : list ascii) : bool :=
  match stripPrefix false needle hay with
  | Some _ => true
  | None =>
      match hay with
      | _ :: hay' => includes hay' needle
      | [] => false
      end
  end.

End Text.

(* ===================================================================== *)
(** * The fragment of regular expressions used by the sources             *)
(* ===================================================================== *)

Module Regex.
Import Text.

(** [Lit] a literal, [Alt] [a|b], [Seq] concatenation, [Opt] [a?],
    [WordB] [\b], [Bol] [^] under the [m] flag, [AnyStar] [[\s\S]*]. *)
Inductive regex : Type :=
  | Lit (l : string)
  | Alt (a b : regex)
  | Seq (a b : regex)
  | Opt (a : regex)
  | WordB
  | Bol
  | AnyStar.

Definition isWordOpt (c : option ascii) : bool :=
  match c with Some x => isWord x | None => false end.

(** [\b]: exactly one of the two neighbours is a word character. *)
Definition boundary (prev next : option ascii) : bool :=
  xorb (isWordOpt prev) (isWordOpt next).

(** [^] with the [m] flag: start of input or just after a line terminator. *)
Definition lineStart (prev : option ascii) : bool :=
  match prev with Some c => isLineTerminator c | None => true end.

Definition lastOr (prev : option ascii) (consumed : list ascii) : option ascii :=
  match last consumed with Some c => Some c | None => prev end.

Fixpoint anyStar (prev : option ascii) (s : list ascii)
    (k : option ascii -> list ascii -> bool) : bool :=
  k prev s ||
  match s with
  | c :: s' => anyStar (Some c) s' k
  | [] => false
  end.

(** Backtracking matcher in continuation style: [prev] is the code unit
    before the current position, [s] the remaining input. *)
Fixpoint matchK (ic : bool) (r : regex) (prev : option ascii) (s : list ascii)
    (k : option ascii -> list ascii -> bool) : bool :=
  match r with
  | Lit l =>
      match stripPrefix ic (chars l) s with
      | Some s' => k (lastOr prev (take (List.length (chars l)) s)) s'
      | None => false
      end
  | Alt a b => matchK ic a prev s k || matchK ic b prev s k
  | Seq a b => matchK ic a prev s (fun p' s' => matchK ic b p' s' k)
  | Opt a => matchK ic a prev s k || k prev s
  | WordB => boundary prev (head s) && k prev s
  | Bol => lineStart prev && k prev s
  | AnyStar => anyStar prev s k
  end.

Definition accept : option ascii -> list ascii -> bool := fun _ _ => true.

Fixpoint searchFrom (ic : bool) (r : regex) (prev : option ascii)
    (s : list ascii) : bool :=
  matchK ic r prev s accept ||
  match s with
  | c :: s' => searchFrom ic r (Some c) s'
  | [] => false
  end.

(** [RegExp.prototype.test] on a pattern without the [g] flag. *)
Definition test (ic : bool) (r : regex) (s : list ascii) : bool :=
  searchFrom ic r None s.

Fixpoint alts (l : list regex) : regex :=
  match l with
  | [] => Lit EmptyString
  | [r] => r
  | r :: l' => Alt r (alts l')
  end.

End Regex.

(* ===================================================================== *)
(** * Core types ([src/core/types.ts])                                     *)
(* ===================================================================== *)

Inductive TaskType : Type := Code | Reasoning | Research | Rewrite | Default.

#[global] Instance TaskType_eq_dec : EqDecision TaskType.
Proof. solve_decision. Defined.

(** The string a task type is at run time (it is used as an object key). *)
Definition taskKey (t : TaskType) : string :=
  match t with
  | Code => "code"
  | Reasoning => "reasoning"
  | Research => "research"
  | Rewrite => "rewrite"
  | Default => "default"
  end.

(* ===================================================================== *)
(** * Task inference ([src/core/taskType.ts])                              *)
(* ===================================================================== *)

Module TaskInference.
Import Text Regex.

Definition word (alternatives : list string) : regex :=
  Seq WordB (Seq (alts (map Lit alternatives)) WordB).

Definition CODE_WORDS : list string :=
  ["stack trace"; "error"; "exception"; "refactor"; "implement"; "bug";
   "typescript"; "javascript"; "bun"].

Definition REWRITE_WORDS : list string :=
  ["summarize"; "rewrite"; "rephrase"; "tone"; "polish"].

(** [/```|\b(stack trace|...|bun)\b/] *)
Definition codePattern : regex := Alt (Lit "```") (word CODE_WORDS).

(** [/\b(summarize|rewrite|rephrase|tone|polish)\b/] *)
Definition rewritePattern : regex := word REWRITE_WORDS.

(** [/\b(latest|sources?|compare|research|cite)\b/] *)
Definition researchPattern : regex :=
  Seq WordB
    (Seq (alts [Lit "latest"; Seq (Lit "source") (Opt (Lit "s"));
                Lit "compare"; Lit "research"; Lit "cite"])
         WordB).

Definition inferTaskType (text : string) : TaskType :=
  let normalized := toLowerCase (chars text) in
  if test false codePattern normalized then Code
  else if test false rewritePattern normalized then Rewrite
  else if test false researchPattern normalized then Research
  else Reasoning.

End TaskInference.

(* ===================================================================== *)
(** * Heuristic scoring ([src/core/evaluator/heuristics.ts])               *)
(* ===================================================================== *)

Module Heuristics.
Import Text Regex.

Definition REFUSAL_PATTERNS : list string :=
  ["i can't"; "i cannot"; "i am not able"; "i'm not able"; "as an ai";
   "i do not have the ability"; "i cannot comply"; "unable to help"].

Record HeuristicOptions : Type := { hasToolCalls : option bool }.

(** [/```[\s\S]*```/] *)
Definition codeBlockPattern : regex := Seq (Lit "```") (Seq AnyStar (Lit "```")).

(** [/^diff --git|^\+\+\+|^\-\-\-|^\@\@/m] *)
Definition diffPattern : regex :=
  alts [Seq Bol (Lit "diff --git"); Seq Bol (Lit "+++");
        Seq Bol (Lit "---"); Seq Bol (Lit "@@")].

(** [/\b(src\/|lib\/|tests?\/|\.ts|\.js|\.py|\.go)\b/i] *)
Definition fileHintPattern : regex :=
  Seq WordB
    (Seq (alts [Lit "src/"; Lit "lib/";
                Seq (Lit "test") (Seq (Opt (Lit "s")) (Lit "/"));
                Lit ".ts"; Lit ".js"; Lit ".py"; Lit ".go"])
         WordB).

(** [/(https?:\/\/|www\.)/] *)
Definition linkPattern : regex :=
  Alt (Seq (Lit "http") (Seq (Opt (Lit "s")) (Lit "://"))) (Lit "www.").

Definition Qltb (x y : Q) : bool := negb (Qle_bool y x).

(** [Math.min] and [Math.max] on two numbers *)
Definition minQ (x y : Q) : Q := if Qle_bool x y then x else y.
Definition maxQ (x y : Q) : Q := if Qle_bool x y then y else x.

Definition geLen (s : list ascii) (n : nat) : bool := n <=? List.length s.

Definition heuristicScore (text : string) (taskType : TaskType)
    (options : option HeuristicOptions) : Q :=
  let normalized := toLowerCase (trim (chars text)) in
  let hasToolCalls :=
    match options with
    | Some o => match hasToolCalls o with Some b => b | None => false end
    | None => false
    end in
  if bool_decide (normalized = []) && negb hasToolCalls then 0%Q else
  let score := if hasToolCalls then 0.45%Q else 0.35%Q in
  let score := if geLen normalized 120 then (score + 0.15)%Q else score in
  let score := if geLen normalized 400 then (score + 0.2)%Q else score in
  let score := if negb (geLen normalized 40) then (score - 0.2)%Q else score in
  let score :=
    if existsb (fun p => includes normalized (chars p)) REFUSAL_PATTERNS
    then (score - 0.7)%Q else score in
  let score :=
    if bool_decide (taskType = Code) then
      let hasCodeBlock := test false codeBlockPattern (chars text) in
      let hasDiff := test false diffPattern (chars text) in
      let hasFileHint := test true fileHintPattern (chars text) in
      let score :=
        if hasCodeBlock || hasDiff then (score + 0.25)%Q
        else if negb hasToolCalls then (score - 0.3)%Q
        else score in
      if hasFileHint then (score + 0.05)%Q else score
    else score in
  let score :=
    if bool_decide (taskType = Research) then
      let hasLink := test false linkPattern (chars text) in
      if hasLink then (score + 0.1)%Q else score
    else score in
  let score := if Qltb score 0 then 0%Q else score in
  let score := if Qltb 1 score then 1%Q else score in
  score.

End Heuristics.

(* ===================================================================== *)
(** * Requests, models, policies ([src/core/types.ts])                     *)
(* ===================================================================== *)

Inductive Role : Type := system | user | assistant | tool.

#[global] Instance Role_eq_dec : EqDecision Role.
Proof. solve_decision. Defined.

Record Message : Type := { role : Role; content : string }.

(** [temperature], [topP], [tools] and [toolChoice] are opaque values that
    the router only forwards to the adapter; they are not represented. *)
Record RouterRequest : Type := {
  messages : list Message;
  taskType : TaskType;
  qualityThreshold : option Q;
  maxWaitMs : Q;
  attemptBudget : Z;
  requestId : string;
  maxTokens : option Z;
  stream : bool;
  allowDegrade : bool;
  resume : bool
}.

Record CandidateModel : Type := {
  id : string;
  provider : string;
  context : Z;
  capabilities : gmap string Z;
  costWeight : option Q;
  enabled : bool
}.

Record Usage : Type := { totalTokens : option Z }.

Record NormalizedResponse : Type := {
  text : string;
  toolCalls : option (list string);
  usage : option Usage
}.

Inductive Outcome : Type :=
  | success | eval_fail | rate_limit | transient | quota | permanent.

#[global] Instance Outcome_eq_dec : EqDecision Outcome.
Proof. solve_decision. Defined.

Record RoutingAttempt : Type := {
  modelId : string;
  outcome : Outcome;
  score : option Q
}.

Record RoutingMetadata : Type := {
  attempts : list RoutingAttempt;
  selectedModelId : option string;
  metaTaskType : TaskType
}.

Record ModelHealth : Type := {
  cooldownUntil : Z;
  degradedUntil : Z;
  rateLimitStrikes : Z;
  lastRateLimitAt : Z;
  rollingLatencyMs : Q;
  rollingSuccessRate : Q
}.

Record ProviderBudget : Type := {
  usedTokens : Z;
  softLimitTokens : option Z;
  hardLimitTokens : option Z
}.

Record Weights : Type := {
  w_capability : option Q;
  w_reliability : option Q;
  w_cost : option Q;
  w_latency : option Q;
  w_degradePenalty : option Q;
  w_budgetPenalty : option Q
}.

Record RoutingPolicy : Type := {
  preferred : option (list string);
  minCapability : Z;
  policyQualityThreshold : Q;
  maxAttemptsPerCycle : Z;
  pollIntervalMs : Z;
  policyMaxWaitMs : Q;
  weights : option Weights
}.

Record StreamingConfig : Type := {
  chunkSize : option Z;
  chunkDelayMs : option Z
}.

Record CodeEvaluationConfig : Type := {
  ce_enabled : bool;
  ce_command : string;
  ce_timeoutMs : Z;
  ce_weight : Q;
  ce_failurePenalty : Q
}.

Record JudgeConfig : Type := {
  j_enabled : bool;
  j_modelId : string;
  j_prompt : option string;
  j_minScore : option Q
}.

(** [routing] is an object with a mandatory [default] key and optional
    keys per task type. *)
Record PoliciesConfig : Type := {
  routingDefault : RoutingPolicy;
  routingOthers : gmap string RoutingPolicy;
  streaming : option StreamingConfig;
  codeEvaluation : option CodeEvaluationConfig;
  evaluationJudge : option JudgeConfig
}.

Definition routingLookup (p : PoliciesConfig) (key : string) : option RoutingPolicy :=
  if bool_decide (key = "default") then Some (routingDefault p)
  else routingOthers p !! key.

(** Adapter errors ([src/adapters/errors.ts]). *)
Inductive AdapterErrorType : Type :=
  | RATE_LIMIT | QUOTA_EXCEEDED | TRANSIENT | PERMANENT.

Record AdapterError : Type := {
  errType : AdapterErrorType;
  errMessage : string;
  retryAfterMs : option Z
}.

(** What a call to a collaborator may throw. *)
Inductive Thrown : Type :=
  | ThrowAdapter (e : AdapterError)
  | ThrowOther (message : string).

(** [src/core/errors.ts] *)
Inductive RouteError : Type :=
  | NoSuitableModelError (retryAfterMs : Z)
  | UnexpectedError (message : string).

(* ===================================================================== *)
(** * The world: clock, stores, trace of external calls                    *)
(* ===================================================================== *)

Record SessionRecord : Type := {
  s_requestId : string;
  s_taskType : TaskType;
  s_complete : bool;                 (* status: 'pending' | 'complete' *)
  s_responseText : option string;
  s_selectedModelId : option string;
  s_attempts : list RoutingAttempt;
  s_createdAt : Z;
  s_updatedAt : Z
}.

Inductive CallSite : Type := ForCandidate | ForJudge.

(** The messages handed to [logInfo] and [logError] by the router. *)
Inductive LogMessage : Type :=
  | router_resume_hit | router_context_unfit | router_context_trim
  | router_eval_fail | router_rate_limit | router_context_too_long
  | router_unhandled_error | router_complete
  | router_stream_tool_calls_disabled | router_judge_score
  | router_judge_failed.

(** One entry per call that leaves the router. *)
Inductive Call : Type :=
  | AdapterGenerate (site : CallSite) (model : string) (msgs : list Message)
  | AdapterStream (model : string) (msgs : list Message)
  | HealthMarkRateLimited (model : string) (cooldownMs : Z)
      (strikes : Z) (lastRateLimitAt : Z)
  | HealthMarkDegraded (model : string) (degradeMs : Z)
  | HealthRecordResult (model : string) (ok : bool) (latencyMs : option Z)
  | BudgetRecord (provider : string) (tokens : Z)
  | SessionRecordAttempt (request : string) (a : RoutingAttempt)
  | SessionRecordResult (request : string) (model : string) (text : string)
  | CodeEvalRun (command : string)
  | Sleep (ms : Z)
  | Log (message : LogMessage) (model : string).

(** [sessions] is [None] when [deps.sessionStore] is absent.  [calls] is
    the trace, most recent call first. *)
Record World : Type := {
  now : Z;
  health : gmap string ModelHealth;
  budgets : gmap string ProviderBudget;
  sessions : option (gmap string SessionRecord);
  calls : list Call
}.

Definition countCalls (p : Call -> bool) (w : World) : nat :=
  List.length (List.filter p (calls w)).

Definition emit (c : Call) (w : World) : World :=
  {| now := now w; health := health w; budgets := budgets w;
     sessions := sessions w; calls := c :: calls w |}.

Definition advance (ms : Z) (w : World) : World :=
  {| now := now w + ms; health := health w; budgets := budgets w;
     sessions := sessions w; calls := calls w |}.

Definition setHealth (h : gmap string ModelHealth) (w : World) : World :=
  {| now := now w; health := h; budgets := budgets w;
     sessions := sessions w; calls := calls w |}.

Definition setBudgets (b : gmap string ProviderBudget) (w : World) : World :=
  {| now := now w; health := health w; budgets := b;
     sessions := sessions w; calls := calls w |}.

Definition setSessions (s : option (gmap string SessionRecord)) (w : World) : World :=
  {| now := now w; health := health w; budgets := budgets w;
     sessions := s; calls := calls w |}.

(** The collaborators outside the repository.  Each answer may depend on
    the number of calls made so far, and says how long the call took. *)
Record Timed (A : Type) : Type := { took : N; answer : A + Thrown }.
Arguments took {A} _.
Arguments answer {A} _.

Record Env : Type := {
  generate : nat -> CandidateModel -> RouterRequest -> Timed NormalizedResponse;
  openStream : nat -> CandidateModel -> RouterRequest -> Timed (list string);
  (** exit code and duration of the code-evaluation subprocess *)
  spawn : nat -> string -> N * Z
}.

(* ===================================================================== *)
(** * Health store ([HealthStoreMemory], [src/core/healthStore.ts])        *)
(* ===================================================================== *)

Module HealthStore.

Definition DEFAULT_HEALTH : ModelHealth :=
  {| cooldownUntil := 0; degradedUntil := 0; rateLimitStrikes := 0;
     lastRateLimitAt := 0; rollingLatencyMs := 0%Q; rollingSuccessRate := 1%Q |}.

Definition EMA_ALPHA : Q := 0.2%Q.

Definition get (modelId : string) (w : World) : ModelHealth :=
  default DEFAULT_HEALTH (health w !! modelId).

Record RateLimitInfo : Type := {
  info_strikes : option Z;
  info_lastRateLimitAt : option Z
}.

Definition markRateLimited (modelId : string) (cooldownMs : Z)
    (info : option RateLimitInfo) (w : World) : World :=
  let existing := get modelId w in
  let strikes := default (rateLimitStrikes existing) (info ≫= info_strikes) in
  let last := default (lastRateLimitAt existing) (info ≫= info_lastRateLimitAt) in
  let w := emit (HealthMarkRateLimited modelId cooldownMs strikes last) w in
  setHealth
    (<[modelId :=
        {| cooldownUntil := now w + cooldownMs;
           degradedUntil := degradedUntil existing;
           rateLimitStrikes := strikes;
           lastRateLimitAt := last;
           rollingLatencyMs := rollingLatencyMs existing;
           rollingSuccessRate := rollingSuccessRate existing |}]> (health w)) w.

Definition markDegraded (modelId : string) (degradeMs : Z) (w : World) : World :=
  let existing := get modelId w in
  let w := emit (HealthMarkDegraded modelId degradeMs) w in
  setHealth
    (<[modelId :=
        {| cooldownUntil := cooldownUntil existing;
           degradedUntil := now w + degradeMs;
           rateLimitStrikes := rateLimitStrikes existing;
           lastRateLimitAt := lastRateLimitAt existing;
           rollingLatencyMs := rollingLatencyMs existing;
           rollingSuccessRate := rollingSuccessRate existing |}]> (health w)) w.

Definition recordResult (modelId : string) (ok : bool) (latencyMs : option Z)
    (w : World) : World :=
  let existing := get modelId w in
  let nextSuccessRate :=
    (rollingSuccessRate existing * (1 - EMA_ALPHA)
     + (if ok then 1 else 0) * EMA_ALPHA)%Q in
  let latency :=
    match latencyMs with
    | Some l => inject_Z l
    | None => rollingLatencyMs existing
    end in
  let nextLatency :=
    (rollingLatencyMs existing * (1 - EMA_ALPHA) + latency * EMA_ALPHA)%Q in
  let w := emit (HealthRecordResult modelId ok latencyMs) w in
  setHealth
    (<[modelId :=
        {| cooldownUntil := cooldownUntil existing;
           degradedUntil := degradedUntil existing;
           rateLimitStrikes := rateLimitStrikes existing;
           lastRateLimitAt := lastRateLimitAt existing;
           rollingLatencyMs := nextLatency;
           rollingSuccessRate := nextSuccessRate |}]> (health w)) w.

End HealthStore.

(* ===================================================================== *)
(** * Budget store ([BudgetStoreMemory], [src/core/budgetStore.ts])        *)
(* ===================================================================== *)

Module BudgetStore.

Definition DEFAULT_BUDGET : ProviderBudget :=
  {| usedTokens := 0; softLimitTokens := None; hardLimitTokens := None |}.

Definition get (provider : string) (w : World) : ProviderBudget :=
  default DEFAULT_BUDGET (budgets w !! provider).

Definition record (provider : string) (tokens : Z) (w : World) : World :=
  let existing := get provider w in
  let w := emit (BudgetRecord provider tokens) w in
  setBudgets
    (<[provider :=
        {| usedTokens := usedTokens existing + tokens;
           softLimitTokens := softLimitTokens existing;
           hardLimitTokens := hardLimitTokens existing |}]> (budgets w)) w.

Definition ensureLimits (provider : string) (soft hard : option Z)
    (w : World) : World :=
  let existing := get provider w in
  setBudgets
    (<[provider :=
        {| usedTokens := usedTokens existing;
           softLimitTokens := soft;
           hardLimitTokens := hard |}]> (budgets w)) w.

End BudgetStore.

(* ===================================================================== *)
(** * Session store ([SessionStoreMemory], [src/core/sessionStore.ts])     *)
(* ===================================================================== *)

Module SessionStore.

Definition get (requestId : string) (w : World) : option SessionRecord :=
  sessions w ≫= fun store => store !! requestId.

(** [deps.sessionStore?.recordAttempt(...)]: nothing happens without a
    session store. *)
Definition recordAttempt (requestId : string) (task : TaskType)
    (attempt : RoutingAttempt) (w : World) : World :=
  match sessions w with
  | None => w
  | Some store =>
      let existing := store !! requestId in
      let w := emit (SessionRecordAttempt requestId attempt) w in
      setSessions
        (Some (<[requestId :=
            {| s_requestId := requestId;
               s_taskType := task;
               s_complete := from_option s_complete false existing;
               s_responseText := existing ≫= s_responseText;
               s_selectedModelId := existing ≫= s_selectedModelId;
               s_attempts := from_option s_attempts [] existing ++ [attempt];
               s_createdAt := from_option s_createdAt (now w) existing;
               s_updatedAt := now w |}]> store)) w
  end.

Definition recordResult (requestId : string) (task : TaskType)
    (model : string) (responseText : string) (w : World) : World :=
  match sessions w with
  | None => w
  | Some store =>
      let existing := store !! requestId in
      let w := emit (SessionRecordResult requestId model responseText) w in
      setSessions
        (Some (<[requestId :=
            {| s_requestId := requestId;
               s_taskType := task;
               s_complete := true;
               s_responseText := Some responseText;
               s_selectedModelId := Some model;
               s_attempts := from_option s_attempts [] existing;
               s_createdAt := from_option s_createdAt (now w) existing;
               s_updatedAt := now w |}]> store)) w
  end.

End SessionStore.

(* ===================================================================== *)
(** * Candidate scoring ([src/core/scoring.ts])                            *)
(* ===================================================================== *)

Module Scoring.
Import Heuristics.

Definition weightOf (policy : RoutingPolicy) (field : Weights -> option Q)
    (dflt : Q) : Q :=
  default dflt (weights policy ≫= field).

(** a JavaScript number used as a condition: [0] is falsy *)
Definition truthyZ (o : option Z) : option Z :=
  match o with
  | Some z => if (z =? 0)%Z then None else Some z
  | None => None
  end.

Definition scoreModel (model : CandidateModel) (task : TaskType)
    (h : ModelHealth) (budget : ProviderBudget) (policy : RoutingPolicy)
    (dateNow : Z) : Q :=
  let capabilityScore := default 0%Z (capabilities model !! taskKey task) in
  let score := (weightOf policy w_capability 1 * inject_Z capabilityScore)%Q in
  let score := (score - weightOf policy w_cost 0.5 * default 1%Q (costWeight model))%Q in
  let score :=
    if (dateNow <? degradedUntil h)%Z
    then (score - weightOf policy w_degradePenalty 1.5)%Q else score in
  let score :=
    match truthyZ (softLimitTokens budget) with
    | Some soft =>
        if Qle_bool (inject_Z soft * 0.9)%Q (inject_Z (usedTokens budget))
        then (score - weightOf policy w_budgetPenalty 1)%Q else score
    | None => score
    end in
  let score := (score + weightOf policy w_reliability 0.5 * rollingSuccessRate h)%Q in
  let latencyMs := rollingLatencyMs h in
  if Qltb 0 latencyMs then
    let normalizedLatency := minQ (latencyMs / 1000)%Q 5%Q in
    (score - weightOf policy w_latency 0.2 * normalizedLatency)%Q
  else score.

End Scoring.

(* ===================================================================== *)
(** * Evaluation ([src/core/evaluator/index.ts], [codeEval.ts])            *)
(* ===================================================================== *)

Module Evaluator.
Import Text Heuristics.

Definition codeEvalRuns (w : World) : nat :=
  countCalls (fun c => match c with CodeEvalRun _ => true | _ => false end) w.

(** [runCodeEvaluation]: the result's [passed] flag, and the world after
    the subprocess has run. *)
Definition runCodeEvaluation (env : Env) (config : CodeEvaluationConfig)
    (w : World) : bool * World :=
  let command := trim (chars (ce_command config)) in
  if bool_decide (command = []) then (false, w)
  else
    let '(duration, exitCode) := spawn env (codeEvalRuns w) (ce_command config) in
    let w := advance (Z.of_N duration) (emit (CodeEvalRun (ce_command config)) w) in
    (bool_decide (exitCode = 0%Z), w).

Definition clamp01 (score : Q) : Q :=
  let score := if Qltb score 0 then 0%Q else score in
  if Qltb 1 score then 1%Q else score.

Definition evaluate (env : Env) (text : string) (request : RouterRequest)
    (codeEvalConfig : option CodeEvaluationConfig)
    (options : option HeuristicOptions) (w : World) : Q * World :=
  let heuristic :=
    heuristicScore text (taskType request)
      (Some {| hasToolCalls := options ≫= hasToolCalls |}) in
  let '(score, w) :=
    match codeEvalConfig with
    | Some cfg =>
        if bool_decide (taskType request = Code) && ce_enabled cfg then
          let '(passed, w) := runCodeEvaluation env cfg w in
          (if passed then (heuristic + ce_weight cfg)%Q
           else (heuristic - ce_failurePenalty cfg)%Q, w)
        else (heuristic, w)
    | None => (heuristic, w)
    end in
  (clamp01 score, w).

End Evaluator.

(* ===================================================================== *)
(** * Context fitting ([fitMessagesToContext], [src/core/router.ts])       *)
(* ===================================================================== *)

Module ContextFit.

Record Fitted : Type := { fittedMessages : list Message; trimmedCount : Z }.

(** [Math.ceil(a / 4)] on an integer [a] *)
Definition ceilDiv4 (a : Z) : Z := (- ((- a) / 4))%Z.

Definition contentLength (m : Message) : Z :=
  Z.of_nat (String.length (content m)).

Definition nonSystem (m : Message) : bool := negb (bool_decide (role m = system)).

(** [Array.prototype.findIndex]; [None] stands for [-1]. *)
Fixpoint findIndex {A : Type} (p : A -> bool) (l : list A) : option nat :=
  match l with
  | [] => None
  | x :: l' => if p x then Some 0 else S <$> findIndex p l'
  end.

Definition inspect {A : Type} (x : A) : { y : A | x = y } := exist _ x eq_refl.

(** The [while (true)] loop of [fitMessagesToContext]. *)
Equations? fitLoop (maxContext maxTokens : Z) (trimmed : list Message)
    (totalLength count : Z) : option Fitted by wf (List.length trimmed) lt :=
  fitLoop maxContext maxTokens trimmed totalLength count
    with (ceilDiv4 totalLength + maxTokens <=? maxContext)%Z := {
    | true => Some {| fittedMessages := trimmed; trimmedCount := count |}
    | false with inspect (findIndex nonSystem trimmed) := {
      | exist _ None _ => None
      | exist _ (Some removableIndex) Hfind =>
          let removedLength :=
            from_option contentLength 0%Z (trimmed !! removableIndex) in
          let rest := delete removableIndex trimmed in
          let totalLength := (totalLength - removedLength)%Z in
          let totalLength :=
            if (1 <=? List.length rest) then (totalLength - 1)%Z else totalLength in
          fitLoop maxContext maxTokens rest totalLength (count + 1)%Z
      }
    }.
Proof.
  subst rest. clear -Hfind. revert removableIndex Hfind.
  induction trimmed as [|x l IH]; intros i; simpl; [discriminate|].
  destruct (nonSystem x).
  - intros [= <-]. simpl. lia.
  - destruct (findIndex nonSystem l) as [j|]; simpl; [|discriminate].
    intros [= <-]. simpl. specialize (IH j eq_refl). lia.
Qed.

Definition fitMessagesToContext (msgs : list Message) (maxContext maxTokens : Z)
    : option Fitted :=
  let trimmed := msgs in
  let totalLength := foldl (fun sum msg => (sum + contentLength msg)%Z) 0%Z trimmed in
  let totalLength :=
    if (2 <=? List.length trimmed)
    then (totalLength + (Z.of_nat (List.length trimmed) - 1))%Z
    else totalLength in
  fitLoop maxContext maxTokens trimmed totalLength 0%Z.

End ContextFit.

(* ===================================================================== *)
(** * The router ([src/core/router.ts])                                    *)
(* ===================================================================== *)

Module Router.
Import Text Heuristics Scoring Evaluator ContextFit.

Record RouterDeps : Type := {
  models : list CandidateModel;
  policies : PoliciesConfig
}.

Definition RATE_LIMIT_BASE_MS : Z := 2000.
Definition RATE_LIMIT_CAP_MS : Z := 60000.
Definition RATE_LIMIT_WINDOW_MS : Z := 60000.

Definition policyForTask (p : PoliciesConfig) (task : TaskType) : RoutingPolicy :=
  default (routingDefault p) (routingLookup p (taskKey task)).

(** How the body of a streamed result is produced: the provider's own
    stream wrapped by [streamWithMetrics], or [streamFromText] over the
    accepted text.  Both are lazy; nothing runs until the HTTP layer
    iterates them, so their bodies are not part of [route]. *)
Inductive StreamBody : Type :=
  | ProviderStream (deltas : list string)
  | ChunkedText (text : string) (chunkSize delayMs : Z).

Inductive RouteResult : Type :=
  | TextResult (response : NormalizedResponse) (model : string)
      (metadata : RoutingMetadata)
  | StreamResult (body : StreamBody) (model : string)
      (metadata : RoutingMetadata).

Inductive Completion : Type :=
  | Returned (r : RouteResult)
  | Threw (e : RouteError).

Definition buildMetadata (attempts : list RoutingAttempt) (selected : string)
    (task : TaskType) : RoutingMetadata :=
  {| attempts := attempts; selectedModelId := Some selected; metaTaskType := task |}.

Definition isAdapterCall (c : Call) : bool :=
  match c with
  | AdapterGenerate _ _ _ | AdapterStream _ _ => true
  | _ => false
  end.

Definition adapterCalls (w : World) : nat := countCalls isAdapterCall w.

Definition withMessages (request : RouterRequest) (msgs : list Message)
    (streamFlag : bool) : RouterRequest :=
  {| messages := msgs; taskType := taskType request;
     qualityThreshold := qualityThreshold request;
     maxWaitMs := maxWaitMs request; attemptBudget := attemptBudget request;
     requestId := requestId request; maxTokens := maxTokens request;
     stream := streamFlag; allowDegrade := allowDegrade request;
     resume := resume request |}.

(** [await deps.adapter.generate({ model, request })] *)
Definition callGenerate (env : Env) (site : CallSite) (model : CandidateModel)
    (request : RouterRequest) (w : World)
    : (NormalizedResponse + Thrown) * World :=
  let r := generate env (adapterCalls w) model request in
  (answer r,
   advance (Z.of_N (took r))
     (emit (AdapterGenerate site (id model) (messages request)) w)).

(** [await deps.adapter.stream({ model, request })] *)
Definition callStream (env : Env) (model : CandidateModel)
    (request : RouterRequest) (w : World)
    : (list string + Thrown) * World :=
  let r := openStream env (adapterCalls w) model request in
  (answer r,
   advance (Z.of_N (took r))
     (emit (AdapterStream (id model) (messages request)) w)).

(** The first match of [/0(?:\.\d+)?|1(?:\.0+)?/], as a number. *)
Fixpoint digitsValue (acc : Z) (ds : list ascii) : Z :=
  match ds with
  | [] => acc
  | d :: ds' => digitsValue (acc * 10 + (Z.of_N (codeUnit d) - 48))%Z ds'
  end.

Fixpoint takeDigits (s : list ascii) : list ascii :=
  match s with
  | c :: s' => if isDigit c then c :: takeDigits s' else []
  | [] => []
  end.

Fixpoint judgeMatch (s : list ascii) : option Q :=
  match s with
  | [] => None
  | c :: s' =>
      if bool_decide (c = "0"%char) then
        match s' with
        | dot :: s'' =>
            let ds := takeDigits s'' in
            if bool_decide (dot = "."%char) && negb (bool_decide (ds = []))
            then Some (inject_Z (digitsValue 0 ds)
                       / inject_Z (10 ^ Z.of_nat (List.length ds)))%Q
            else Some 0%Q
        | [] => Some 0%Q
        end
      else if bool_decide (c = "1"%char) then Some 1%Q
      else judgeMatch s'
  end.

Definition newline : string := String (ascii_of_N 10) EmptyString.

Definition judgeMessages (prompt : string) (request : RouterRequest)
    (responseText : string) : list Message :=
  [ {| role := system; content := prompt |};
    {| role := user;
       content :=
         ("Task type: " ++ taskKey (taskType request) ++ newline ++
          "Candidate response:" ++ newline ++ responseText ++ newline ++ newline ++
          "Score (0-1):")%string |} ].

Definition maybeJudgeScore (env : Env) (deps : RouterDeps) (responseText : string)
    (request : RouterRequest) (candidateModel : CandidateModel)
    (score threshold : Q) (w : World) : option Q * World :=
  match evaluationJudge (policies deps) with
  | None => (None, w)
  | Some judgeConfig =>
      if negb (j_enabled judgeConfig) then (None, w)
      else if bool_decide (id candidateModel = j_modelId judgeConfig) then (None, w)
      else
        let minScore :=
          default (maxQ 0 (threshold - 0.2)%Q) (j_minScore judgeConfig) in
        if Qltb score minScore then (None, w)
        else
          match List.find (fun m => bool_decide (id m = j_modelId judgeConfig))
                          (models deps) with
          | None => (None, w)
          | Some judgeModel =>
              let prompt :=
                default
                  "You are a strict evaluator. Return only a number between 0 and 1."%string
                  (j_prompt judgeConfig) in
              let judgeRequest :=
                withMessages request (judgeMessages prompt request responseText) false in
              let '(outcome, w) := callGenerate env ForJudge judgeModel judgeRequest w in
              match outcome with
              | inl response =>
                  match judgeMatch (chars (text response)) with
                  | Some judged =>
                      (Some judged, emit (Log router_judge_score (id candidateModel)) w)
                  | None => (None, w)
                  end
              | inr _ => (None, emit (Log router_judge_failed (id candidateModel)) w)
              end
          end
  end.

Definition hasItems (calls : option (list string)) : bool :=
  match calls with
  | Some (_ :: _) => true
  | _ => false
  end.

Definition finalizeResult (request : RouterRequest) (deps : RouterDeps)
    (model : CandidateModel) (response : NormalizedResponse)
    (attemptsLog : list RoutingAttempt) (w : World) : RouteResult * World :=
  let total := default 0%Z (usage response ≫= totalTokens) in
  let w := if (0 <? total)%Z then BudgetStore.record (provider model) total w else w in
  if stream request && negb (hasItems (toolCalls response)) then
    let size := default 60%Z (streaming (policies deps) ≫= chunkSize) in
    let delay := default 0%Z (streaming (policies deps) ≫= chunkDelayMs) in
    let w := SessionStore.recordResult (requestId request) (taskType request)
               (id model) (text response) w in
    let w := emit (Log router_complete (id model)) w in
    (StreamResult (ChunkedText (text response) size delay) (id model)
       (buildMetadata attemptsLog (id model) (taskType request)), w)
  else
    let w :=
      if stream request && hasItems (toolCalls response)
      then emit (Log router_stream_tool_calls_disabled (id model)) w else w in
    let w := SessionStore.recordResult (requestId request) (taskType request)
               (id model) (text response) w in
    let w := emit (Log router_complete (id model)) w in
    (TextResult response (id model)
       (buildMetadata attemptsLog (id model) (taskType request)), w).

(** What one iteration of the [for (const model of ordered)] loop leaves. *)
Inductive Step : Type :=
  | Continue (attemptsLog : list RoutingAttempt) (w : World)
  | Return (r : RouteResult) (attemptsLog : list RoutingAttempt) (w : World).

Definition attemptOf (model : CandidateModel) (o : Outcome) (s : option Q)
    : RoutingAttempt :=
  {| modelId := id model; outcome := o; score := s |}.

(** [attemptsLog.push(a); await deps.sessionStore?.recordAttempt(...)] *)
Definition pushAndRecord (request : RouterRequest) (a : RoutingAttempt)
    (attemptsLog : list RoutingAttempt) (w : World)
    : list RoutingAttempt * World :=
  (attemptsLog ++ [a],
   SessionStore.recordAttempt (requestId request) (taskType request) a w).

(** The accepting branches: record the result, log the attempt, finalize. *)
Definition accept (request : RouterRequest) (deps : RouterDeps)
    (model : CandidateModel) (response : NormalizedResponse) (ok : bool)
    (latencyMs : Z) (s : Q) (attemptsLog : list RoutingAttempt) (w : World)
    : Step :=
  let w := HealthStore.recordResult (id model) ok (Some latencyMs) w in
  let '(attemptsLog, w) :=
    pushAndRecord request (attemptOf model success (Some s)) attemptsLog w in
  let '(result, w) := finalizeResult request deps model response attemptsLog w in
  Return result attemptsLog w.

(** The [catch (error)] block of an attempt. *)
Definition handleError (request : RouterRequest) (model : CandidateModel)
    (attemptStart : Z) (error : Thrown)
    (attemptsLog : list RoutingAttempt) (w : World) : Step :=
  let latencyMs := (now w - attemptStart)%Z in
  match error with
  | ThrowAdapter e =>
      match errType e with
      | RATE_LIMIT =>
          let dateNow := now w in
          let h := HealthStore.get (id model) w in
          let withinWindow :=
            (dateNow - lastRateLimitAt h <=? RATE_LIMIT_WINDOW_MS)%Z in
          let strikes := if withinWindow then (rateLimitStrikes h + 1)%Z else 1%Z in
          let cooldownMs :=
            match retryAfterMs e with
            | Some r => r
            | None =>
                Z.min (RATE_LIMIT_BASE_MS * 2 ^ (strikes - 1)) RATE_LIMIT_CAP_MS
            end in
          let w :=
            HealthStore.markRateLimited (id model) cooldownMs
              (Some {| HealthStore.info_strikes := Some strikes;
                       HealthStore.info_lastRateLimitAt := Some dateNow |}) w in
          let attemptsLog := attemptsLog ++ [attemptOf model rate_limit None] in
          let w := HealthStore.recordResult (id model) false (Some latencyMs) w in
          let w := SessionStore.recordAttempt (requestId request) (taskType request)
                     (attemptOf model rate_limit None) w in
          let w := emit (Log router_rate_limit (id model)) w in
          Continue attemptsLog w
      | TRANSIENT =>
          let attemptsLog := attemptsLog ++ [attemptOf model transient None] in
          let w := HealthStore.recordResult (id model) false (Some latencyMs) w in
          let w := SessionStore.recordAttempt (requestId request) (taskType request)
                     (attemptOf model transient None) w in
          Continue attemptsLog w
      | QUOTA_EXCEEDED =>
          let attemptsLog := attemptsLog ++ [attemptOf model quota None] in
          let w := HealthStore.recordResult (id model) false (Some latencyMs) w in
          let w := SessionStore.recordAttempt (requestId request) (taskType request)
                     (attemptOf model quota None) w in
          Continue attemptsLog w
      | PERMANENT =>
          let attemptsLog := attemptsLog ++ [attemptOf model permanent None] in
          let w :=
            if bool_decide (errMessage e = "context_length_exceeded")
            then emit (Log router_context_too_long (id model))
                   (HealthStore.markDegraded (id model) 60000 w)
            else w in
          let w := HealthStore.recordResult (id model) false (Some latencyMs) w in
          let w := SessionStore.recordAttempt (requestId request) (taskType request)
                     (attemptOf model permanent None) w in
          Continue attemptsLog w
      end
  | ThrowOther _ =>
      let w := emit (Log router_unhandled_error (id model)) w in
      let attemptsLog := attemptsLog ++ [attemptOf model permanent None] in
      let w := HealthStore.recordResult (id model) false (Some latencyMs) w in
      let w := SessionStore.recordAttempt (requestId request) (taskType request)
                 (attemptOf model permanent None) w in
      Continue attemptsLog w
  end.

(** The body of the [for (const model of ordered)] loop after the
    attempt-budget check. *)
Definition attempt (env : Env) (deps : RouterDeps) (request : RouterRequest)
    (threshold : Q) (model : CandidateModel)
    (attemptsLog : list RoutingAttempt) (w : World) : Step :=
  let attemptStart := now w in
  match fitMessagesToContext (messages request) (context model)
          (default 0%Z (maxTokens request)) with
  | None =>
      let '(attemptsLog, w) :=
        pushAndRecord request (attemptOf model permanent None) attemptsLog w in
      Continue attemptsLog (emit (Log router_context_unfit (id model)) w)
  | Some fitted =>
      let w :=
        if (0 <? trimmedCount fitted)%Z
        then emit (Log router_context_trim (id model)) w else w in
      if stream request && allowDegrade request then
        match callStream env model
                (withMessages request (fittedMessages fitted) (stream request)) w with
        | (inl providerStream, w) =>
            let '(attemptsLog, w) :=
              pushAndRecord request (attemptOf model success None) attemptsLog w in
            Return (StreamResult (ProviderStream providerStream) (id model)
                      (buildMetadata attemptsLog (id model) (taskType request)))
                   attemptsLog w
        | (inr error, w) => handleError request model attemptStart error attemptsLog w
        end
      else
        match callGenerate env ForCandidate model
                (withMessages request (fittedMessages fitted) (stream request)) w with
        | (inr error, w) => handleError request model attemptStart error attemptsLog w
        | (inl response, w) =>
            let latencyMs := (now w - attemptStart)%Z in
            let '(s, w) :=
              evaluate env (text response) request (codeEvaluation (policies deps))
                (Some {| hasToolCalls := Some (hasItems (toolCalls response)) |}) w in
            if allowDegrade request then
              accept request deps model response (Qle_bool threshold s)
                latencyMs s attemptsLog w
            else if Qle_bool threshold s then
              accept request deps model response true latencyMs s attemptsLog w
            else
              let '(judged, w) :=
                maybeJudgeScore env deps (text response) request model s threshold w in
              match judged with
              | Some judgedScore =>
                  if Qle_bool threshold judgedScore then
                    accept request deps model response true latencyMs judgedScore
                      attemptsLog w
                  else
                    let w := HealthStore.recordResult (id model) false (Some latencyMs) w in
                    let '(attemptsLog, w) :=
                      pushAndRecord request (attemptOf model eval_fail (Some s))
                        attemptsLog w in
                    let w := emit (Log router_eval_fail (id model)) w in
                    Continue attemptsLog (HealthStore.markDegraded (id model) 30000 w)
              | None =>
                  let w := HealthStore.recordResult (id model) false (Some latencyMs) w in
                  let '(attemptsLog, w) :=
                    pushAndRecord request (attemptOf model eval_fail (Some s))
                      attemptsLog w in
                  let w := emit (Log router_eval_fail (id model)) w in
                  Continue attemptsLog (HealthStore.markDegraded (id model) 30000 w)
              end
        end
  end.

(** [indexOf] of [Array.prototype] *)
Fixpoint indexOf (x : string) (l : list string) : Z :=
  match l with
  | [] => (-1)%Z
  | y :: l' =>
      if bool_decide (y = x) then 0%Z
      else let i := indexOf x l' in
           if (i =? -1)%Z then (-1)%Z else (i + 1)%Z
  end.

Definition MAX_SAFE_INTEGER : Z := (2 ^ 53 - 1)%Z.

(** The comparator handed to [sort]: negative puts [a] first. *)
Definition compareCandidates (preferredIds : list string)
    (a b : CandidateModel * Q) : Q :=
  if negb (Qeq_bool (snd b) (snd a)) then (snd b - snd a)%Q
  else
    let indexA := indexOf (id (fst a)) preferredIds in
    let indexB := indexOf (id (fst b)) preferredIds in
    let safeA := if (indexA =? -1)%Z then MAX_SAFE_INTEGER else indexA in
    let safeB := if (indexB =? -1)%Z then MAX_SAFE_INTEGER else indexB in
    inject_Z (safeA - safeB).

(** [Array.prototype.sort] is stable; insertion from the right keeps
    equal elements in their original order. *)
Fixpoint insertBy {A : Type} (cmp : A -> A -> Q) (x : A) (l : list A) : list A :=
  match l with
  | [] => [x]
  | y :: l' => if Qle_bool (cmp x y) 0 then x :: l else y :: insertBy cmp x l'
  end.

Definition sortBy {A : Type} (cmp : A -> A -> Q) (l : list A) : list A :=
  foldr (insertBy cmp) [] l.

Definition eligible (request : RouterRequest) (policy : RoutingPolicy)
    (preferredIds : list string) (model : CandidateModel) : bool :=
  if negb (enabled model) then false
  else if (0 <? List.length preferredIds)
          && negb (existsb (fun p => bool_decide (p = id model)) preferredIds)
  then false
  else
    let capability :=
      default 0%Z (capabilities model !! taskKey (taskType request)) in
    if (capability <? minCapability policy)%Z then false else true.

Definition candidateOf (request : RouterRequest) (policy : RoutingPolicy)
    (w : World) (model : CandidateModel) : option (CandidateModel * Q) :=
  let h := HealthStore.get (id model) w in
  if (now w <? cooldownUntil h)%Z then None
  else
    let budget := BudgetStore.get (provider model) w in
    let overHardLimit :=
      match truthyZ (hardLimitTokens budget) with
      | Some hard => (hard <=? usedTokens budget)%Z
      | None => false
      end in
    if overHardLimit then None
    else Some (model, scoreModel model (taskType request) h budget policy (now w)).

Definition orderedCandidates (deps : RouterDeps) (request : RouterRequest)
    (policy : RoutingPolicy) (preferredIds : list string) (w : World)
    : list CandidateModel :=
  let eligibleModels :=
    List.filter (eligible request policy preferredIds) (models deps) in
  let candidates := omap (candidateOf request policy w) eligibleModels in
  map fst (sortBy (compareCandidates preferredIds) candidates).

(** The [for (const model of ordered)] loop with its
    [if (attempts++ >= attemptBudget) break]. *)
Fixpoint tryCandidates (env : Env) (deps : RouterDeps) (request : RouterRequest)
    (threshold : Q) (budget attempts : Z) (ordered : list CandidateModel)
    (attemptsLog : list RoutingAttempt) (w : World) : Step :=
  match ordered with
  | [] => Continue attemptsLog w
  | model :: rest =>
      if (budget <=? attempts)%Z then Continue attemptsLog w
      else
        match attempt env deps request threshold model attemptsLog w with
        | Continue attemptsLog w =>
            tryCandidates env deps request threshold budget (attempts + 1)%Z rest
              attemptsLog w
        | Return r attemptsLog w => Return r attemptsLog w
        end
  end.

(** Modelled from the spec: [sleep] of [src/util/sleep.ts], which is not
    among the sources; the router "sleeps [pollIntervalMs]", so the clock
    moves on by the interval (a negative interval does not wait). *)
Definition sleep (ms : Z) (w : World) : World :=
  advance (Z.max 0 ms) (emit (Sleep ms) w).

(** [x || y] on numbers: [0] is falsy. *)
Definition orElseQ (x y : Q) : Q := if Qeq_bool x 0 then y else x.
Definition orElseZ (x y : Z) : Z := if (x =? 0)%Z then y else x.

Definition elapsedBelow (start : Z) (maxWait : Q) (w : World) : bool :=
  Qltb (inject_Z (now w - start)) maxWait.

(** The [while (Date.now() - start < maxWaitMs)] loop, over the values
    computed at the top of [route]; [fuel] bounds the number of cycles and
    [None] means that it ran out. *)
Fixpoint routeLoop (fuel : nat) (env : Env) (deps : RouterDeps)
    (request : RouterRequest) (policy : RoutingPolicy)
    (maxWait : Q) (budget : Z) (threshold : Q) (preferredIds : list string)
    (start : Z) (attemptsLog : list RoutingAttempt) (w : World)
    : option (Completion * list RoutingAttempt * World) :=
  match fuel with
  | O => None
  | S fuel' =>
      if elapsedBelow start maxWait w then
        let ordered := orderedCandidates deps request policy preferredIds w in
        match tryCandidates env deps request threshold budget 0%Z ordered
                attemptsLog w with
        | Return r attemptsLog w => Some (Returned r, attemptsLog, w)
        | Continue attemptsLog w =>
            if negb (elapsedBelow start maxWait w)
            then Some (Threw (NoSuitableModelError 10000), attemptsLog, w)
            else routeLoop fuel' env deps request policy maxWait budget threshold
                   preferredIds start attemptsLog (sleep (pollIntervalMs policy) w)
        end
      else Some (Threw (NoSuitableModelError 10000), attemptsLog, w)
  end.

Definition nonEmptyText (o : option string) : option string :=
  match o with
  | Some EmptyString => None
  | other => other
  end.

(** The resume path: [request.resume && deps.sessionStore], then
    [session?.status === 'complete' && session.responseText]. *)
Definition resumeHit (request : RouterRequest) (w : World)
    : option (RouteResult * World) :=
  if resume request then
    match SessionStore.get (requestId request) w with
    | Some session =>
        if s_complete session then
          match nonEmptyText (s_responseText session) with
          | Some stored =>
              let selected := default "unknown"%string (s_selectedModelId session) in
              Some (TextResult {| text := stored; toolCalls := None; usage := None |}
                      selected
                      (buildMetadata (s_attempts session) selected (taskType request)),
                    emit (Log router_resume_hit selected) w)
          | None => None
          end
        else None
    | None => None
    end
  else None.

(** [route]: the completion, the final [attemptsLog] and the world. *)
Definition route (fuel : nat) (env : Env) (deps : RouterDeps)
    (request : RouterRequest) (w : World)
    : option (Completion * list RoutingAttempt * World) :=
  let policy := policyForTask (policies deps) (taskType request) in
  let maxWait := orElseQ (maxWaitMs request) (policyMaxWaitMs policy) in
  let budget := orElseZ (attemptBudget request) (maxAttemptsPerCycle policy) in
  let threshold := default (policyQualityThreshold policy) (qualityThreshold request) in
  let preferredIds := default [] (preferred policy) in
  let start := now w in
  match resumeHit request w with
  | Some (r, w) => Some (Returned r, [], w)
  | None =>
      routeLoop fuel env deps request policy maxWait budget threshold
        preferredIds start [] w
  end.

End Router.

(* ===================================================================== *)
(** * The HTTP handler ([src/server/handler.ts])                           *)
(* ===================================================================== *)

Module Handler.
Import Text TaskInference Router.

Inductive Endpoint : Type := ChatCompletions | Responses.

#[global] Instance Endpoint_eq_dec : EqDecision Endpoint.
Proof. solve_decision. Defined.

(** The decoded JSON body: [messages] is what [normalizeMessages]
    (or [normalizeResponsesInput]) returns, with [null] read as empty. *)
Record Body : Type := {
  b_messages : list Message;
  b_task_type : option string;
  b_request_id : option string;
  b_max_tokens : option Z;
  b_stream : bool
}.

(** A [POST] to one of the two completion endpoints.  [headers] maps
    lower-case header names to values; [body] is [None] when [req.json()]
    throws. *)
Record HttpRequest : Type := {
  endpoint : Endpoint;
  headers : gmap string string;
  body : option Body
}.

Inductive Payload : Type :=
  | PlainText (s : string)
  | ErrorJson (code message : string) (retry_after_ms : option Z)
  | CompletionJson (on : Endpoint) (response : NormalizedResponse)
      (router : option RoutingMetadata)
  | EventStream (body : StreamBody).

Record HttpResponse : Type := {
  status : Z;
  payload : Payload;
  metadataHeader : option RoutingMetadata
}.

Definition jsonResponse (p : Payload) (statusCode : Z) : HttpResponse :=
  {| status := statusCode; payload := p; metadataHeader := None |}.

(** [process.env] as far as the handler reads it. *)
Record ProcessEnv : Type := {
  ADMIN_TOKEN : option string;
  ALLOW_INSECURE_RESUME : option string
}.

Definition lowerString (s : string) : string :=
  string_of_list_ascii (toLowerCase (chars s)).

(** a string used as a condition: the empty string is falsy *)
Definition truthyString (o : option string) : option string :=
  match o with
  | Some EmptyString => None
  | other => other
  end.

Definition taskOfString (s : string) : option TaskType :=
  List.find (fun t => bool_decide (taskKey t = s))
    [Code; Reasoning; Research; Rewrite; Default].

Definition normalizeTaskType (header bodyTaskType : option string) (text : string)
    : TaskType :=
  match truthyString (lowerString <$> header) ≫= taskOfString with
  | Some t => t
  | None =>
      match bodyTaskType ≫= (fun s => taskOfString (lowerString s)) with
      | Some t => t
      | None => inferTaskType text
      end
  end.

Definition parseBoolean (value : option string) : bool :=
  match truthyString value with
  | Some v =>
      existsb (fun x => bool_decide (x = lowerString v))
        ["1"; "true"; "yes"; "on"]%string
  | None => false
  end.

Fixpoint join (sep : string) (l : list string) : string :=
  match l with
  | [] => EmptyString
  | [x] => x
  | x :: l' => (x ++ sep ++ join sep l')%string
  end.

Section WithRuntime.

(** [Number(value)] of the JavaScript runtime on a header value: a finite
    number, or [None] for [NaN]. *)
Variable Number : string -> option Q.

(** [createRequestId]: a SHA-256 digest of the text and the clock. *)
Variable createRequestId : string -> Z -> string.

Definition parseThreshold (value : option string) : option Q :=
  match truthyString value with
  | None => None
  | Some v =>
      match Number v with
      | None => None
      | Some numeric =>
          if Heuristics.Qltb 1 numeric then Some (Heuristics.minQ (numeric / 5)%Q 1%Q)
          else Some (Heuristics.maxQ numeric 0%Q)
      end
  end.

Definition parseNumber (value : option string) : option Q :=
  match truthyString value with
  | None => None
  | Some v => Number v
  end.

(** The [routerRequest] literal of the handler. *)
Definition routerRequestOf (req : HttpRequest) (b : Body) (dateNow : Z)
    : RouterRequest :=
  let combinedText := join newline (map content (b_messages b)) in
  {| messages := b_messages b;
     taskType :=
       normalizeTaskType (headers req !! "x-router-task-type"%string)
         (b_task_type b) combinedText;
     qualityThreshold :=
       Some (default 0%Q
               (parseThreshold (headers req !! "x-router-quality-threshold"%string)));
     maxWaitMs :=
       default 0%Q (parseNumber (headers req !! "x-router-max-wait-ms"%string));
     attemptBudget := 0;
     requestId :=
       match headers req !! "x-router-request-id"%string with
       | Some h => h
       | None => default (createRequestId combinedText dateNow) (b_request_id b)
       end;
     maxTokens := b_max_tokens b;
     stream := b_stream b;
     allowDegrade := parseBoolean (headers req !! "x-router-allow-degrade"%string);
     resume := parseBoolean (headers req !! "x-router-resume"%string) |}.

Definition isAdminAuthorized (penv : ProcessEnv) (req : HttpRequest) : bool :=
  match truthyString (ADMIN_TOKEN penv) with
  | None => false
  | Some token =>
      bool_decide (headers req !! "x-router-admin-token"%string = Some token)
  end.

Definition isResumeAuthorized (penv : ProcessEnv) (req : HttpRequest) : bool :=
  if bool_decide (ALLOW_INSECURE_RESUME penv = Some "true"%string) then true
  else isAdminAuthorized penv req.

(** The [try { ... } catch (error) { ... }] around [route]. *)
Definition respond (req : HttpRequest) (outcome : Completion) : HttpResponse :=
  match outcome with
  | Threw (NoSuitableModelError retry) =>
      jsonResponse
        (ErrorJson "no_suitable_model_available"
           "No suitable model available before timeout" (Some retry)) 503
  | Threw (UnexpectedError _) =>
      jsonResponse
        (ErrorJson "router_error" "Router failed to process request" None) 500
  | Returned result =>
      let includeDebug :=
        bool_decide
          (lowerString <$> headers req !! "x-router-debug"%string = Some "true"%string) in
      match result with
      | StreamResult stream _ metadata =>
          {| status := 200; payload := EventStream stream;
             metadataHeader := if includeDebug then Some metadata else None |}
      | TextResult response _ metadata =>
          if includeDebug then
            {| status := 200;
               payload := CompletionJson (endpoint req) response (Some metadata);
               metadataHeader := Some metadata |}
          else jsonResponse (CompletionJson (endpoint req) response None) 200
      end
  end.

(** The handler from the body decoding on. *)
Definition handle (fuel : nat) (env : Env) (deps : RouterDeps)
    (penv : ProcessEnv) (req : HttpRequest) (w : World)
    : option (HttpResponse * World) :=
  match body req with
  | None => Some (jsonResponse (PlainText "Invalid JSON") 400, w)
  | Some b =>
      if (List.length (b_messages b) =? 0) then
        Some (jsonResponse
                (ErrorJson "invalid_request"
                   (match endpoint req with
                    | Responses => "input must be a string or array"
                    | ChatCompletions => "messages must be an array"
                    end) None) 400, w)
      else
        let routerRequest := routerRequestOf req b (now w) in
        if resume routerRequest && negb (isResumeAuthorized penv req) then
          Some (jsonResponse
                  (ErrorJson "unauthorized" "Resume requires admin token" None) 401, w)
        else if bool_decide (endpoint req = Responses) && stream routerRequest then
          Some (jsonResponse
                  (ErrorJson "unsupported"
                     "Streaming is not supported for /v1/responses" None) 400, w)
        else
          match route fuel env deps routerRequest w with
          | Some (outcome, _, w) => Some (respond req outcome, w)
          | None => None
          end
  end.

End WithRuntime.

End Handler.


(* ===================================================================== *)
(** * Provider failures ([normalizeAdapterError], [src/adapters/errors.ts]) *)
(* ===================================================================== *)

Module AdapterErrors.
Import Text.

(** A JavaScript number that may be [NaN] ([None]). *)
Definition JsNumber : Type := option Q.

(** An [AdapterError] as the adapter builds it; [retryAfterMs] is
    whatever [Number(header) * 1000] gave. *)
Record NormalizedError : Type := {
  ne_type : AdapterErrorType;
  ne_message : string;
  ne_retryAfterMs : option JsNumber
}.

(** The fields that are read off a value that is not an [AdapterError];
    [f_retryAfter] is [headers?.['retry-after']]. *)
Record ProviderFailure : Type := {
  f_status : option Z;
  f_statusCode : option Z;
  f_message : option string;
  f_retryAfter : option string
}.

Inductive Caught : Type :=
  | AnAdapterError (e : NormalizedError)
  | Another (f : ProviderFailure).

Definition CONTEXT_PHRASES : list string :=
  ["context length"; "context window"; "maximum context"; "max context";
   "token limit"; "too many tokens"; "prompt too long"; "input is too long"].

Definition mentionsContext (message : string) : bool :=
  let normalizedMessage := toLowerCase (chars message) in
  existsb (fun p => includes normalizedMessage (chars p)) CONTEXT_PHRASES.

Section WithNumber.

(** [Number(value)] on a header value; [None] for [NaN]. *)
Variable Number : string -> option Q.

Definition normalizeAdapterError (error : Caught) : NormalizedError :=
  match error with
  | AnAdapterError e => e
  | Another anyErr =>
      let status :=
        match f_status anyErr with
        | Some s => Some s
        | None => f_statusCode anyErr
        end in
      let message := default "Provider error"%string (f_message anyErr) in
      let retryAfterMs : option JsNumber :=
        match f_retryAfter anyErr with
        | Some (String c h) =>
            Some ((fun q => q * 1000)%Q <$> Number (String c h))
        | _ => None
        end in
      if mentionsContext message then
        {| ne_type := PERMANENT; ne_message := "context_length_exceeded";
           ne_retryAfterMs := None |}
      else if bool_decide (status = Some 429%Z) then
        {| ne_type := RATE_LIMIT; ne_message := message;
           ne_retryAfterMs := retryAfterMs |}
      else if bool_decide (status = Some 402%Z) then
        {| ne_type := QUOTA_EXCEEDED; ne_message := message;
           ne_retryAfterMs := None |}
      else if match status with
              | Some s => negb (s =? 0)%Z && (500 <=? s)%Z
              | None => false
              end then
        {| ne_type := TRANSIENT; ne_message := message; ne_retryAfterMs := None |}
      else
        {| ne_type := PERMANENT; ne_message := message; ne_retryAfterMs := None |}
  end.

End WithNumber.

End AdapterErrors.

(* ===================================================================== *)
(** * Chunked text streams ([src/util/stream.ts])                          *)
(* ===================================================================== *)

Module Stream.

(** An index argument of [String.prototype.slice], made relative to a
    string of [len] code units. *)
Definition relativeIndex (len i : Z) : Z :=
  if (i <? 0)%Z then Z.max (len + i) 0 else Z.min i len.

(** [text.slice(start, finish)] *)
Definition slice (text : list ascii) (start finish : Z) : list ascii :=
  let len := Z.of_nat (List.length text) in
  let from := relativeIndex len start in
  let to := relativeIndex len finish in
  take (Z.to_nat (to - from)) (drop (Z.to_nat from) text).

(** The [while (index < text.length)] loop of [splitText]; [None] when
    [fuel] iterations were not enough. *)
Fixpoint splitLoop (fuel : nat) (text : list ascii) (size index : Z)
    (chunks : list (list ascii)) : option (list (list ascii)) :=
  match fuel with
  | O => None
  | S fuel' =>
      if (index <? Z.of_nat (List.length text))%Z then
        splitLoop fuel' text size (index + size)%Z
          (chunks ++ [slice text index (index + size)%Z])
      else Some chunks
  end.

Definition splitText (fuel : nat) (text : list ascii) (size : Z)
    : option (list (list ascii)) :=
  splitLoop fuel text size 0%Z [].

(** What the generator of [streamFromText] does, in order. *)
Inductive StreamEvent : Type :=
  | Yield (chunk : list ascii)
  | Wait (ms : Z).

Record StreamOptions : Type := {
  o_chunkSize : option Z;
  o_delayMs : option Z
}.

Definition streamFromText (fuel : nat) (text : list ascii)
    (options : option StreamOptions) : option (list StreamEvent) :=
  let chunkSize := default 40%Z (options ≫= o_chunkSize) in
  let delayMs := default 0%Z (options ≫= o_delayMs) in
  (fun chunks =>
     flat_map (fun chunk =>
                 if (0 <? delayMs)%Z then [Yield chunk; Wait delayMs]
                 else [Yield chunk]) chunks)
  <$> splitText fuel text chunkSize.

End Stream.

(* ===================================================================== *)
(** * Decoding the request body ([normalizeMessages], [src/server/handler.ts]) *)
(* ===================================================================== *)

Module HandlerInput.
Import Text Handler.

(** A value as [req.json()] returns it. *)
#[local] Unset Elimination Schemes.
Inductive Json : Type :=
  | JNull
  | JBool (b : bool)
  | JNumber (n : Q)
  | JString (s : string)
  | JArray (items : list Json)
  | JObject (fields : list (string * Json)).
#[local] Set Elimination Schemes.

(** A result, or the [TypeError] of reading a property of [null]. *)
Inductive Js (A : Type) : Type :=
  | Ok (a : A)
  | TypeError.
Arguments Ok {A} _.
Arguments TypeError {A}.

(** A value used as a condition. *)
Definition truthy (j : Json) : bool :=
  match j with
  | JNull => false
  | JBool b => b
  | JNumber n => negb (Qeq_bool n 0)
  | JString s => negb (bool_decide (s = EmptyString))
  | JArray _ | JObject _ => true
  end.

Definition isNull (j : Json) : bool :=
  match j with JNull => true | _ => false end.

(** [typeof j === 'object'] for a truthy [j] *)
Definition isObject (j : Json) : bool :=
  match j with JArray _ | JObject _ => true | _ => false end.

Fixpoint lookupField (key : string) (fields : list (string * Json)) : option Json :=
  match fields with
  | [] => None
  | (k, v) :: rest => if bool_decide (k = key) then Some v else lookupField key rest
  end.

(** [j.key] for one of the keys [role], [content], [type] and [text] on a
    value that is not [null]; [None] is [undefined]. *)
Definition property (key : string) (j : Json) : option Json :=
  match j with
  | JObject fields => lookupField key fields
  | _ => None
  end.

Section WithRuntime.

(** [String(j)] for a value that is not a string, as [join] applies it. *)
Variable toStr : Json -> string.

(** [part.type === 'text' && part.text] *)
Definition keepPart (part : Json) : bool :=
  match property "type" part with
  | Some (JString t) => bool_decide (t = "text"%string)
  | _ => false
  end
  && from_option truthy false (property "text" part).

Definition partText (part : Json) : string :=
  match property "text" part with
  | Some (JString s) => s
  | Some JNull | None => EmptyString
  | Some other => toStr other
  end.

Definition normalizeContent (content : Json) : Js string :=
  match content with
  | JString s => Ok s
  | JArray parts =>
      if existsb isNull parts then TypeError
      else Ok (join " " (map partText (List.filter keepPart parts)))
  | _ => Ok EmptyString
  end.

Definition roleOf (message : Json) : Role :=
  match property "role" message with
  | Some (JString r) =>
      if bool_decide (r = "system"%string) then system
      else if bool_decide (r = "assistant"%string) then assistant
      else if bool_decide (r = "tool"%string) then tool
      else user
  | _ => user
  end.

(** The callback of [raw.map]: [None] is [null]. *)
Definition normalizeOne (message : Json) : Js (option Message) :=
  if negb (truthy message) || negb (isObject message) then Ok None
  else
    let raw :=
      match property "content" message with
      | Some JNull | None => JString EmptyString
      | Some c => c
      end in
    match normalizeContent raw with
    | Ok c => Ok (Some {| role := roleOf message; content := c |})
    | TypeError => TypeError
    end.

Fixpoint mapJs {A B : Type} (f : A -> Js B) (l : list A) : Js (list B) :=
  match l with
  | [] => Ok []
  | x :: rest =>
      match f x with
      | TypeError => TypeError
      | Ok y =>
          match mapJs f rest with
          | TypeError => TypeError
          | Ok ys => Ok (y :: ys)
          end
      end
  end.

(** [raw] is [body?.messages]; the inner [None] is [null]. *)
Definition normalizeMessages (raw : option Json) : Js (option (list Message)) :=
  match raw with
  | Some (JArray items) =>
      match mapJs normalizeOne items with
      | TypeError => TypeError
      | Ok mapped =>
          Ok (Some (omap (fun m =>
                           match m with
                           | Some msg =>
                               if (0 <? String.length (content msg)) then Some msg
                               else None
                           | None => None
                           end) mapped))
      end
  | _ => Ok None
  end.

End WithRuntime.

End HandlerInput.

(* ===================================================================== *)
(** * Specification-side definitions                                      *)
(* ===================================================================== *)

(** Declarative meaning of the regular expressions: [Matches ic r prev c rest]
    says that [r] matches exactly [c] when [prev] is the code unit before
    and [rest] the input after it. *)
Module RegexSem.
Import Text Regex.

Inductive Matches (ic : bool)
    : regex -> option ascii -> list ascii -> list ascii -> Prop :=
  | MLit l prev c rest :
      Forall2 (fun x y => charEq ic x y = true) c (chars l) ->
      Matches ic (Lit l) prev c rest
  | MAltL a b prev c rest :
      Matches ic a prev c rest -> Matches ic (Alt a b) prev c rest
  | MAltR a b prev c rest :
      Matches ic b prev c rest -> Matches ic (Alt a b) prev c rest
  | MSeq a b prev c1 c2 rest :
      Matches ic a prev c1 (c2 ++ rest) ->
      Matches ic b (lastOr prev c1) c2 rest ->
      Matches ic (Seq a b) prev (c1 ++ c2) rest
  | MOptSome a prev c rest :
      Matches ic a prev c rest -> Matches ic (Opt a) prev c rest
  | MOptNone a prev rest : Matches ic (Opt a) prev [] rest
  | MWordB prev rest :
      boundary prev (head rest) = true -> Matches ic WordB prev [] rest
  | MBol prev rest : lineStart prev = true -> Matches ic Bol prev [] rest
  | MAnyStar prev c rest : Matches ic AnyStar prev c rest.

(** [r] matches somewhere in [s]. *)
Definition Occurs (ic : bool) (r : regex) (s : list ascii) : Prop :=
  exists pre c post, s = pre ++ c ++ post /\ Matches ic r (last pre) c post.

End RegexSem.

Module TaskInferenceSpec.
Import Text Regex RegexSem TaskInference.

(** The literal [k] occurs in [s]. *)
Definition Contains (k : string) (s : list ascii) : Prop :=
  exists pre post, s = pre ++ chars k ++ post.

(** The literal [k] occurs in [s] between two word boundaries. *)
Definition WholeWord (k : string) (s : list ascii) : Prop :=
  exists pre post, s = pre ++ chars k ++ post /\
    boundary (last pre) (head (chars k ++ post)) = true /\
    boundary (lastOr (last pre) (chars k)) (head post) = true.

Definition RESEARCH_WORDS : list string :=
  ["latest"; "source"; "sources"; "compare"; "research"; "cite"].

Definition CodeCond (s : list ascii) : Prop :=
  Contains "```" s \/ exists k, k ∈ CODE_WORDS /\ WholeWord k s.
Definition RewriteCond (s : list ascii) : Prop :=
  exists k, k ∈ REWRITE_WORDS /\ WholeWord k s.
Definition ResearchCond (s : list ascii) : Prop :=
  exists k, k ∈ RESEARCH_WORDS /\ WholeWord k s.

(** The code keywords as the specification lists them. *)
Definition SPEC_CODE_WORDS : list string :=
  ["stack trace"; "error"; "exception"; "refactor"; "implement"; "bug";
   "typescript"; "javascript"].

Definition SpecCodeCond (s : list ascii) : Prop :=
  Contains "```" s \/ exists k, k ∈ SPEC_CODE_WORDS /\ WholeWord k s.

(** Task inference as the specification words it. *)
Definition inferTaskTypeSpec (text : string) : TaskType :=
  let normalized := toLowerCase (chars text) in
  if test false (Alt (Lit "```") (word SPEC_CODE_WORDS)) normalized then Code
  else if test false (word REWRITE_WORDS) normalized then Rewrite
  else if test false
            (word ["latest"; "source"; "sources"; "compare"; "research"; "cite"])
            normalized then Research
  else Reasoning.

(** The claim as the specification states it. *)
Definition CodeExactlyOnListedKeywords : Prop :=
  forall text, inferTaskType text = Code <-> SpecCodeCond (toLowerCase (chars text)).

End TaskInferenceSpec.

Module HeuristicsSpec.
Import Text Regex Heuristics.


Definition hasCodeBlock (text : string) : bool := test false codeBlockPattern (chars text).
Definition hasDiff (text : string) : bool := test false diffPattern (chars text).
Definition hasFileHint (text : string) : bool := test true fileHintPattern (chars text).
Definition hasLink (text : string) : bool := test false linkPattern (chars text).




End HeuristicsSpec.

Module ContextFitSpec.
Import ContextFit.

Definition sumLengths (msgs : list Message) : Z :=
  foldr (fun m acc => (contentLength m + acc)%Z) 0%Z msgs.

(** All characters plus one separator per adjacent pair of messages. *)
Definition totalChars (msgs : list Message) : Z :=
  (sumLengths msgs + Z.of_nat (pred (List.length msgs)))%Z.

(** [ceil(totalChars / 4) + maxOutputTokens] *)
Definition estimatedTokens (msgs : list Message) (maxOutputTokens : Z) : Z :=
  (ceilDiv4 (totalChars msgs) + maxOutputTokens)%Z.

(** [msgs] without its first [k] non-system messages. *)
Fixpoint dropNonSystem (k : nat) (msgs : list Message) : list Message :=
  match msgs with
  | [] => []
  | m :: rest =>
      match k with
      | O => msgs
      | S k' =>
          if nonSystem m then dropNonSystem k' rest
          else m :: dropNonSystem k rest
      end
  end.

Definition systemOnly (msgs : list Message) : list Message :=
  List.filter (fun m => negb (nonSystem m)) msgs.

End ContextFitSpec.

Module RouterSpec.
Import Text Heuristics Scoring Evaluator ContextFit Router.

Definition isCandidateCall (c : Call) : bool :=
  match c with
  | AdapterGenerate ForCandidate _ _ | AdapterStream _ _ => true
  | _ => false
  end.

Definition isJudgeCall (c : Call) : bool :=
  match c with
  | AdapterGenerate ForJudge _ _ => true
  | _ => false
  end.

Definition isUnfitLog (c : Call) : bool :=
  match c with
  | Log router_context_unfit _ => true
  | _ => false
  end.

Definition candidateCalls (w : World) : nat := countCalls isCandidateCall w.
Definition judgeCalls (w : World) : nat := countCalls isJudgeCall w.
Definition unfitSkips (w : World) : nat := countCalls isUnfitLog w.

(** Calls that the counters above can see. *)
Definition observed (c : Call) : bool := isAdapterCall c || isUnfitLog c.

Class Blind (p : Call -> bool) : Prop :=
  blind : forall c, observed c = false -> p c = false.
#[global] Hint Mode Blind ! : typeclass_instances.

Definition b2n (b : bool) : nat := if b then 1 else 0.

Definition stepLog (s : Step) : list RoutingAttempt :=
  match s with Continue l _ | Return _ l _ => l end.

Definition stepWorld (s : Step) : World :=
  match s with Continue _ w | Return _ _ w => w end.

Definition isReturn (s : Step) : bool :=
  match s with Return _ _ _ => true | Continue _ _ => false end.

(** What one attempt leaves behind: one more log entry [a], a clock that
    did not go back, and call counters that moved by [dc] candidate calls
    and [du] context-unfit skips. *)
Record AttemptEffect (model : CandidateModel) (log : list RoutingAttempt)
    (w : World) (s : Step) (a : RoutingAttempt) (dc du : nat) : Prop := {
  eff_log : stepLog s = log ++ [a];
  eff_model : modelId a = id model;
  eff_return : isReturn s = true <-> outcome a = success;
  eff_now : (now w <= now (stepWorld s))%Z;
  eff_candidate : candidateCalls (stepWorld s) = dc + candidateCalls w;
  eff_unfit : unfitSkips (stepWorld s) = du + unfitSkips w;
  eff_judge_le : judgeCalls w <= judgeCalls (stepWorld s)
}.

Definition noSuccess (log : list RoutingAttempt) : Prop :=
  Forall (fun a => outcome a <> success) log.

Definition endsInSuccess (log : list RoutingAttempt) : Prop :=
  exists a, last log = Some a /\ outcome a = success.

(** The log and the counters move together, and the clock does not go
    back, from the world [w0] in which [route] was entered. *)
Definition Accounted (w0 : World) (log : list RoutingAttempt) (w : World) : Prop :=
  (now w0 <= now w)%Z /\
  List.length log + (candidateCalls w0 + unfitSkips w0)
  = candidateCalls w + unfitSkips w.

(** What the loop has established when it stops. *)
Definition Settled (maxWait : Q) (start : Z)
    (c : Completion) (log : list RoutingAttempt) (w : World) : Prop :=
  match c with
  | Returned _ => endsInSuccess log
  | Threw e =>
      e = NoSuitableModelError 10000 /\ noSuccess log /\
      (maxWait <= inject_Z (now w - start))%Q
  end.

(** ** Rate limiting, as the specification words it *)

Definition strikesAfter (h : ModelHealth) (dateNow : Z) : Z :=
  if (dateNow - lastRateLimitAt h <=? 60000)%Z then (rateLimitStrikes h + 1)%Z
  else 1%Z.

Definition cooldownFor (e : AdapterError) (strikes : Z) : Z :=
  match retryAfterMs e with
  | Some provided => provided
  | None => Z.min (2000 * 2 ^ (strikes - 1)) 60000
  end.

(** [w'] was reached from [w] by making further calls. *)
Definition extends (w w' : World) : Prop := exists later, calls w' = later ++ calls w.

(** ** Resume *)


(** ** The attempt log and the provider invocations *)

(** The claim as the specification states it, for one run of [route]. *)
Definition LogCountsProviderCalls (fuel : nat) (env : Env) (deps : RouterDeps)
    (req : RouterRequest) (w : World) : Prop :=
  forall c log w',
    route fuel env deps req w = Some (c, log, w') ->
    List.length log + adapterCalls w = adapterCalls w'.

End RouterSpec.

Module Examples.
Import Text Heuristics ContextFit Router Handler.

Definition modelOf (name : string) (contextTokens : Z) (isEnabled : bool)
    : CandidateModel :=
  {| id := name; provider := "test"; context := contextTokens;
     capabilities := {[ "reasoning"%string := 3%Z ]};
     costWeight := Some 1%Q; enabled := isEnabled |}.

Definition modelA : CandidateModel := modelOf "model:a" 8000 true.
Definition tinyModel : CandidateModel := modelOf "model:tiny" 1 true.
Definition judgeModel : CandidateModel := modelOf "model:judge" 8000 false.

Definition policy : RoutingPolicy :=
  {| preferred := None; minCapability := 1; policyQualityThreshold := 0.9%Q;
     maxAttemptsPerCycle := 2; pollIntervalMs := 5; policyMaxWaitMs := 20%Q;
     weights := None |}.

Definition depsOf (ms : list CandidateModel) (judge : option JudgeConfig)
    : RouterDeps :=
  {| models := ms;
     policies :=
       {| routingDefault := policy; routingOthers := ∅; streaming := None;
          codeEvaluation := None; evaluationJudge := judge |} |}.

Definition judgeConfig : JudgeConfig :=
  {| j_enabled := true; j_modelId := "model:judge"; j_prompt := None;
     j_minScore := Some 0%Q |}.

Definition request (degrade resumed : bool) : RouterRequest :=
  {| messages := [ {| role := user; content := "Explain briefly." |} ];
     taskType := Reasoning; qualityThreshold := Some 0.9%Q; maxWaitMs := 5%Q;
     attemptBudget := 1; requestId := "req_1"; maxTokens := None;
     stream := false; allowDegrade := degrade; resume := resumed |}.

(** The same request asking for more output tokens than [tinyModel] has
    context. *)
Definition largeRequest : RouterRequest :=
  {| messages := [ {| role := user; content := "Explain briefly." |} ];
     taskType := Reasoning; qualityThreshold := Some 0.9%Q; maxWaitMs := 5%Q;
     attemptBudget := 1; requestId := "req_1"; maxTokens := Some 10%Z;
     stream := false; allowDegrade := false; resume := false |}.

Definition world0 : World :=
  {| now := 1000; health := ∅; budgets := ∅; sessions := Some ∅; calls := [] |}.

Definition reply (t : string) : NormalizedResponse :=
  {| text := t; toolCalls := None; usage := None |}.

(** An adapter that answers its [n]-th call with the [n]-th text, taking
    one millisecond each time. *)
Definition scripted (texts : list string) : Env :=
  {| generate := fun n _ _ =>
       {| took := 1%N; answer := inl (reply (nth n texts EmptyString)) |};
     openStream := fun _ _ _ => {| took := 1%N; answer := inl [] |};
     spawn := fun _ _ => (0%N, 0%Z) |}.

Definition rateLimited : AdapterError :=
  {| errType := RATE_LIMIT; errMessage := "rate limited"; retryAfterMs := None |}.

(** The parts of a finished run. *)
Definition parts (run : option (Completion * list RoutingAttempt * World))
    : Completion * list RoutingAttempt * World :=
  default (Threw (UnexpectedError EmptyString), [], world0) run.





Definition plainRequest : HttpRequest :=
  {| endpoint := ChatCompletions; headers := ∅;
     body := Some {| b_messages := [ {| role := user; content := "Hello there." |} ];
                     b_task_type := None; b_request_id := None;
                     b_max_tokens := None; b_stream := false |} |}.

Definition plainBody : Body :=
  {| b_messages := [ {| role := user; content := "Hello there." |} ];
     b_task_type := None; b_request_id := None;
     b_max_tokens := None; b_stream := false |}.


(** A run whose only candidate cannot fit the request. *)
Definition unfitRun : option (Completion * list RoutingAttempt * World) :=
  route 3 (scripted []) (depsOf [tinyModel] None) largeRequest world0.

(** A run in which the judge model is consulted and accepts. *)
Definition judgedRun : option (Completion * list RoutingAttempt * World) :=
  route 3 (scripted ["maybe"; "1"]) (depsOf [modelA; judgeModel] (Some judgeConfig))
    (request false false) world0.


End Examples.


(** Readings of the stores that the statements below are about. *)
Module StoreSpec.

Definition successRate (modelId : string) (w : World) : Q :=
  rollingSuccessRate (HealthStore.get modelId w).

(** [n] results of the same kind recorded in a row for one model. *)
Definition streak (n : nat) (modelId : string) (ok : bool) (latencyMs : option Z)
    (w : World) : World :=
  Nat.iter n (HealthStore.recordResult modelId ok latencyMs) w.

Definition usedBy (provider : string) (w : World) : Z :=
  usedTokens (BudgetStore.get provider w).

(** Token counts recorded one after the other, the first of the list first. *)
Definition recordAll (provider : string) (tokens : list Z) (w : World) : World :=
  foldl (fun w t => BudgetStore.record provider t w) w tokens.

Definition sumZ (l : list Z) : Z := foldr Z.add 0%Z l.

End StoreSpec.

(** What candidate selection looks at, read off [route]'s filter, its
    [Promise.all] and its comparator. *)
Module SelectionSpec.
Import Scoring Router.

Definition capabilityFor (request : RouterRequest) (m : CandidateModel) : Z :=
  default 0%Z (capabilities m !! taskKey (taskType request)).

Definition inCooldown (w : World) (m : CandidateModel) : Prop :=
  (now w < cooldownUntil (HealthStore.get (id m) w))%Z.

(** A hard limit of [0] is no limit. *)
Definition overHardLimit (w : World) (m : CandidateModel) : Prop :=
  exists hard,
    hardLimitTokens (BudgetStore.get (provider m) w) = Some hard
    /\ hard <> 0%Z
    /\ (hard <= usedTokens (BudgetStore.get (provider m) w))%Z.

Definition Selectable (deps : RouterDeps) (request : RouterRequest)
    (policy : RoutingPolicy) (preferredIds : list string) (w : World)
    (m : CandidateModel) : Prop :=
  In m (models deps)
  /\ enabled m = true
  /\ (preferredIds = [] \/ In (id m) preferredIds)
  /\ (minCapability policy <= capabilityFor request m)%Z
  /\ ~ inCooldown w m
  /\ ~ overHardLimit w m.

(** The score under which a model enters the sort. *)
Definition candidateScore (request : RouterRequest) (policy : RoutingPolicy)
    (w : World) (m : CandidateModel) : Q :=
  scoreModel m (taskType request) (HealthStore.get (id m) w)
    (BudgetStore.get (provider m) w) policy (now w).

Definition safeIndex (preferredIds : list string) (m : CandidateModel) : Z :=
  let i := indexOf (id m) preferredIds in
  if (i =? -1)%Z then MAX_SAFE_INTEGER else i.

(** [a] may stand before [b]: a higher score, or the same score and a
    place in the preferred list that is not later. *)
Definition Before (request : RouterRequest) (policy : RoutingPolicy)
    (preferredIds : list string) (w : World) (a b : CandidateModel) : Prop :=
  (candidateScore request policy w b < candidateScore request policy w a)%Q
  \/ ((candidateScore request policy w a == candidateScore request policy w b)%Q
      /\ (safeIndex preferredIds a <= safeIndex preferredIds b)%Z).

(** [Before] on the scored pairs that the comparator of [route] sees. *)
Definition BeforeScored (preferredIds : list string)
    (a b : CandidateModel * Q) : Prop :=
  (snd b < snd a)%Q
  \/ ((snd a == snd b)%Q
      /\ (safeIndex preferredIds (fst a) <= safeIndex preferredIds (fst b))%Z).

End SelectionSpec.

(** What [fitMessagesToContext] may drop. *)
Module FitSpec.
Import ContextFit.

Definition nonSystemCount (msgs : list Message) : nat :=
  List.length (List.filter nonSystem msgs).

End FitSpec.

(** Readings of a provider failure. *)
Module AdapterErrorsSpec.
Import AdapterErrors.

(** [status ?? statusCode] *)
Definition effectiveStatus (f : ProviderFailure) : option Z :=
  match f_status f with
  | Some s => Some s
  | None => f_statusCode f
  end.

Definition messageOf (f : ProviderFailure) : string :=
  default "Provider error"%string (f_message f).

End AdapterErrorsSpec.

(** How a run of the router shows in the session store. *)
Module SessionSpec.
Import Router.

Definition attemptsIn (store : gmap string SessionRecord) (requestId : string)
    : list RoutingAttempt :=
  from_option s_attempts [] (store !! requestId).

(** From [w] to [w'] the session of the request gained the attempts
    [added], in this order, and no other session changed; without a
    session store there is none afterwards either. *)
Definition SessionGained (req : RouterRequest) (w w' : World)
    (added : list RoutingAttempt) : Prop :=
  match sessions w with
  | None => sessions w' = None
  | Some store =>
      exists store',
        sessions w' = Some store'
        /\ (forall r, r <> requestId req -> store' !! r = store !! r)
        /\ attemptsIn store' (requestId req)
           = attemptsIn store (requestId req) ++ added
  end.

(** The session of the request is complete and holds the text and the
    model of the result.  The provider's own stream is recorded only when
    it has been read to its end, which is not part of [route]. *)
Definition Recorded (req : RouterRequest) (r : RouteResult) (w : World) : Prop :=
  forall store, sessions w = Some store ->
    match r with
    | TextResult response model _ =>
        exists s, store !! requestId req = Some s
          /\ s_complete s = true
          /\ s_responseText s = Some (text response)
          /\ s_selectedModelId s = Some model
    | StreamResult (ChunkedText txt _ _) model _ =>
        exists s, store !! requestId req = Some s
          /\ s_complete s = true
          /\ s_responseText s = Some txt
          /\ s_selectedModelId s = Some model
    | StreamResult (ProviderStream _) _ _ => True
    end.

End SessionSpec.

(** Readings of a result. *)
Module ResultSpec.
Import Router.

Definition metadataOfResult (r : RouteResult) : RoutingMetadata :=
  match r with
  | TextResult _ _ meta | StreamResult _ _ meta => meta
  end.

Definition modelOfResult (r : RouteResult) : string :=
  match r with
  | TextResult _ model _ | StreamResult _ model _ => model
  end.

(** The result [r] was reached by the attempts [log]: all of them failed
    but the last, which succeeded on the model that [r] names, and the
    metadata of [r] lists exactly them. *)
Definition ToldBy (req : RouterRequest) (r : RouteResult)
    (log : list RoutingAttempt) : Prop :=
  exists earlier a,
    log = earlier ++ [a]
    /\ Forall (fun x => outcome x <> success) earlier
    /\ outcome a = success
    /\ modelId a = modelOfResult r
    /\ metadataOfResult r = buildMetadata log (modelOfResult r) (taskType req).

End ResultSpec.

(** Further concrete inputs. *)
Module MoreExamples.
Import Text Router Handler AdapterErrors Stream Examples.

(** A health record of a model that failed half of the time. *)
Definition shakyHealth : ModelHealth :=
  {| cooldownUntil := 0; degradedUntil := 0; rateLimitStrikes := 0;
     lastRateLimitAt := 0; rollingLatencyMs := 800%Q; rollingSuccessRate := 0.5%Q |}.

Definition noBudget : ProviderBudget :=
  {| usedTokens := 0; softLimitTokens := None; hardLimitTokens := None |}.

(** A request that asks to resume without any token. *)
Definition resumeRequest : HttpRequest :=
  {| endpoint := ChatCompletions;
     headers := {[ "x-router-resume"%string := "true"%string ]};
     body := Some plainBody |}.

Definition noSecrets : ProcessEnv :=
  {| ADMIN_TOKEN := None; ALLOW_INSECURE_RESUME := None |}.

(** A 429 whose message speaks of the context window. *)
Definition contextFailure : ProviderFailure :=
  {| f_status := Some 429%Z; f_statusCode := None;
     f_message := Some "Maximum context length exceeded"%string;
     f_retryAfter := Some "3"%string |}.

(** A request whose own wait limit is negative. *)
Definition hurriedRequest : RouterRequest :=
  {| messages := [ {| role := user; content := "Explain briefly." |} ];
     taskType := Reasoning; qualityThreshold := None; maxWaitMs := (-1)%Q;
     attemptBudget := 0; requestId := "req_2"; maxTokens := None;
     stream := false; allowDegrade := false; resume := false |}.

(** The metadata of a run that returned a text. *)
Definition metadataOf (run : option (Completion * list RoutingAttempt * World))
    : RoutingMetadata :=
  match fst (fst (parts run)) with
  | Returned (TextResult _ _ meta) => meta
  | _ => buildMetadata [] EmptyString Default
  end.

End MoreExamples.

(* ===================================================================== *)
(** * Lemmas and theorems                                                  *)
(* ===================================================================== *)

Module RegexFacts.
Import Text Regex RegexSem.

Lemma lastOr_app prev (c1 c2 : list ascii) :
  lastOr (lastOr prev c1) c2 = lastOr prev (c1 ++ c2).
Proof.
  unfold lastOr. rewrite last_app. destruct (last c2); [done|].
  by destruct (last c1).
Qed.

Lemma lastOr_cons prev a (c : list ascii) :
  lastOr prev (a :: c) = lastOr (Some a) c.
Proof.
  change (a :: c) with ([a] ++ c). by rewrite <- lastOr_app.
Qed.

Lemma stripPrefix_spec ic p s s' :
  stripPrefix ic p s = Some s' <->
  exists c, s = c ++ s' /\ Forall2 (fun x y => charEq ic x y = true) c p.
Proof.
  revert s. induction p as [|a p IH]; intros s; simpl.
  - split.
    + intros [= ->]. exists []. split; [done|constructor].
    + intros (c & -> & Hc). inversion Hc. done.
  - destruct s as [|b s].
    + split; [done|]. intros (c & Hs & Hc). inversion Hc; subst. done.
    + destruct (charEq ic b a) eqn:Hab.
      * rewrite IH. split.
        -- intros (c & -> & Hc). exists (b :: c). split; [done|]. by constructor.
        -- intros (c & Hs & Hc). inversion Hc; subst. simpl in Hs.
           injection Hs as -> ->. eauto.
      * split; [done|]. intros (c & Hs & Hc). inversion Hc; subst.
        simpl in Hs. injection Hs as -> ->. congruence.
Qed.

Lemma anyStar_spec prev s k :
  anyStar prev s k = true <->
  exists c rest, s = c ++ rest /\ k (lastOr prev c) rest = true.
Proof.
  revert prev. induction s as [|a s IH]; intros prev; simpl.
  - rewrite orb_false_r. split.
    + intros H. exists [], []. done.
    + intros (c & rest & Hs & Hk). symmetry in Hs.
      apply app_eq_nil in Hs as [-> ->]. done.
  - rewrite orb_true_iff, IH. split.
    + intros [H | (c & rest & -> & Hk)].
      * exists [], (a :: s). done.
      * exists (a :: c), rest. by rewrite lastOr_cons.
    + intros (c & rest & Hs & Hk). destruct c as [|b c].
      * left. simpl in Hs. by subst.
      * right. simpl in Hs. injection Hs as -> ->. exists c, rest.
        by rewrite lastOr_cons in Hk.
Qed.

Lemma matchK_spec ic r : forall prev s k,
  matchK ic r prev s k = true <->
  exists c rest, s = c ++ rest /\ Matches ic r prev c rest
                 /\ k (lastOr prev c) rest = true.
Proof.
  induction r as [l | a IHa b IHb | a IHa b IHb | a IHa | | | ];
    intros prev s k; simpl.
  - destruct (stripPrefix ic (chars l) s) as [s'|] eqn:Hs.
    + apply stripPrefix_spec in Hs as (c & -> & Hc).
      assert (Hlen : take (List.length (chars l)) (c ++ s') = c).
      { rewrite <- (Forall2_length _ _ _ Hc). by rewrite take_app_length. }
      rewrite Hlen. split.
      * intros Hk. exists c, s'. split; [done|]. split; [by constructor|done].
      * intros (c' & rest & Heq & Hm & Hk). inversion Hm; subst.
        assert (List.length c = List.length c') as Hl.
        { rewrite (Forall2_length _ _ _ Hc). symmetry. eapply Forall2_length. eauto. }
        destruct (app_inj_1 _ _ _ _ Hl Heq) as [<- <-]. done.
    + split; [done|]. intros (c & rest & -> & Hm & Hk). inversion Hm; subst.
      assert (stripPrefix ic (chars l) (c ++ rest) = Some rest) as Hx.
      { apply stripPrefix_spec. eauto. }
      congruence.
  - rewrite orb_true_iff, IHa, IHb. split.
    + intros [(c & rest & ? & ? & ?) | (c & rest & ? & ? & ?)];
        exists c, rest; split_and!; auto using MAltL, MAltR.
    + intros (c & rest & ? & Hm & ?). inversion Hm; subst;
        [left | right]; eauto 6.
  - rewrite IHa. split.
    + intros (c1 & rest1 & -> & Ha & Hb). apply IHb in Hb as (c2 & rest & -> & Hb & Hk).
      exists (c1 ++ c2), rest. rewrite <- app_assoc. split; [done|].
      split; [by constructor|]. by rewrite <- lastOr_app.
    + intros (c & rest & -> & Hm & Hk). inversion Hm; subst.
      exists c1, (c2 ++ rest). rewrite <- app_assoc. split; [done|]. split; [done|].
      apply IHb. exists c2, rest. rewrite lastOr_app. done.
  - rewrite orb_true_iff, IHa. split.
    + intros [(c & rest & ? & ? & ?) | Hk].
      * exists c, rest. split_and!; auto using MOptSome.
      * exists [], s. split_and!; auto using MOptNone.
    + intros (c & rest & -> & Hm & Hk). inversion Hm; subst; [left; eauto 6|right; done].
  - rewrite andb_true_iff. split.
    + intros [Hb Hk]. exists [], s. split_and!; auto using MWordB.
    + intros (c & rest & -> & Hm & Hk). inversion Hm; subst. done.
  - rewrite andb_true_iff. split.
    + intros [Hb Hk]. exists [], s. split_and!; auto using MBol.
    + intros (c & rest & -> & Hm & Hk). inversion Hm; subst. done.
  - rewrite anyStar_spec. split.
    + intros (c & rest & ? & ?). exists c, rest. split_and!; auto using MAnyStar.
    + intros (c & rest & ? & ? & ?). eauto.
Qed.

Lemma searchFrom_spec ic r s : forall prev,
  searchFrom ic r prev s = true <->
  exists pre c post, s = pre ++ c ++ post /\ Matches ic r (lastOr prev pre) c post.
Proof.
  induction s as [|a s IH]; intros prev; simpl.
  - rewrite orb_false_r, matchK_spec. split.
    + intros (c & rest & Hs & Hm & _). exists [], c, rest. done.
    + intros (pre & c & post & Hs & Hm). symmetry in Hs.
      apply app_eq_nil in Hs as [-> Hs]. exists c, post. done.
  - rewrite orb_true_iff, matchK_spec, IH. split.
    + intros [(c & rest & Hs & Hm & _) | (pre & c & post & -> & Hm)].
      * exists [], c, rest. done.
      * exists (a :: pre), c, post. by rewrite lastOr_cons.
    + intros (pre & c & post & Hs & Hm). destruct pre as [|b pre].
      * left. exists c, post. done.
      * right. simpl in Hs. injection Hs as -> ->. exists pre, c, post.
        by rewrite lastOr_cons in Hm.
Qed.

Lemma test_spec ic r s : test ic r s = true <-> Occurs ic r s.
Proof.
  unfold test, Occurs. rewrite searchFrom_spec.
  assert (forall pre : list ascii, lastOr None pre = last pre) as E.
  { intros pre. unfold lastOr. by destruct (last pre). }
  by setoid_rewrite E.
Qed.

End RegexFacts.

Module TaskInferenceFacts.
Import Text Regex RegexSem RegexFacts TaskInference TaskInferenceSpec.

Lemma Forall2_charEq_exact (c p : list ascii) :
  Forall2 (fun x y => charEq false x y = true) c p <-> c = p.
Proof.
  split.
  - induction 1 as [|x y c p Hxy _ IH]; [done|].
    simpl in Hxy. apply bool_decide_eq_true in Hxy. by subst.
  - intros ->. induction p; constructor; [|done].
    simpl. by apply bool_decide_eq_true.
Qed.

Lemma Matches_Lit_exact l prev c rest :
  Matches false (Lit l) prev c rest <-> c = chars l.
Proof.
  split.
  - inversion 1; subst. by apply Forall2_charEq_exact.
  - intros ->. constructor. by apply Forall2_charEq_exact.
Qed.

Lemma Matches_alts ic rs prev c rest :
  rs <> [] ->
  Matches ic (alts rs) prev c rest <-> exists r, r ∈ rs /\ Matches ic r prev c rest.
Proof.
  induction rs as [|r rs IH]; [done|]. intros _.
  destruct rs as [|r' rs].
  - simpl. split.
    + intros H. exists r. split; [apply list_elem_of_here|done].
    + intros (r0 & Hin & H). apply list_elem_of_singleton in Hin. by subst.
  - change (alts (r :: r' :: rs)) with (Alt r (alts (r' :: rs))). split.
    + intros Hm.
      inversion Hm as [| ? ? ? ? ? Hl | ? ? ? ? ? Hr | | | | | |]; subst.
      * exists r. split; [apply list_elem_of_here|done].
      * apply IH in Hr as (r0 & Hin & H0); [|done].
        exists r0. split; [by apply list_elem_of_further|done].
    + intros (r0 & Hin & H). apply elem_of_cons in Hin as [->|Hin].
      * by apply MAltL.
      * apply MAltR, IH; [done|]. eauto.
Qed.

Lemma Matches_bounded ic r prev c rest :
  Matches ic (Seq WordB (Seq r WordB)) prev c rest <->
  Matches ic r prev c rest /\
  boundary prev (head (c ++ rest)) = true /\
  boundary (lastOr prev c) (head rest) = true.
Proof.
  split.
  - inversion 1 as [| | |a b p c1 c2 r0 H1 H2| | | | |]; subst.
    inversion H1; subst. simpl in *.
    inversion H2 as [| | |a b p c3 c4 r0 H3 H4| | | | |]; subst.
    inversion H4; subst. rewrite app_nil_r in *. simpl in *. done.
  - intros (Hr & Hb1 & Hb2).
    assert (Matches ic (Seq r WordB) prev (c ++ []) rest) as Hinner.
    { apply MSeq; [done|]. by apply MWordB. }
    rewrite app_nil_r in Hinner.
    change c with ([] ++ c). apply MSeq; [by apply MWordB|done].
Qed.

Lemma Occurs_word (ws : list string) (s : list ascii) :
  ws <> [] ->
  Occurs false (word ws) s <-> exists k, k ∈ ws /\ WholeWord k s.
Proof.
  intros Hne. unfold Occurs, word, WholeWord. split.
  - intros (pre & c & post & -> & Hm).
    apply Matches_bounded in Hm as (Hm & Hb1 & Hb2).
    apply Matches_alts in Hm as (r & Hin & Hm); [|by destruct ws].
    apply list_elem_of_fmap in Hin as (k & -> & Hin).
    apply Matches_Lit_exact in Hm as ->. eauto 8.
  - intros (k & Hin & pre & post & -> & Hb1 & Hb2).
    exists pre, (chars k), post. split; [done|].
    apply Matches_bounded. split; [|done].
    apply Matches_alts; [by destruct ws|].
    exists (Lit k). split; [by apply list_elem_of_fmap_2|].
    by apply Matches_Lit_exact.
Qed.

Lemma Occurs_Lit (l : string) (s : list ascii) :
  Occurs false (Lit l) s <-> Contains l s.
Proof.
  unfold Occurs, Contains. split.
  - intros (pre & c & post & -> & Hm). apply Matches_Lit_exact in Hm as ->. eauto.
  - intros (pre & post & ->). exists pre, (chars l), post.
    split; [done|]. by apply Matches_Lit_exact.
Qed.

Lemma Occurs_Alt ic a b s :
  Occurs ic (Alt a b) s <-> Occurs ic a s \/ Occurs ic b s.
Proof.
  unfold Occurs. split.
  - intros (pre & c & post & -> & Hm). inversion Hm; subst; [left|right]; eauto 6.
  - intros [(pre & c & post & -> & Hm)|(pre & c & post & -> & Hm)];
      exists pre, c, post; auto using MAltL, MAltR.
Qed.

Lemma codePattern_spec s : test false codePattern s = true <-> CodeCond s.
Proof.
  rewrite test_spec. unfold codePattern, CodeCond.
  rewrite Occurs_Alt, Occurs_Lit, Occurs_word; done.
Qed.

Lemma rewritePattern_spec s : test false rewritePattern s = true <-> RewriteCond s.
Proof.
  rewrite test_spec. unfold rewritePattern, RewriteCond.
  rewrite Occurs_word; done.
Qed.

Lemma Matches_source prev c rest :
  Matches false (Seq (Lit "source") (Opt (Lit "s"))) prev c rest <->
  c = chars "source" \/ c = chars "sources".
Proof.
  split.
  - inversion 1 as [| | |a b p c1 c2 r0 H1 H2| | | | |]; subst.
    apply Matches_Lit_exact in H1 as ->.
    inversion H2 as [| | | | ? ? ? ? Hs | | | |]; subst.
    + apply Matches_Lit_exact in Hs as ->. by right.
    + left. by rewrite app_nil_r.
  - intros [-> | ->].
    + assert (Matches false (Seq (Lit "source") (Opt (Lit "s"))) prev
                (chars "source" ++ []) rest) as Hinner.
      { apply MSeq; [by apply Matches_Lit_exact|apply MOptNone]. }
      by rewrite app_nil_r in Hinner.
    + change (chars "sources") with (chars "source" ++ chars "s").
      apply MSeq; [by apply Matches_Lit_exact|].
      apply MOptSome. by apply Matches_Lit_exact.
Qed.

Lemma researchPattern_spec s :
  test false researchPattern s = true <-> ResearchCond s.
Proof.
  rewrite test_spec. unfold researchPattern, ResearchCond, Occurs, WholeWord. split.
  - intros (pre & c & post & -> & Hm).
    apply Matches_bounded in Hm as (Hm & Hb1 & Hb2).
    apply Matches_alts in Hm as (r & Hin & Hm); [|done].
    assert (exists k, k ∈ RESEARCH_WORDS /\ c = chars k) as (k & Hk & ->).
    { unfold RESEARCH_WORDS.
      repeat (apply elem_of_cons in Hin as [-> | Hin]);
        try (apply Matches_Lit_exact in Hm);
        try (apply Matches_source in Hm as [Hm | Hm]);
        try (eexists; split; [|exact Hm]; set_solver);
        try (by apply elem_of_nil in Hin). }
    eauto 8.
  - intros (k & Hin & pre & post & -> & Hb1 & Hb2).
    exists pre, (chars k), post. split; [done|].
    apply Matches_bounded. split; [|done].
    apply Matches_alts; [done|].
    unfold RESEARCH_WORDS in Hin.
    repeat (apply elem_of_cons in Hin as [-> | Hin]);
      try (eexists; split; [|by apply Matches_Lit_exact]; set_solver);
      try (eexists; split; [|apply Matches_source; eauto]; set_solver);
      try (by apply elem_of_nil in Hin).
Qed.

(** C7 (as amended). [inferTaskType] answers [Code] exactly when the
    lowercased text contains a triple-backtick fence or, as a whole word,
    one of [CODE_WORDS] (the eight keywords of the specification and
    [bun]); otherwise [Rewrite] exactly when one of [REWRITE_WORDS] occurs
    as a whole word; otherwise [Research] exactly when one of
    [RESEARCH_WORDS] occurs as a whole word ([source] also followed by an
    [s]); otherwise [Reasoning]. *)
Theorem inferTaskType_precedence (text : string) :
  let s := toLowerCase (chars text) in
  (inferTaskType text = Code <-> CodeCond s) /\
  (inferTaskType text = Rewrite <-> ~ CodeCond s /\ RewriteCond s) /\
  (inferTaskType text = Research <->
     ~ CodeCond s /\ ~ RewriteCond s /\ ResearchCond s) /\
  (inferTaskType text = Reasoning <->
     ~ CodeCond s /\ ~ RewriteCond s /\ ~ ResearchCond s).
Proof.
  intros s. unfold inferTaskType. fold s.
  assert (if test false codePattern s then CodeCond s else ~ CodeCond s) as Hc.
  { destruct (test false codePattern s) eqn:E.
    - by apply codePattern_spec.
    - intros H. apply codePattern_spec in H. congruence. }
  assert (if test false rewritePattern s then RewriteCond s else ~ RewriteCond s) as Hr.
  { destruct (test false rewritePattern s) eqn:E.
    - by apply rewritePattern_spec.
    - intros H. apply rewritePattern_spec in H. congruence. }
  assert (if test false researchPattern s then ResearchCond s else ~ ResearchCond s)
    as Hs.
  { destruct (test false researchPattern s) eqn:E.
    - by apply researchPattern_spec.
    - intros H. apply researchPattern_spec in H. congruence. }
  destruct (test false codePattern s), (test false rewritePattern s),
    (test false researchPattern s);
    split_and!; split; intros; try discriminate; tauto.
Qed.

Lemma specCodePattern_spec s :
  test false (Alt (Lit "```") (word SPEC_CODE_WORDS)) s = true <-> SpecCodeCond s.
Proof.
  rewrite test_spec. unfold SpecCodeCond.
  rewrite Occurs_Alt, Occurs_Lit, Occurs_word; done.
Qed.

(** C7, counterexample. The prompt [bun] contains no fence and none of the
    eight keywords the specification lists, also not as a substring, and
    yet [inferTaskType] answers [Code]: the code side of the
    classification is not decided by the listed keywords alone. *)
Lemma bun_is_code_but_not_listed :
  inferTaskType "bun" = Code
  /\ inferTaskTypeSpec "bun" = Reasoning
  /\ forallb (fun k => negb (includes (chars "bun") (chars k))) SPEC_CODE_WORDS = true
  /\ ~ CodeExactlyOnListedKeywords.
Proof.
  split; [by vm_compute|]. split; [by vm_compute|]. split; [by vm_compute|].
  intros Hclaim.
  assert (inferTaskType "bun" = Code) as Hcode by (by vm_compute).
  apply Hclaim, specCodePattern_spec in Hcode.
  vm_compute in Hcode. discriminate.
Qed.

End TaskInferenceFacts.

Module HeuristicsFacts.
Import Text Regex Heuristics HeuristicsSpec.


End HeuristicsFacts.

Module ContextFitFacts.
Import ContextFit ContextFitSpec.

Lemma ceilDiv4_is_ceiling (a : Z) :
  (4 * (ceilDiv4 a - 1) < a <= 4 * ceilDiv4 a)%Z.
Proof.
  unfold ceilDiv4.
  pose proof (Z.div_mod (- a) 4 ltac:(lia)).
  pose proof (Z.mod_pos_bound (- a) 4 ltac:(lia)). lia.
Qed.

Lemma ceilDiv4_mono (a b : Z) : (a <= b)%Z -> (ceilDiv4 a <= ceilDiv4 b)%Z.
Proof.
  intros H. pose proof (ceilDiv4_is_ceiling a). pose proof (ceilDiv4_is_ceiling b). lia.
Qed.

Lemma foldl_sumLengths (msgs : list Message) (acc : Z) :
  foldl (fun sum msg => (sum + contentLength msg)%Z) acc msgs
  = (acc + sumLengths msgs)%Z.
Proof.
  revert acc. induction msgs as [|m msgs IH]; intros acc; simpl; [lia|].
  rewrite IH. lia.
Qed.

Lemma contentLength_nonneg m : (0 <= contentLength m)%Z.
Proof. unfold contentLength. lia. Qed.

Lemma sumLengths_nonneg msgs : (0 <= sumLengths msgs)%Z.
Proof.
  induction msgs as [|m msgs IH]; simpl; [lia|].
  pose proof (contentLength_nonneg m). lia.
Qed.

Lemma dropNonSystem_nil k : dropNonSystem k [] = [].
Proof. done. Qed.

Lemma dropNonSystem_0 msgs : dropNonSystem 0 msgs = msgs.
Proof. by destruct msgs. Qed.

Lemma findIndex_None_drop msgs :
  findIndex nonSystem msgs = None -> forall k, dropNonSystem k msgs = msgs.
Proof.
  induction msgs as [|m msgs IH]; intros H k; [apply dropNonSystem_nil|].
  simpl in H. destruct (nonSystem m) eqn:Hm; [done|].
  destruct (findIndex nonSystem msgs); [done|].
  destruct k; [by rewrite dropNonSystem_0|]. simpl. rewrite Hm. by rewrite IH.
Qed.

Lemma findIndex_Some_drop msgs i :
  findIndex nonSystem msgs = Some i ->
  delete i msgs = dropNonSystem 1 msgs /\
  exists m, msgs !! i = Some m /\
    sumLengths (delete i msgs) = (sumLengths msgs - contentLength m)%Z /\
    List.length msgs = S (List.length (delete i msgs)).
Proof.
  revert i. induction msgs as [|m msgs IH]; intros i H; [done|].
  simpl in H. destruct (nonSystem m) eqn:Hm.
  - injection H as <-. simpl. rewrite Hm, dropNonSystem_0. split; [done|].
    exists m. split; [done|]. split; [lia|done].
  - destruct (findIndex nonSystem msgs) as [j|]; [|done].
    simpl in H. injection H as <-.
    destruct (IH j eq_refl) as (Hd & m' & Hl & Hs & Hlen).
    simpl. rewrite Hm. split; [by rewrite Hd|].
    exists m'. split; [done|]. split; [rewrite Hs; lia|by rewrite Hlen].
Qed.

Lemma dropNonSystem_S k msgs :
  dropNonSystem (S k) msgs = dropNonSystem k (dropNonSystem 1 msgs).
Proof.
  revert k. induction msgs as [|m msgs IH]; intros k; [done|].
  simpl. destruct (nonSystem m) eqn:Hm.
  - by rewrite dropNonSystem_0.
  - destruct k; [by rewrite !dropNonSystem_0|]. simpl. rewrite Hm. f_equal.
    rewrite IH. done.
Qed.

Lemma dropNonSystem_all msgs :
  dropNonSystem (List.length msgs) msgs = systemOnly msgs.
Proof.
  assert (forall k, List.length msgs <= k -> dropNonSystem k msgs = systemOnly msgs) as H.
  { induction msgs as [|m msgs IH]; intros k Hk; [apply dropNonSystem_nil|].
    simpl in Hk. destruct k; [lia|]. simpl. destruct (nonSystem m); simpl.
    - apply IH. lia.
    - f_equal. apply IH. lia. }
  by apply H.
Qed.

Lemma systemOnly_drop k msgs : systemOnly (dropNonSystem k msgs) = systemOnly msgs.
Proof.
  revert k. induction msgs as [|m msgs IH]; intros k; [by rewrite dropNonSystem_nil|].
  destruct k; [by rewrite dropNonSystem_0|]. simpl. destruct (nonSystem m) eqn:Hm; simpl.
  - apply IH.
  - rewrite Hm. simpl. f_equal. apply IH.
Qed.

Lemma totalChars_systemOnly msgs : (totalChars (systemOnly msgs) <= totalChars msgs)%Z.
Proof.
  assert ((sumLengths (systemOnly msgs) <= sumLengths msgs)%Z
          /\ List.length (systemOnly msgs) <= List.length msgs) as [H1 H2].
  { induction msgs as [|m msgs [IH1 IH2]]; simpl; [lia|].
    pose proof (contentLength_nonneg m).
    destruct (nonSystem m); simpl; lia. }
  unfold totalChars. lia.
Qed.

Lemma estimated_systemOnly_le k msgs maxOut :
  (estimatedTokens (systemOnly msgs) maxOut
   <= estimatedTokens (dropNonSystem k msgs) maxOut)%Z.
Proof.
  unfold estimatedTokens. rewrite <- (systemOnly_drop k msgs).
  pose proof (ceilDiv4_mono _ _ (totalChars_systemOnly (dropNonSystem k msgs))). lia.
Qed.

(** The running [totalLength] of the loop is the character count of the
    messages still held. *)
Lemma fitLoop_spec ctx maxOut trimmed total count :
  total = totalChars trimmed ->
  match fitLoop ctx maxOut trimmed total count with
  | Some f =>
      exists k, fittedMessages f = dropNonSystem k trimmed /\
        trimmedCount f = (count + Z.of_nat k)%Z /\
        (estimatedTokens (dropNonSystem k trimmed) maxOut <= ctx)%Z /\
        forall j, j < k -> (ctx < estimatedTokens (dropNonSystem j trimmed) maxOut)%Z
  | None => forall j, (ctx < estimatedTokens (dropNonSystem j trimmed) maxOut)%Z
  end.
Proof.
  funelim (fitLoop ctx maxOut trimmed total count); intros Htotal.
  - exists 0. simpl. rewrite dropNonSystem_0. subst totalLength.
    split; [done|]. split; [lia|]. split; [unfold estimatedTokens; lia|]. lia.
  - destruct (findIndex_Some_drop _ _ Hfind) as (Hd & m & Hl & Hs & Hlen).
    rewrite Hl in *. simpl in *.
    match type of H with
    | ?A -> _ => assert A as HA
    end.
    { subst totalLength. unfold totalChars. rewrite Hs, Hlen.
      destruct (List.length (delete removableIndex trimmed)); simpl; lia. }
    specialize (H HA). clear HA Heqcall.
    destruct (fitLoop _ _ _ _ _) as [f|].
    + destruct H as (k & Hf & Hc & Hle & Hlt).
      exists (S k). rewrite dropNonSystem_S, <- Hd.
      split; [done|]. split; [lia|]. split; [done|].
      intros [|j] Hj.
      * rewrite dropNonSystem_0. subst totalLength. unfold estimatedTokens. lia.
      * rewrite dropNonSystem_S, <- Hd. apply Hlt. lia.
    + intros [|j].
      * rewrite dropNonSystem_0. subst totalLength. unfold estimatedTokens. lia.
      * rewrite dropNonSystem_S, <- Hd. apply H.
  - intros j. rewrite (findIndex_None_drop _ e). subst totalLength.
    unfold estimatedTokens. lia.
Qed.

End ContextFitFacts.

Module RouterFacts.
Import Text Heuristics Scoring Evaluator ContextFit ContextFitSpec ContextFitFacts Router RouterSpec.

#[global] Instance Blind_candidate : Blind isCandidateCall.
Proof. intros [[]| | | | | | | | | |[]]; simpl; done. Qed.
#[global] Instance Blind_judge : Blind isJudgeCall.
Proof. intros [[]| | | | | | | | | |[]]; simpl; done. Qed.
#[global] Instance Blind_unfit : Blind isUnfitLog.
Proof. intros [[]| | | | | | | | | |[]]; simpl; done. Qed.
#[global] Instance Blind_adapter : Blind isAdapterCall.
Proof. intros [[]| | | | | | | | | |[]]; simpl; done. Qed.

Section Counting.
Context (p : Call -> bool).

Lemma countCalls_emit c w : countCalls p (emit c w) = b2n (p c) + countCalls p w.
Proof. unfold countCalls. simpl. by destruct (p c). Qed.

Lemma countCalls_advance ms w : countCalls p (advance ms w) = countCalls p w.
Proof. done. Qed.

Lemma countCalls_setHealth h w : countCalls p (setHealth h w) = countCalls p w.
Proof. done. Qed.

Lemma countCalls_setBudgets b w : countCalls p (setBudgets b w) = countCalls p w.
Proof. done. Qed.

Lemma countCalls_setSessions s w : countCalls p (setSessions s w) = countCalls p w.
Proof. done. Qed.

Context `{!Blind p}.

Lemma countCalls_quiet c w :
  observed c = false -> countCalls p (emit c w) = countCalls p w.
Proof. intros H. rewrite countCalls_emit, (blind c H). done. Qed.

Lemma countCalls_health_recordResult m ok l w :
  countCalls p (HealthStore.recordResult m ok l w) = countCalls p w.
Proof.
  unfold HealthStore.recordResult. cbv zeta.
  by rewrite countCalls_setHealth, countCalls_quiet.
Qed.

Lemma countCalls_markDegraded m ms w :
  countCalls p (HealthStore.markDegraded m ms w) = countCalls p w.
Proof.
  unfold HealthStore.markDegraded. cbv zeta.
  by rewrite countCalls_setHealth, countCalls_quiet.
Qed.

Lemma countCalls_markRateLimited m ms info w :
  countCalls p (HealthStore.markRateLimited m ms info w) = countCalls p w.
Proof.
  unfold HealthStore.markRateLimited. cbv zeta.
  by rewrite countCalls_setHealth, countCalls_quiet.
Qed.

Lemma countCalls_budget_record pr t w :
  countCalls p (BudgetStore.record pr t w) = countCalls p w.
Proof.
  unfold BudgetStore.record. cbv zeta.
  by rewrite countCalls_setBudgets, countCalls_quiet.
Qed.

Lemma countCalls_recordAttempt r t a w :
  countCalls p (SessionStore.recordAttempt r t a w) = countCalls p w.
Proof.
  unfold SessionStore.recordAttempt. destruct (sessions w); [|done]. cbv zeta.
  by rewrite countCalls_setSessions, countCalls_quiet.
Qed.

Lemma countCalls_session_recordResult r t m x w :
  countCalls p (SessionStore.recordResult r t m x w) = countCalls p w.
Proof.
  unfold SessionStore.recordResult. destruct (sessions w); [|done]. cbv zeta.
  by rewrite countCalls_setSessions, countCalls_quiet.
Qed.

Lemma countCalls_runCodeEvaluation env cfg w :
  countCalls p (snd (runCodeEvaluation env cfg w)) = countCalls p w.
Proof.
  unfold runCodeEvaluation. case_bool_decide; [done|].
  destruct (spawn env _ _) as [d e]. simpl.
  by rewrite countCalls_advance, countCalls_quiet.
Qed.

Lemma countCalls_evaluate env t req cfg opts w :
  countCalls p (snd (evaluate env t req cfg opts w)) = countCalls p w.
Proof.
  unfold evaluate. destruct cfg as [cfg|]; [|done].
  destruct (bool_decide (taskType req = Code) && ce_enabled cfg); [|done].
  pose proof (countCalls_runCodeEvaluation env cfg w) as H.
  destruct (runCodeEvaluation env cfg w) as [passed w']. done.
Qed.

Lemma countCalls_finalizeResult req deps model response log w :
  countCalls p (snd (finalizeResult req deps model response log w)) = countCalls p w.
Proof.
  unfold finalizeResult. cbv zeta.
  set (w1 := if (0 <? _)%Z then _ else w).
  assert (countCalls p w1 = countCalls p w) as <-.
  { subst w1. destruct (0 <? _)%Z; [apply countCalls_budget_record|done]. }
  clearbody w1.
  destruct (stream req && negb (hasItems (toolCalls response))); simpl.
  - by rewrite countCalls_quiet, countCalls_session_recordResult.
  - rewrite countCalls_quiet, countCalls_session_recordResult by done.
    destruct (stream req && hasItems (toolCalls response)); [|done].
    by rewrite countCalls_quiet.
Qed.

End Counting.

Ltac side := first [ by apply _ | done ].

(** ** The clock never runs backwards *)

Lemma now_health_recordResult m ok l w :
  now (HealthStore.recordResult m ok l w) = now w.
Proof. done. Qed.

Lemma now_markDegraded m ms w : now (HealthStore.markDegraded m ms w) = now w.
Proof. done. Qed.

Lemma now_markRateLimited m ms info w :
  now (HealthStore.markRateLimited m ms info w) = now w.
Proof. done. Qed.

Lemma now_budget_record pr t w : now (BudgetStore.record pr t w) = now w.
Proof. done. Qed.

Lemma now_recordAttempt r t a w : now (SessionStore.recordAttempt r t a w) = now w.
Proof. unfold SessionStore.recordAttempt. by destruct (sessions w). Qed.

Lemma now_session_recordResult r t m x w :
  now (SessionStore.recordResult r t m x w) = now w.
Proof. unfold SessionStore.recordResult. by destruct (sessions w). Qed.

Lemma now_evaluate env t req cfg opts w :
  (now w <= now (snd (evaluate env t req cfg opts w)))%Z.
Proof.
  unfold evaluate. destruct cfg as [cfg|]; [|done].
  destruct (bool_decide (taskType req = Code) && ce_enabled cfg); [|done].
  unfold runCodeEvaluation. case_bool_decide; [done|].
  destruct (spawn env _ _) as [d e]. simpl. lia.
Qed.

Lemma now_finalizeResult req deps model response log w :
  now (snd (finalizeResult req deps model response log w)) = now w.
Proof.
  unfold finalizeResult. cbv zeta.
  set (w1 := if (0 <? _)%Z then _ else w).
  assert (now w1 = now w) as <-.
  { subst w1. by destruct (0 <? _)%Z. }
  clearbody w1.
  destruct (stream req && negb (hasItems (toolCalls response))); simpl.
  - apply now_session_recordResult.
  - rewrite now_session_recordResult.
    by destruct (stream req && hasItems (toolCalls response)).
Qed.

Lemma now_callGenerate env site model req w :
  (now w <= now (snd (callGenerate env site model req w)))%Z.
Proof. unfold callGenerate. simpl. lia. Qed.

Lemma now_callStream env model req w :
  (now w <= now (snd (callStream env model req w)))%Z.
Proof. unfold callStream. simpl. lia. Qed.

Lemma now_maybeJudgeScore env deps t req model s thr w :
  (now w <= now (snd (maybeJudgeScore env deps t req model s thr w)))%Z.
Proof.
  unfold maybeJudgeScore.
  repeat (case_match; simpl; try lia).
Qed.

Lemma judgeCalls_maybeJudgeScore env deps t req model s thr w :
  judgeCalls w <= judgeCalls (snd (maybeJudgeScore env deps t req model s thr w)).
Proof.
  unfold maybeJudgeScore, judgeCalls.
  repeat (case_match; simpl; try done);
    rewrite ?countCalls_quiet by side;
    rewrite countCalls_advance, countCalls_emit; simpl; lia.
Qed.

Lemma countCalls_maybeJudgeScore p `{!Blind p} env deps t req model s thr w :
  p (AdapterGenerate ForJudge EmptyString []) = false ->
  (forall m msgs, p (AdapterGenerate ForJudge m msgs)
                  = p (AdapterGenerate ForJudge EmptyString [])) ->
  countCalls p (snd (maybeJudgeScore env deps t req model s thr w)) = countCalls p w.
Proof.
  intros Hj Hall. unfold maybeJudgeScore.
  repeat (case_match; simpl; try done);
    rewrite ?countCalls_quiet by done;
    rewrite countCalls_advance, countCalls_emit, Hall, Hj; done.
Qed.

Ltac settle_counts :=
  cbv beta delta [candidateCalls unfitSkips judgeCalls adapterCalls];
  repeat progress
    (rewrite ?countCalls_quiet, ?countCalls_recordAttempt,
       ?countCalls_session_recordResult, ?countCalls_health_recordResult,
       ?countCalls_markRateLimited, ?countCalls_markDegraded,
       ?countCalls_budget_record, ?countCalls_finalizeResult,
       ?countCalls_evaluate by side).

Lemma handleError_effect req model start err log w :
  exists a,
    AttemptEffect model log w (handleError req model start err log w) a 0 0
    /\ isReturn (handleError req model start err log w) = false
    /\ adapterCalls (stepWorld (handleError req model start err log w))
       = adapterCalls w.
Proof.
  unfold handleError.
  destruct err as [e|msg]; [destruct (errType e)|]; cbv zeta;
    (eexists; split; [split|split]; simpl;
     [reflexivity | reflexivity | done | idtac | idtac | idtac | idtac
     | reflexivity | idtac ]);
    rewrite ?now_recordAttempt;
    try (case_bool_decide); settle_counts;
    try done; try lia.
Qed.

Lemma accept_effect req deps model response ok latency sc log w :
  exists r w',
    accept req deps model response ok latency sc log w
    = Return r (log ++ [attemptOf model success (Some sc)]) w'
    /\ now w' = now w
    /\ forall p, Blind p -> countCalls p w' = countCalls p w.
Proof.
  unfold accept, pushAndRecord.
  destruct (finalizeResult _ _ _ _ _ _) as [r w'] eqn:Hf.
  exists r, w'. split; [done|].
  assert (w' = snd (finalizeResult req deps model response
                      (log ++ [attemptOf model success (Some sc)])
                      (SessionStore.recordAttempt (requestId req) (taskType req)
                         (attemptOf model success (Some sc))
                         (HealthStore.recordResult (id model) ok (Some latency) w))))
    as -> by (by rewrite Hf).
  split.
  - by rewrite now_finalizeResult, now_recordAttempt.
  - intros p Hp. by settle_counts.
Qed.

Lemma evalFail_effect req model latency sc w :
  let w1 := HealthStore.recordResult (id model) false (Some latency) w in
  let w2 := SessionStore.recordAttempt (requestId req) (taskType req)
              (attemptOf model eval_fail (Some sc)) w1 in
  let w3 := HealthStore.markDegraded (id model) 30000
              (emit (Log router_eval_fail (id model)) w2) in
  now w3 = now w /\ forall p, Blind p -> countCalls p w3 = countCalls p w.
Proof.
  simpl. split.
  - by rewrite now_recordAttempt.
  - intros p Hp. by settle_counts.
Qed.

Lemma attempt_effect env deps req thr model log w :
  exists a dc du,
    AttemptEffect model log w (attempt env deps req thr model log w) a dc du
    /\ match fitMessagesToContext (messages req) (context model)
               (default 0%Z (maxTokens req)) with
       | None =>
           dc = 0 /\ du = 1 /\ outcome a = permanent
           /\ adapterCalls (stepWorld (attempt env deps req thr model log w))
              = adapterCalls w
       | Some _ => dc = 1 /\ du = 0
       end.
Proof.
  unfold attempt. cbv zeta.
  destruct (fitMessagesToContext _ _ _) as [fitted|].
  2: { unfold pushAndRecord.
       exists (attemptOf model permanent None), 0, 1.
       split; [split|]; simpl; rewrite ?now_recordAttempt; settle_counts;
         rewrite ?countCalls_emit; settle_counts; simpl; try done; lia. }
  set (w0 := if (0 <? trimmedCount fitted)%Z then _ else w).
  assert (now w0 = now w /\ forall p, Blind p -> countCalls p w0 = countCalls p w)
    as [Hn0 Hc0].
  { subst w0. destruct (0 <? trimmedCount fitted)%Z; [|done].
    split; [done|]. intros p Hp. by settle_counts. }
  clearbody w0.
  destruct (stream req && allowDegrade req).
  - unfold callStream. simpl.
    destruct (answer (openStream env _ _ _)) as [providerStream|err].
    + unfold pushAndRecord.
      exists (attemptOf model success None), 1, 0.
      split; [split|done]; simpl; rewrite ?now_recordAttempt; settle_counts;
        rewrite ?countCalls_advance, ?countCalls_emit, ?Hc0 by side;
        simpl; try done; lia.
    + match goal with
      | |- context [handleError ?r ?m ?st ?e ?l ?w1] =>
          destruct (handleError_effect r m st e l w1) as (a & [] & Hret & _);
          set (w1' := w1) in *
      end.
      exists a, 1, 0. split; [split|done]; try done.
      * etransitivity; [|eassumption]. subst w1'. simpl. lia.
      * rewrite eff_candidate0. subst w1'. unfold candidateCalls.
        rewrite countCalls_advance, countCalls_emit, Hc0 by side. done.
      * rewrite eff_unfit0. subst w1'. unfold unfitSkips.
        rewrite countCalls_advance, countCalls_emit, Hc0 by side. done.
      * etransitivity; [|eassumption]. subst w1'. unfold judgeCalls.
        rewrite countCalls_advance, countCalls_emit, Hc0 by side. simpl. lia.
  - unfold callGenerate. simpl.
    set (w1 := advance _ (emit _ w0)).
    assert ((now w <= now w1)%Z
            /\ candidateCalls w1 = 1 + candidateCalls w
            /\ unfitSkips w1 = unfitSkips w
            /\ judgeCalls w1 = judgeCalls w) as (Hn1 & Hcc1 & Hu1 & Hj1).
    { subst w1. unfold candidateCalls, unfitSkips, judgeCalls.
      rewrite !countCalls_advance, !countCalls_emit, !Hc0 by side.
      simpl. split; [lia|done]. }
    clearbody w1.
    destruct (answer (generate env _ _ _)) as [response|err].
    2: { destruct (handleError_effect req model (now w) err log w1)
           as (a & [] & Hret & _).
         exists a, 1, 0. split; [split|done]; try done; try lia. }
    destruct (evaluate env (text response) req _ _ w1) as [sc w2] eqn:He.
    assert ((now w1 <= now w2)%Z
            /\ forall p, Blind p -> countCalls p w2 = countCalls p w1) as [Hn2 Hc2].
    { replace w2 with (snd (evaluate env (text response) req
                              (codeEvaluation (policies deps))
                              (Some {| hasToolCalls := Some (hasItems (toolCalls response)) |})
                              w1)) by (by rewrite He).
      split; [apply now_evaluate|]. intros p Hp. by settle_counts. }
    clear He.
    assert (forall wx ok lat sc',
      (now w <= now wx)%Z -> candidateCalls wx = 1 + candidateCalls w ->
      unfitSkips wx = unfitSkips w -> judgeCalls w <= judgeCalls wx ->
      exists a,
        AttemptEffect model log w
          (accept req deps model response ok lat sc' log wx) a 1 0)
      as Haccept.
    { intros wx ok lat sc' Hnx Hcx Hux Hjx.
      destruct (accept_effect req deps model response ok lat sc' log wx)
        as (r & w' & -> & Hn & Hc).
      eexists. split; simpl; try done.
      - lia.
      - unfold candidateCalls in *. rewrite Hc by side. done.
      - unfold unfitSkips in *. rewrite Hc by side. done.
      - unfold judgeCalls in *. rewrite Hc by side. lia. }
    assert (candidateCalls w2 = 1 + candidateCalls w
            /\ unfitSkips w2 = unfitSkips w
            /\ judgeCalls w2 = judgeCalls w) as (Hcc2 & Hu2 & Hj2).
    { unfold candidateCalls, unfitSkips, judgeCalls in *.
      rewrite !Hc2 by side. done. }
    destruct (allowDegrade req).
    { edestruct (Haccept w2 (Qle_bool thr sc)) as (a & Ha); [lia|done|done|lia|].
      by exists a, 1, 0. }
    destruct (Qle_bool thr sc).
    { edestruct (Haccept w2 true) as (a & Ha); [lia|done|done|lia|].
      by exists a, 1, 0. }
    destruct (maybeJudgeScore env deps (text response) req model sc thr w2)
      as [judged w3] eqn:Hj.
    assert ((now w2 <= now w3)%Z
            /\ candidateCalls w3 = candidateCalls w2
            /\ unfitSkips w3 = unfitSkips w2
            /\ judgeCalls w2 <= judgeCalls w3) as (Hn3 & Hcc3 & Hu3 & Hj3).
    { replace w3 with (snd (maybeJudgeScore env deps (text response) req model sc thr w2))
        by (by rewrite Hj).
      split; [apply now_maybeJudgeScore|].
      split; [by apply (countCalls_maybeJudgeScore isCandidateCall)|].
      split; [by apply (countCalls_maybeJudgeScore isUnfitLog)|].
      apply judgeCalls_maybeJudgeScore. }
    clear Hj.
    assert (forall lat, exists a,
      AttemptEffect model log w
        (Continue (log ++ [attemptOf model eval_fail (Some sc)])
           (HealthStore.markDegraded (id model) 30000
              (emit (Log router_eval_fail (id model))
                 (SessionStore.recordAttempt (requestId req) (taskType req)
                    (attemptOf model eval_fail (Some sc))
                    (HealthStore.recordResult (id model) false (Some lat) w3)))))
        a 1 0) as Hfail.
    { intros lat.
      destruct (evalFail_effect req model lat sc w3) as [Hn Hc].
      simpl in Hn, Hc.
      eexists. split; simpl; try done.
      - rewrite now_recordAttempt. simpl. lia.
      - unfold candidateCalls in *. rewrite Hc by side. lia.
      - unfold unfitSkips in *. rewrite Hc by side. lia.
      - unfold judgeCalls in *. rewrite Hc by side. lia. }
    destruct judged as [judgedScore|].
    + destruct (Qle_bool thr judgedScore).
      * edestruct (Haccept w3 true) as (a & Ha); [lia|lia|lia|lia|].
        by exists a, 1, 0.
      * edestruct Hfail as (a & Ha). exists a, 1, 0. split; [exact Ha|done].
    + edestruct Hfail as (a & Ha). exists a, 1, 0. split; [exact Ha|done].
Qed.

Lemma tryCandidates_effect env deps req thr budget w0 ordered :
  forall attempts log w,
    Accounted w0 log w -> noSuccess log ->
    let s := tryCandidates env deps req thr budget attempts ordered log w in
    Accounted w0 (stepLog s) (stepWorld s) /\
    (now w <= now (stepWorld s))%Z /\
    if isReturn s then endsInSuccess (stepLog s) else noSuccess (stepLog s).
Proof.
  induction ordered as [|model rest IH]; intros attempts log w Hacc Hns; simpl.
  - split; [done|]. split; [lia|done].
  - destruct (budget <=? attempts)%Z; simpl.
    { split; [done|]. split; [lia|done]. }
    destruct (attempt_effect env deps req thr model log w)
      as (a & dc & du & [Hlog Hmodel Hret Hnow Hcc Hu Hj] & Hfit).
    assert (dc + du = 1) as Hsum.
    { destruct (fitMessagesToContext _ _ _); lia. }
    destruct Hacc as [Hn0 Hlen].
    destruct (attempt env deps req thr model log w) as [log' w'|r log' w'];
      simpl in *; subst log'.
    + assert (outcome a <> success) as Hna.
      { intros Hs. apply Hret in Hs. done. }
      specialize (IH (attempts + 1)%Z (log ++ [a]) w').
      destruct IH as (Hacc' & Hnow' & Hend).
      * split; [lia|]. rewrite length_app. simpl. lia.
      * apply Forall_app. split; [done|]. by constructor.
      * split; [done|]. split; [lia|done].
    + split; [|split; [done|]].
      * split; [lia|]. rewrite length_app. simpl. lia.
      * exists a. split; [by rewrite last_snoc|]. by apply Hret.
Qed.



Lemma elapsedBelow_false start maxWait w :
  elapsedBelow start maxWait w = false ->
  (maxWait <= inject_Z (now w - start))%Q.
Proof.
  unfold elapsedBelow, Qltb. rewrite negb_false_iff. apply Qle_bool_iff.
Qed.

Lemma now_sleep ms w : now (sleep ms w) = (now w + Z.max 0 ms)%Z.
Proof. done. Qed.

Lemma countCalls_sleep p `{!Blind p} ms w : countCalls p (sleep ms w) = countCalls p w.
Proof. unfold sleep. by rewrite countCalls_advance, countCalls_quiet. Qed.

Lemma routeLoop_effect env deps req policy maxWait budget thr pref start w0 :
  forall fuel log w c log' w',
    routeLoop fuel env deps req policy maxWait budget thr pref start log w
    = Some (c, log', w') ->
    Accounted w0 log w -> noSuccess log ->
    Accounted w0 log' w' /\ Settled maxWait start c log' w'.
Proof.
  induction fuel as [|fuel IH]; intros log w c log' w' Hrun Hacc Hns; [done|].
  simpl in Hrun.
  destruct (elapsedBelow start maxWait w) eqn:Hbelow.
  2: { injection Hrun as <- <- <-. split; [done|]. simpl.
       split; [done|]. split; [done|]. by apply elapsedBelow_false. }
  pose proof (tryCandidates_effect env deps req thr budget w0
                (orderedCandidates deps req policy pref w) 0%Z log w Hacc Hns)
    as (Hacc1 & Hnow1 & Hend).
  cbv zeta in *.
  destruct (tryCandidates _ _ _ _ _ _ _ _ _) as [log1 w1|r log1 w1]; simpl in *.
  - destruct (elapsedBelow start maxWait w1) eqn:Hbelow1; simpl in Hrun.
    + eapply IH; [exact Hrun| |done].
      destruct Hacc1 as [Hn Hl]. split.
      * rewrite now_sleep. lia.
      * unfold candidateCalls, unfitSkips in *.
        rewrite !countCalls_sleep by side. done.
    + injection Hrun as <- <- <-. split; [done|]. simpl.
      split; [done|]. split; [done|]. by apply elapsedBelow_false.
  - injection Hrun as <- <- <-. done.
Qed.


Lemma health_recordAttempt r t a w : health (SessionStore.recordAttempt r t a w) = health w.
Proof. unfold SessionStore.recordAttempt. by destruct (sessions w). Qed.

Lemma health_session_recordResult r t m x w :
  health (SessionStore.recordResult r t m x w) = health w.
Proof. unfold SessionStore.recordResult. by destruct (sessions w). Qed.

Lemma health_evaluate env t req cfg opts w :
  health (snd (evaluate env t req cfg opts w)) = health w.
Proof.
  unfold evaluate. destruct cfg as [cfg|]; [|done].
  destruct (bool_decide (taskType req = Code) && ce_enabled cfg); [|done].
  unfold runCodeEvaluation. case_bool_decide; [done|].
  by destruct (spawn env _ _).
Qed.

Lemma health_finalizeResult req deps model response log w :
  health (snd (finalizeResult req deps model response log w)) = health w.
Proof.
  unfold finalizeResult. cbv zeta.
  set (w1 := if (0 <? _)%Z then _ else w).
  assert (health w1 = health w) as <-.
  { subst w1. by destruct (0 <? _)%Z. }
  clearbody w1.
  destruct (stream req && negb (hasItems (toolCalls response))); simpl.
  - apply health_session_recordResult.
  - rewrite health_session_recordResult.
    by destruct (stream req && hasItems (toolCalls response)).
Qed.

Lemma get_recordAttempt m r t a w :
  HealthStore.get m (SessionStore.recordAttempt r t a w) = HealthStore.get m w.
Proof. unfold HealthStore.get. by rewrite health_recordAttempt. Qed.

Lemma get_health_recordResult m ok l w :
  HealthStore.get m (HealthStore.recordResult m ok l w)
  = let existing := HealthStore.get m w in
    {| cooldownUntil := cooldownUntil existing;
       degradedUntil := degradedUntil existing;
       rateLimitStrikes := rateLimitStrikes existing;
       lastRateLimitAt := lastRateLimitAt existing;
       rollingLatencyMs :=
         (rollingLatencyMs existing * (1 - HealthStore.EMA_ALPHA)
          + match l with
            | Some x => inject_Z x
            | None => rollingLatencyMs existing
            end * HealthStore.EMA_ALPHA)%Q;
       rollingSuccessRate :=
         (rollingSuccessRate existing * (1 - HealthStore.EMA_ALPHA)
          + (if ok then 1 else 0) * HealthStore.EMA_ALPHA)%Q |}.
Proof.
  unfold HealthStore.get at 1. unfold HealthStore.recordResult. simpl.
  by rewrite lookup_insert_eq.
Qed.

Lemma get_markRateLimited m cooldownMs strikes last w :
  HealthStore.get m
    (HealthStore.markRateLimited m cooldownMs
       (Some {| HealthStore.info_strikes := Some strikes;
                HealthStore.info_lastRateLimitAt := Some last |}) w)
  = let existing := HealthStore.get m w in
    {| cooldownUntil := (now w + cooldownMs)%Z;
       degradedUntil := degradedUntil existing;
       rateLimitStrikes := strikes;
       lastRateLimitAt := last;
       rollingLatencyMs := rollingLatencyMs existing;
       rollingSuccessRate := rollingSuccessRate existing |}.
Proof.
  unfold HealthStore.get at 1. unfold HealthStore.markRateLimited. simpl.
  by rewrite lookup_insert_eq.
Qed.

(** C2. When the adapter error caught for a model is a [RATE_LIMIT], the
    router takes the error's [retryAfterMs] as cooldown when it carries one
    and [min (2000 * 2^(strikes-1)) 60000] otherwise, where [strikes] is
    the stored strike count plus one when the last rate limit is at most
    60000 ms old and [1] otherwise; it hands exactly these values to
    [HealthStore.markRateLimited], after which the stored record holds the
    cooldown end, the strikes and the current time. *)
Theorem rate_limit_cooldown_persisted (req : RouterRequest) (model : CandidateModel)
    (attemptStart : Z) (e : AdapterError) (log : list RoutingAttempt) (w : World) :
  errType e = RATE_LIMIT ->
  let strikes := strikesAfter (HealthStore.get (id model) w) (now w) in
  let cooldown := cooldownFor e strikes in
  exists w',
    handleError req model attemptStart (ThrowAdapter e) log w
    = Continue (log ++ [attemptOf model rate_limit None]) w'
    /\ (exists later,
          calls w' = later ++ HealthMarkRateLimited (id model) cooldown strikes (now w)
                              :: calls w)
    /\ cooldownUntil (HealthStore.get (id model) w') = (now w + cooldown)%Z
    /\ rateLimitStrikes (HealthStore.get (id model) w') = strikes
    /\ lastRateLimitAt (HealthStore.get (id model) w') = now w.
Proof.
  intros He. unfold handleError. rewrite He. cbv zeta.
  eexists. split; [reflexivity|].
  unfold strikesAfter, cooldownFor, RATE_LIMIT_WINDOW_MS, RATE_LIMIT_BASE_MS,
    RATE_LIMIT_CAP_MS.
  split.
  - unfold SessionStore.recordAttempt. simpl.
    destruct (sessions w); simpl.
    + by eexists [_; _; _].
    + by eexists [_; _].
  - change (HealthStore.get (id model) (emit ?c ?x))
      with (HealthStore.get (id model) x).
    rewrite get_recordAttempt, get_health_recordResult, get_markRateLimited.
    done.
Qed.

(** The catch block is what an attempt runs when the adapter throws. *)
Lemma attempt_catches env deps req thr model log w fitted err :
  fitMessagesToContext (messages req) (context model) (default 0%Z (maxTokens req))
  = Some fitted ->
  stream req && allowDegrade req = false ->
  answer (generate env (adapterCalls w) model
            (withMessages req (fittedMessages fitted) (stream req))) = inr err ->
  exists w1,
    (now w <= now w1)%Z /\
    attempt env deps req thr model log w = handleError req model (now w) err log w1.
Proof.
  intros Hfit Hs Hans. unfold attempt. rewrite Hfit, Hs. cbv zeta.
  set (w0 := if (0 <? trimmedCount fitted)%Z then _ else w).
  assert (adapterCalls w0 = adapterCalls w /\ now w0 = now w) as [Ha Hn].
  { subst w0. by destruct (0 <? trimmedCount fitted)%Z. }
  unfold callGenerate. rewrite Ha, Hans.
  eexists. split; [|reflexivity]. simpl. lia.
Qed.

Lemma extends_refl w : extends w w.
Proof. by exists []. Qed.

Lemma extends_trans w1 w2 w3 : extends w1 w2 -> extends w2 w3 -> extends w1 w3.
Proof. intros [l1 H1] [l2 H2]. exists (l2 ++ l1). by rewrite H2, H1, app_assoc. Qed.

Lemma extends_emit c w : extends w (emit c w).
Proof. by exists [c]. Qed.

Lemma extends_recordAttempt r t a w : extends w (SessionStore.recordAttempt r t a w).
Proof.
  unfold SessionStore.recordAttempt. destruct (sessions w); [|apply extends_refl].
  by exists [SessionRecordAttempt r a].
Qed.

Lemma extends_session_recordResult r t m x w :
  extends w (SessionStore.recordResult r t m x w).
Proof.
  unfold SessionStore.recordResult. destruct (sessions w); [|apply extends_refl].
  by exists [SessionRecordResult r m x].
Qed.

Lemma extends_finalizeResult req deps model response log w :
  extends w (snd (finalizeResult req deps model response log w)).
Proof.
  unfold finalizeResult. cbv zeta.
  set (w1 := if (0 <? _)%Z then _ else w).
  assert (extends w w1) as H1.
  { subst w1. destruct (0 <? _)%Z; [by eexists [_]|apply extends_refl]. }
  clearbody w1. eapply extends_trans; [exact H1|].
  destruct (stream req && negb (hasItems (toolCalls response))); simpl.
  - eapply extends_trans; [apply extends_session_recordResult|apply extends_emit].
  - eapply extends_trans; [|apply extends_emit].
    eapply extends_trans; [|apply extends_session_recordResult].
    destruct (stream req && hasItems (toolCalls response));
      [apply extends_emit|apply extends_refl].
Qed.

Lemma extends_In c w w' : extends w w' -> In c (calls w) -> In c (calls w').
Proof. intros [l ->] H. apply in_or_app. by right. Qed.

Lemma get_session_recordResult m r t x y w :
  HealthStore.get m (SessionStore.recordResult r t x y w) = HealthStore.get m w.
Proof. unfold HealthStore.get. by rewrite health_session_recordResult. Qed.

Lemma get_finalizeResult m req deps model response log w :
  HealthStore.get m (snd (finalizeResult req deps model response log w))
  = HealthStore.get m w.
Proof. unfold HealthStore.get. by rewrite health_finalizeResult. Qed.

Lemma get_evaluate m env t req cfg opts w :
  HealthStore.get m (snd (evaluate env t req cfg opts w)) = HealthStore.get m w.
Proof. unfold HealthStore.get. by rewrite health_evaluate. Qed.

(** C9. A non-streaming attempt with [allowDegrade] whose [generate] call
    returns a response returns that response and logs the attempt as
    [success], while [HealthStore.recordResult] is called with
    [success := score >= threshold]; with a score below the threshold the
    rolling success rate of the model is multiplied by 0.8, so it drops
    whenever it was positive. *)
Theorem degraded_accept_records_gate_verdict (env : Env) (deps : RouterDeps)
    (req : RouterRequest) (thr : Q) (model : CandidateModel)
    (log : list RoutingAttempt) (w : World) (fitted : Fitted)
    (response : NormalizedResponse) :
  stream req = false ->
  allowDegrade req = true ->
  fitMessagesToContext (messages req) (context model) (default 0%Z (maxTokens req))
  = Some fitted ->
  answer (generate env (adapterCalls w) model
            (withMessages req (fittedMessages fitted) false)) = inl response ->
  exists sc latency w',
    let a := attemptOf model success (Some sc) in
    attempt env deps req thr model log w
    = Return (TextResult response (id model)
                (buildMetadata (log ++ [a]) (id model) (taskType req)))
             (log ++ [a]) w'
    /\ In (HealthRecordResult (id model) (Qle_bool thr sc) (Some latency)) (calls w')
    /\ (rollingSuccessRate (HealthStore.get (id model) w')
        == rollingSuccessRate (HealthStore.get (id model) w) * 0.8
           + (if Qle_bool thr sc then 0.2 else 0))%Q
    /\ (Qle_bool thr sc = false ->
        (0 < rollingSuccessRate (HealthStore.get (id model) w))%Q ->
        (rollingSuccessRate (HealthStore.get (id model) w')
         < rollingSuccessRate (HealthStore.get (id model) w))%Q).
Proof.
  intros Hs Hd Hfit Hans. unfold attempt. rewrite Hfit, Hs, Hd. cbv zeta.
  simpl andb. cbv iota.
  set (w0 := if (0 <? trimmedCount fitted)%Z then _ else w).
  assert (adapterCalls w0 = adapterCalls w /\ health w0 = health w) as [Ha Hh].
  { subst w0. by destruct (0 <? trimmedCount fitted)%Z. }
  unfold callGenerate. rewrite Ha, Hans.
  set (w1 := advance _ (emit _ w0)).
  assert (health w1 = health w) as Hh1 by done.
  clearbody w1 w0.
  destruct (evaluate env (text response) req _ _ w1) as [sc w2] eqn:He.
  assert (w2 = snd (evaluate env (text response) req (codeEvaluation (policies deps))
                      (Some {| hasToolCalls := Some (hasItems (toolCalls response)) |}) w1))
    as Hw2 by (by rewrite He).
  assert (HealthStore.get (id model) w2 = HealthStore.get (id model) w) as Hg2.
  { rewrite Hw2, get_evaluate. unfold HealthStore.get. by rewrite Hh1. }
  clear He Hw2.
  unfold accept, pushAndRecord.
  destruct (finalizeResult _ _ _ _ _ _) as [r w3] eqn:Hf.
  exists sc, (now w1 - now w)%Z, w3.
  assert (r = TextResult response (id model)
                (buildMetadata (log ++ [attemptOf model success (Some sc)])
                   (id model) (taskType req))) as ->.
  { unfold finalizeResult in Hf. rewrite Hs in Hf. simpl in Hf. by injection Hf as <- _. }
  match type of Hf with
  | finalizeResult ?a ?b ?c ?d ?e ?wx = _ =>
      assert (w3 = snd (finalizeResult a b c d e wx)) as -> by (by rewrite Hf)
  end.
  clear Hf. cbv zeta. split; [done|]. split.
  - eapply extends_In; [apply extends_finalizeResult|].
    eapply extends_In; [apply extends_recordAttempt|]. by left.
  - rewrite get_finalizeResult, get_recordAttempt, get_health_recordResult.
    cbv zeta. simpl rollingSuccessRate. rewrite Hg2.
    set (rate := rollingSuccessRate (HealthStore.get (id model) w)).
    unfold HealthStore.EMA_ALPHA.
    split.
    + destruct (Qle_bool thr sc); lra.
    + intros -> Hpos. lra.
Qed.

(** [route] either replays a stored session or enters the retry loop with
    the wait limit, the attempt budget and the threshold resolved against
    the policy of the task. *)
Lemma route_unfold fuel env deps req w :
  let policy := policyForTask (policies deps) (taskType req) in
  route fuel env deps req w
  = match resumeHit req w with
    | Some (r, w') => Some (Returned r, [], w')
    | None =>
        routeLoop fuel env deps req policy
          (orElseQ (maxWaitMs req) (policyMaxWaitMs policy))
          (orElseZ (attemptBudget req) (maxAttemptsPerCycle policy))
          (default (policyQualityThreshold policy) (qualityThreshold req))
          (default [] (preferred policy)) (now w) [] w
    end.
Proof. reflexivity. Qed.

(** C10. [route] runs its loop with the policy's [maxWaitMs] when the
    request's is [0] and with the request's otherwise, with the policy's
    [maxAttemptsPerCycle] when the request's [attemptBudget] is [0] and
    with the request's otherwise, and with the request's quality threshold
    whenever one is given, [0] included; only an absent threshold falls
    back to the policy's. *)
Theorem route_loop_parameters (fuel : nat) (env : Env) (deps : RouterDeps)
    (req : RouterRequest) (w : World) :
  let policy := policyForTask (policies deps) (taskType req) in
  exists maxWait budget threshold,
    route fuel env deps req w
    = match resumeHit req w with
      | Some (r, w') => Some (Returned r, [], w')
      | None =>
          routeLoop fuel env deps req policy maxWait budget threshold
            (default [] (preferred policy)) (now w) [] w
      end
    /\ ((maxWaitMs req == 0)%Q -> maxWait = policyMaxWaitMs policy)
    /\ (~ (maxWaitMs req == 0)%Q -> maxWait = maxWaitMs req)
    /\ (attemptBudget req = 0%Z -> budget = maxAttemptsPerCycle policy)
    /\ (attemptBudget req <> 0%Z -> budget = attemptBudget req)
    /\ (forall q, qualityThreshold req = Some q -> threshold = q)
    /\ (qualityThreshold req = None -> threshold = policyQualityThreshold policy).
Proof.
  intros policy. rewrite route_unfold. fold policy. cbv zeta.
  eexists _, _, _. split; [reflexivity|].
  unfold orElseQ, orElseZ. split_and!.
  - intros H. apply Qeq_bool_iff in H. by rewrite H.
  - intros H. destruct (Qeq_bool (maxWaitMs req) 0) eqn:E; [|done].
    apply Qeq_bool_iff in E. done.
  - by intros ->.
  - intros H. destruct (attemptBudget req =? 0)%Z eqn:E; [|done]. lia.
  - by intros q ->.
  - by intros ->.
Qed.

Lemma clamp01_nonneg x : Qle_bool 0 (clamp01 x) = true.
Proof.
  unfold clamp01, Qltb. apply Qle_bool_iff.
  destruct (Qle_bool 0 x) eqn:E; simpl.
  - apply Qle_bool_iff in E. destruct (Qle_bool x 1); simpl; [done|lra].
  - done.
Qed.

Lemma evaluate_nonneg env t req cfg opts w :
  Qle_bool 0 (fst (evaluate env t req cfg opts w)) = true.
Proof.
  unfold evaluate.
  destruct cfg as [cfg|]; [|apply clamp01_nonneg].
  destruct (bool_decide (taskType req = Code) && ce_enabled cfg);
    [|apply clamp01_nonneg].
  destruct (runCodeEvaluation env cfg w) as [passed w']. apply clamp01_nonneg.
Qed.

(** With a threshold of [0] every response that the adapter returns is
    accepted. *)
Lemma zero_threshold_accepts env deps req model log w fitted response :
  fitMessagesToContext (messages req) (context model) (default 0%Z (maxTokens req))
  = Some fitted ->
  stream req && allowDegrade req = false ->
  answer (generate env (adapterCalls w) model
            (withMessages req (fittedMessages fitted) (stream req))) = inl response ->
  isReturn (attempt env deps req 0%Q model log w) = true.
Proof.
  intros Hfit Hs Hans. unfold attempt. rewrite Hfit, Hs. cbv zeta.
  set (w0 := if (0 <? trimmedCount fitted)%Z then _ else w).
  assert (adapterCalls w0 = adapterCalls w) as Ha.
  { subst w0. by destruct (0 <? trimmedCount fitted)%Z. }
  unfold callGenerate. rewrite Ha, Hans.
  set (w1 := advance _ (emit _ w0)). clearbody w1.
  pose proof (evaluate_nonneg env (text response) req (codeEvaluation (policies deps))
                (Some {| hasToolCalls := Some (hasItems (toolCalls response)) |}) w1) as Hge.
  destruct (evaluate env (text response) req _ _ w1) as [sc w2]. simpl in Hge.
  rewrite Hge.
  assert (forall ok lat, isReturn (accept req deps model response ok lat sc log w2) = true)
    as Hacc.
  { intros ok lat.
    destruct (accept_effect req deps model response ok lat sc log w2)
      as (r & w' & -> & _). done. }
  destruct (allowDegrade req); apply Hacc.
Qed.


(** C5. The fitter estimates [ceil (totalChars / 4) + maxOut] tokens,
    [totalChars] counting one separator per adjacent pair of messages; its
    answer is the list with the first [k] non-system messages dropped for
    the least [k] whose estimate fits the window; it answers [None] exactly
    when the system messages alone do not fit; and on [None] the router
    logs a [permanent] attempt for the model and goes on without calling
    the adapter. *)
Theorem context_fit_drops_oldest_non_system (msgs : list Message)
    (maxContext maxOut : Z) :
  (forall a, 4 * (ceilDiv4 a - 1) < a <= 4 * ceilDiv4 a)%Z /\
  match fitMessagesToContext msgs maxContext maxOut with
  | Some f =>
      exists k, fittedMessages f = dropNonSystem k msgs /\
        trimmedCount f = Z.of_nat k /\
        (estimatedTokens (dropNonSystem k msgs) maxOut <= maxContext)%Z /\
        forall j, j < k ->
          (maxContext < estimatedTokens (dropNonSystem j msgs) maxOut)%Z
  | None =>
      (maxContext < estimatedTokens (systemOnly msgs) maxOut)%Z
  end /\
  (fitMessagesToContext msgs maxContext maxOut = None <->
   (maxContext < estimatedTokens (systemOnly msgs) maxOut)%Z) /\
  (forall env deps req thr model log w,
     messages req = msgs -> context model = maxContext ->
     default 0%Z (maxTokens req) = maxOut ->
     fitMessagesToContext msgs maxContext maxOut = None ->
     exists w',
       attempt env deps req thr model log w
       = Continue (log ++ [attemptOf model permanent None]) w'
       /\ adapterCalls w' = adapterCalls w).
Proof.
  split; [apply ceilDiv4_is_ceiling|].
  pose proof (fitLoop_spec maxContext maxOut msgs (totalChars msgs) 0) as Hloop.
  assert (fitMessagesToContext msgs maxContext maxOut
          = fitLoop maxContext maxOut msgs (totalChars msgs) 0) as Hfit.
  { unfold fitMessagesToContext. cbv zeta. f_equal.
    rewrite foldl_sumLengths. unfold totalChars.
    destruct msgs as [|m [|m' msgs]]; simpl; lia. }
  rewrite <- Hfit in Hloop. specialize (Hloop eq_refl).
  assert (fitMessagesToContext msgs maxContext maxOut = None ->
          (maxContext < estimatedTokens (systemOnly msgs) maxOut)%Z) as Hnone.
  { intros HN. rewrite HN in Hloop. rewrite <- dropNonSystem_all. apply Hloop. }
  split; [|split].
  - destruct (fitMessagesToContext msgs maxContext maxOut) as [f|] eqn:E.
    + destruct Hloop as (k & H1 & H2 & H3 & H4). exists k.
      split; [done|]. split; [lia|]. done.
    + by apply Hnone.
  - split; [exact Hnone|]. intros Hlt.
    destruct (fitMessagesToContext msgs maxContext maxOut) as [f|]; [|done].
    destruct Hloop as (k & _ & _ & Hle & _).
    pose proof (estimated_systemOnly_le k msgs maxOut). lia.
  - intros env deps req thr model log w <- <- <- HN.
    unfold attempt. rewrite HN. unfold pushAndRecord.
    eexists. split; [reflexivity|].
    unfold adapterCalls. rewrite countCalls_emit, countCalls_recordAttempt by side.
    done.
Qed.

(** C6 (as amended). The attempt log of a run of [route] has one entry per
    candidate invocation of the adapter ([generate] or [stream] on the
    attempted model) and one per model skipped because the request does not
    fit its context; the adapter invocations of a run are these candidate
    invocations together with the invocations of the judge model, which
    the log does not list. *)
Theorem attempt_log_counts_candidates (fuel : nat) (env : Env) (deps : RouterDeps)
    (req : RouterRequest) (w : World) (c : Completion)
    (log : list RoutingAttempt) (w' : World) :
  route fuel env deps req w = Some (c, log, w') ->
  List.length log + (candidateCalls w + unfitSkips w)
  = candidateCalls w' + unfitSkips w'
  /\ adapterCalls w' = candidateCalls w' + judgeCalls w'.
Proof.
  intros Hrun. split.
  - unfold route in Hrun. cbv zeta in Hrun.
    destruct (resumeHit req w) as [[r wr]|] eqn:Hres.
    + injection Hrun as <- <- <-.
      unfold resumeHit in Hres.
      repeat (case_match; try done). injection Hres as <- <-.
      unfold candidateCalls, unfitSkips.
      rewrite !countCalls_quiet by side. simpl. lia.
    + eapply (routeLoop_effect _ _ _ _ _ _ _ _ _ w) in Hrun as [[_ Hacc] _];
        [exact Hacc| |by constructor].
      split; [lia|]. simpl. lia.
  - unfold adapterCalls, candidateCalls, judgeCalls, countCalls.
    induction (calls w') as [|[[]| | | | | | | | | |] l IH]; simpl; lia.
Qed.


End RouterFacts.

Module HandlerFacts.
Import Text Heuristics Scoring Evaluator ContextFit Router RouterSpec RouterFacts Handler.

(** C8. When the quality-threshold header is absent or does not parse as a
    number, the handler builds a request whose [qualityThreshold] is [0];
    [route] then runs its loop with threshold [0] whatever the policy says,
    every evaluated score is at least [0], and so every response that
    [generate] returns is accepted. *)
Theorem missing_threshold_header_means_zero_gate
    (Number : string -> option Q) (createRequestId : string -> Z -> string)
    (hreq : HttpRequest) (b : Body) (dateNow : Z) :
  (headers hreq !! "x-router-quality-threshold"%string = None
   \/ exists v, headers hreq !! "x-router-quality-threshold"%string = Some v
                /\ Number v = None) ->
  let rr := routerRequestOf Number createRequestId hreq b dateNow in
  qualityThreshold rr = Some 0%Q
  /\ (forall fuel env deps w,
        let policy := policyForTask (policies deps) (taskType rr) in
        exists maxWait budget,
          route fuel env deps rr w
          = match resumeHit rr w with
            | Some (r, w') => Some (Returned r, [], w')
            | None =>
                routeLoop fuel env deps rr policy maxWait budget 0%Q
                  (default [] (preferred policy)) (now w) [] w
            end)
  /\ (forall env t cfg opts w,
        Qle_bool 0 (fst (evaluate env t rr cfg opts w)) = true)
  /\ (forall env deps model log w fitted response,
        fitMessagesToContext (messages rr) (context model)
          (default 0%Z (maxTokens rr)) = Some fitted ->
        stream rr && allowDegrade rr = false ->
        answer (generate env (adapterCalls w) model
                  (withMessages rr (fittedMessages fitted) (stream rr)))
        = inl response ->
        isReturn (attempt env deps rr 0%Q model log w) = true).
Proof.
  intros Hheader rr.
  assert (parseThreshold Number (headers hreq !! "x-router-quality-threshold"%string)
          = None) as Hparse.
  { unfold parseThreshold. destruct Hheader as [-> | (v & -> & Hv)]; [done|].
    destruct v; simpl; [done|]. by rewrite Hv. }
  assert (qualityThreshold rr = Some 0%Q) as Hq.
  { unfold rr, routerRequestOf. simpl. by rewrite Hparse. }
  split; [exact Hq|]. split; [|split].
  - intros fuel env deps w policy.
    rewrite route_unfold. fold policy. cbv zeta. rewrite Hq.
    by eexists _, _.
  - intros. apply evaluate_nonneg.
  - intros env deps model log w fitted response Hfit Hs Hans.
    by eapply zero_threshold_accepts.
Qed.

End HandlerFacts.

(** Each theorem that carries hypotheses is applied to one of the concrete
    runs of [Examples]. *)
Module Witnesses.
Import Text Heuristics Scoring Evaluator ContextFit Router RouterSpec RouterFacts
  Handler HandlerFacts Examples.


Lemma rate_limit_cooldown_witness :
  errType rateLimited = RATE_LIMIT /\
  exists w',
    handleError (request false false) modelA 1000 (ThrowAdapter rateLimited) [] world0
    = Continue [attemptOf modelA rate_limit None] w'
    /\ cooldownUntil (HealthStore.get "model:a" w') = 3000%Z.
Proof.
  split; [reflexivity|].
  destruct (rate_limit_cooldown_persisted (request false false) modelA 1000
              rateLimited [] world0 eq_refl)
    as (w' & Hrun & _ & Hcool & _).
  exists w'. split; [exact Hrun|exact Hcool].
Defined.


Lemma attempt_log_counts_witness :
  judgedRun = Some ((parts judgedRun).1.1, (parts judgedRun).1.2, (parts judgedRun).2)
  /\ List.length (parts judgedRun).1.2 + (candidateCalls world0 + unfitSkips world0)
     = candidateCalls (parts judgedRun).2 + unfitSkips (parts judgedRun).2.
Proof.
  assert (judgedRun
          = Some ((parts judgedRun).1.1, (parts judgedRun).1.2, (parts judgedRun).2))
    as Hrun by (vm_compute; reflexivity).
  split; [exact Hrun|].
  exact (proj1 (attempt_log_counts_candidates 3 _ _ _ world0 _ _ _ Hrun)).
Defined.

Lemma missing_threshold_header_witness :
  headers plainRequest !! "x-router-quality-threshold"%string = None /\
  qualityThreshold
    (routerRequestOf (fun _ => None) (fun seed _ => seed) plainRequest plainBody 0)
  = Some 0%Q.
Proof.
  split; [reflexivity|].
  exact (proj1 (missing_threshold_header_means_zero_gate (fun _ => None)
                  (fun seed _ => seed) plainRequest plainBody 0
                  (or_introl eq_refl))).
Defined.

Lemma degraded_accept_witness :
  stream (request true false) = false /\
  allowDegrade (request true false) = true /\
  exists sc latency w',
    attempt (scripted ["no"]) (depsOf [modelA] None) (request true false) 0.9%Q
      modelA [] world0
    = Return (TextResult (reply "no") "model:a"
                (buildMetadata [attemptOf modelA success (Some sc)] "model:a" Reasoning))
             [attemptOf modelA success (Some sc)] w'
    /\ In (HealthRecordResult "model:a" (Qle_bool 0.9 sc) (Some latency)) (calls w').
Proof.
  split; [reflexivity|]. split; [reflexivity|].
  destruct (degraded_accept_records_gate_verdict (scripted ["no"])
              (depsOf [modelA] None) (request true false) 0.9%Q modelA [] world0
              {| fittedMessages := messages (request true false); trimmedCount := 0 |}
              (reply "no") eq_refl eq_refl ltac:(vm_compute; reflexivity) eq_refl)
    as (sc & latency & w' & Hrun & Hin & _).
  exists sc, latency, w'. split; [exact Hrun|exact Hin].
Defined.

End Witnesses.

(** Concrete runs on which the behaviour of the code differs from a
    literal reading of the specification. *)
Module Counterexamples.
Import Text Heuristics Scoring Evaluator ContextFit Router RouterSpec RouterFacts
  Handler Examples.


(** C6, counterexample. A run whose only model cannot fit the request logs
    one attempt without any adapter call, and a run that consults the judge
    logs one attempt for two adapter calls. *)
Lemma log_length_differs_from_provider_calls :
  (exists c log w',
     unfitRun = Some (c, log, w') /\ List.length log = 1 /\ adapterCalls w' = 0)
  /\ (exists c log w',
        judgedRun = Some (c, log, w') /\ List.length log = 1 /\ adapterCalls w' = 2)
  /\ ~ LogCountsProviderCalls 3 (scripted []) (depsOf [tinyModel] None)
         largeRequest world0
  /\ ~ LogCountsProviderCalls 3 (scripted ["maybe"; "1"])
         (depsOf [modelA; judgeModel] (Some judgeConfig)) (request false false) world0.
Proof.
  assert (unfitRun
          = Some ((parts unfitRun).1.1, (parts unfitRun).1.2, (parts unfitRun).2))
    as H1 by (vm_compute; reflexivity).
  assert (judgedRun
          = Some ((parts judgedRun).1.1, (parts judgedRun).1.2, (parts judgedRun).2))
    as H2 by (vm_compute; reflexivity).
  assert (List.length (parts unfitRun).1.2 = 1 /\ adapterCalls (parts unfitRun).2 = 0)
    as C1 by (vm_compute; split; reflexivity).
  assert (List.length (parts judgedRun).1.2 = 1 /\ adapterCalls (parts judgedRun).2 = 2)
    as C2 by (vm_compute; split; reflexivity).
  split; [|split; [|split]].
  - exists (parts unfitRun).1.1, (parts unfitRun).1.2, (parts unfitRun).2.
    split; [exact H1|exact C1].
  - exists (parts judgedRun).1.1, (parts judgedRun).1.2, (parts judgedRun).2.
    split; [exact H2|exact C2].
  - intros Hclaim. specialize (Hclaim _ _ _ H1).
    destruct C1 as [L A]. rewrite L, A in Hclaim. discriminate Hclaim.
  - intros Hclaim. specialize (Hclaim _ _ _ H2).
    destruct C2 as [L A]. rewrite L, A in Hclaim. discriminate Hclaim.
Qed.

End Counterexamples.

(* ===================================================================== *)
(** * Further properties of the code                                      *)
(* ===================================================================== *)

Module StoreFacts.
Import StoreSpec.

Lemma successRate_recordResult m ok lat w :
  (successRate m (HealthStore.recordResult m ok lat w)
   == successRate m w * (4 # 5) + (if ok then 1 # 5 else 0))%Q.
Proof.
  unfold successRate. rewrite RouterFacts.get_health_recordResult. simpl.
  unfold HealthStore.EMA_ALPHA. destruct ok; lra.
Qed.

(** X1. Recording a result keeps the rolling success rate of the model a
    proportion: from a rate in [0,1] the next one is in [0,1] again; a
    success never lowers it and a failure never raises it. *)
Theorem success_rate_stays_a_proportion (m : string) (ok : bool)
    (lat : option Z) (w : World) :
  (0 <= successRate m w <= 1)%Q ->
  let next := successRate m (HealthStore.recordResult m ok lat w) in
  (0 <= next <= 1)%Q
  /\ (ok = true -> (successRate m w <= next)%Q)
  /\ (ok = false -> (next <= successRate m w)%Q).
Proof.
  intros [H0 H1] next. subst next.
  rewrite successRate_recordResult.
  set (r := successRate m w) in *. clearbody r.
  destruct ok; (split; [split|split]); try discriminate; intros; lra.
Qed.

(** X2. After [n] failures in a row the success rate has decayed
    geometrically to [r * 0.8^n], and after [n] successes in a row it has
    risen to [1 - (1 - r) * 0.8^n], [r] being the rate before. *)
Theorem success_rate_after_a_streak (n : nat) (m : string) (ok : bool)
    (lat : option Z) (w : World) :
  (successRate m (streak n m ok lat w)
   == if ok then 1 - (1 - successRate m w) * (4 # 5) ^ Z.of_nat n
      else successRate m w * (4 # 5) ^ Z.of_nat n)%Q.
Proof.
  induction n as [|n IH].
  - simpl. destruct ok; ring.
  - change (streak (S n) m ok lat w)
      with (HealthStore.recordResult m ok lat (streak n m ok lat w)).
    rewrite successRate_recordResult, IH.
    rewrite Nat2Z.inj_succ, <- Z.add_1_r.
    destruct ok; rewrite Qpower_plus by discriminate;
      change ((4 # 5) ^ 1)%Q with (4 # 5)%Q; ring.
Qed.

Lemma budget_get_record p p' t w :
  BudgetStore.get p' (BudgetStore.record p t w)
  = if bool_decide (p' = p)
    then {| usedTokens := usedTokens (BudgetStore.get p w) + t;
            softLimitTokens := softLimitTokens (BudgetStore.get p w);
            hardLimitTokens := hardLimitTokens (BudgetStore.get p w) |}
    else BudgetStore.get p' w.
Proof.
  unfold BudgetStore.get at 1. unfold BudgetStore.record. simpl.
  case_bool_decide as Hp.
  - subst p'. by rewrite lookup_insert_eq.
  - by rewrite lookup_insert_ne.
Qed.

Lemma budget_get_ensureLimits p p' soft hard w :
  BudgetStore.get p' (BudgetStore.ensureLimits p soft hard w)
  = if bool_decide (p' = p)
    then {| usedTokens := usedTokens (BudgetStore.get p w);
            softLimitTokens := soft; hardLimitTokens := hard |}
    else BudgetStore.get p' w.
Proof.
  unfold BudgetStore.get at 1. unfold BudgetStore.ensureLimits. simpl.
  case_bool_decide as Hp.
  - subst p'. by rewrite lookup_insert_eq.
  - by rewrite lookup_insert_ne.
Qed.

Lemma budget_get_recordAll p p' ts : forall w,
  BudgetStore.get p' (recordAll p ts w)
  = if bool_decide (p' = p)
    then {| usedTokens := usedTokens (BudgetStore.get p w) + sumZ ts;
            softLimitTokens := softLimitTokens (BudgetStore.get p w);
            hardLimitTokens := hardLimitTokens (BudgetStore.get p w) |}
    else BudgetStore.get p' w.
Proof.
  induction ts as [|t ts IH]; intros w; simpl.
  - case_bool_decide as Hp; [|done]. subst p'.
    destruct (BudgetStore.get p w). simpl. f_equal. lia.
  - change (foldl _ ?x ts) with (recordAll p ts x). rewrite IH.
    case_bool_decide as Hp.
    + rewrite budget_get_record, bool_decide_eq_true_2 by done. simpl.
      f_equal. lia.
    + by rewrite budget_get_record, bool_decide_eq_false_2.
Qed.

(** X6. The budget store keeps one running total per provider: after the
    limits of a provider are set and any number of token counts recorded
    for it, its record holds the total it had before plus the sum of the
    counts, under the limits that were set, and the record of every other
    provider is as it was. *)
Theorem budget_store_keeps_running_totals (p : string) (soft hard : option Z)
    (ts : list Z) (w : World) :
  let w' := recordAll p ts (BudgetStore.ensureLimits p soft hard w) in
  BudgetStore.get p w'
  = {| usedTokens := usedBy p w + sumZ ts;
       softLimitTokens := soft; hardLimitTokens := hard |}
  /\ (forall p', p' <> p -> BudgetStore.get p' w' = BudgetStore.get p' w).
Proof.
  cbv zeta. split.
  - rewrite budget_get_recordAll, bool_decide_eq_true_2 by done.
    rewrite budget_get_ensureLimits, bool_decide_eq_true_2 by done. done.
  - intros p' Hne.
    rewrite budget_get_recordAll, bool_decide_eq_false_2 by done.
    by rewrite budget_get_ensureLimits, bool_decide_eq_false_2.
Qed.

Lemma budget_get_session_recordResult p r t m x w :
  BudgetStore.get p (SessionStore.recordResult r t m x w) = BudgetStore.get p w.
Proof.
  unfold BudgetStore.get, SessionStore.recordResult.
  by destruct (sessions w).
Qed.

(** X7. Accepting a response charges the provider of the model with the
    total tokens that the response reports, when that number is positive,
    and with nothing otherwise; no other provider is charged. *)
Theorem accepted_response_is_charged_once (req : RouterRequest)
    (deps : Router.RouterDeps) (model : CandidateModel)
    (response : NormalizedResponse) (log : list RoutingAttempt) (w : World) :
  let w' := snd (Router.finalizeResult req deps model response log w) in
  let reported := default 0%Z (usage response ≫= totalTokens) in
  usedBy (provider model) w' = (usedBy (provider model) w + Z.max 0 reported)%Z
  /\ (forall p, p <> provider model -> BudgetStore.get p w' = BudgetStore.get p w).
Proof.
  cbv zeta. unfold Router.finalizeResult. cbv zeta.
  set (total := default 0%Z (usage response ≫= totalTokens)).
  set (w1 := if (0 <? total)%Z then _ else w).
  assert (forall p wa,
            BudgetStore.get p
              (emit (Log router_complete (id model))
                 (SessionStore.recordResult (requestId req) (taskType req)
                    (id model) (text response) wa))
            = BudgetStore.get p wa) as Hdone.
  { intros p wa. apply (budget_get_session_recordResult p). }
  assert (usedBy (provider model) w1
          = (usedBy (provider model) w + Z.max 0 total)%Z
          /\ (forall p, p <> provider model ->
                BudgetStore.get p w1 = BudgetStore.get p w)) as [Hused Hothers].
  { subst w1. unfold usedBy. destruct (Z.ltb_spec 0 total).
    - split.
      + rewrite budget_get_record, bool_decide_eq_true_2 by done. simpl. lia.
      + intros p Hne. by rewrite budget_get_record, bool_decide_eq_false_2.
    - split; [lia|done]. }
  clearbody w1.
  destruct (stream req && negb (Router.hasItems (toolCalls response))); simpl snd.
  - unfold usedBy in *. rewrite Hdone. split; [done|].
    intros p Hne. rewrite Hdone. by apply Hothers.
  - unfold usedBy in *. rewrite Hdone.
    destruct (stream req && Router.hasItems (toolCalls response)).
    + split; [exact Hused|]. intros p Hne. rewrite Hdone. by apply Hothers.
    + split; [exact Hused|]. intros p Hne. rewrite Hdone. by apply Hothers.
Qed.

End StoreFacts.

Module SelectionFacts.
Import Heuristics Scoring Router RouterSpec SelectionSpec.

Section Sorting.
Context {A : Type} (cmp : A -> A -> Q) (R : A -> A -> Prop).
Hypothesis cmp_le : forall x y, Qle_bool (cmp x y) 0 = true -> R x y.
Hypothesis cmp_gt : forall x y, Qle_bool (cmp x y) 0 = false -> R y x.

Lemma insertBy_perm x l : insertBy cmp x l ≡ₚ x :: l.
Proof.
  induction l as [|y l IH]; simpl; [done|].
  destruct (Qle_bool (cmp x y) 0); [done|].
  rewrite IH. apply Permutation_swap.
Qed.

Lemma sortBy_perm l : sortBy cmp l ≡ₚ l.
Proof.
  induction l as [|x l IH]; simpl; [done|].
  change (foldr (insertBy cmp) [] l) with (sortBy cmp l).
  by rewrite insertBy_perm, IH.
Qed.

Lemma insertBy_HdRel a x l : R a x -> HdRel R a l -> HdRel R a (insertBy cmp x l).
Proof.
  intros Hax Hl. destruct l as [|y l]; simpl; [by constructor|].
  destruct (Qle_bool (cmp x y) 0); constructor; [done|].
  by inversion Hl.
Qed.

Lemma insertBy_Sorted x l : Sorted R l -> Sorted R (insertBy cmp x l).
Proof.
  induction 1 as [|y l Hl IH Hhd]; simpl; [by repeat constructor|].
  destruct (Qle_bool (cmp x y) 0) eqn:E.
  - constructor; [by constructor|]. constructor. by apply cmp_le.
  - constructor; [done|]. apply insertBy_HdRel; [by apply cmp_gt|done].
Qed.

Lemma sortBy_Sorted l : Sorted R (sortBy cmp l).
Proof.
  induction l as [|x l IH]; simpl; [constructor|].
  by apply insertBy_Sorted.
Qed.

End Sorting.

Lemma compareCandidates_le pref a b :
  Qle_bool (compareCandidates pref a b) 0 = true -> BeforeScored pref a b.
Proof.
  unfold compareCandidates, BeforeScored, safeIndex. cbv zeta.
  destruct (Qeq_bool (snd b) (snd a)) eqn:E; simpl; intros H;
    apply Qle_bool_iff in H.
  - apply Qeq_bool_iff in E. right. split; [by symmetry|].
    change 0%Q with (inject_Z 0) in H. rewrite <- Zle_Qle in H. lia.
  - apply Qeq_bool_neq in E. left. lra.
Qed.

Lemma compareCandidates_gt pref a b :
  Qle_bool (compareCandidates pref a b) 0 = false -> BeforeScored pref b a.
Proof.
  unfold compareCandidates, BeforeScored, safeIndex. cbv zeta.
  destruct (Qeq_bool (snd b) (snd a)) eqn:E; simpl; intros H.
  - apply Qeq_bool_iff in E. right. split; [done|].
    destruct (Z_le_gt_dec
                (if (indexOf (id (fst b)) pref =? -1)%Z then MAX_SAFE_INTEGER
                 else indexOf (id (fst b)) pref)
                (if (indexOf (id (fst a)) pref =? -1)%Z then MAX_SAFE_INTEGER
                 else indexOf (id (fst a)) pref)) as [Hle|Hgt]; [done|].
    exfalso. assert (Qle_bool (inject_Z
      ((if (indexOf (id (fst a)) pref =? -1)%Z then MAX_SAFE_INTEGER
        else indexOf (id (fst a)) pref)
       - (if (indexOf (id (fst b)) pref =? -1)%Z then MAX_SAFE_INTEGER
          else indexOf (id (fst b)) pref))) 0 = true) as Ht.
    { apply Qle_bool_iff. change 0%Q with (inject_Z 0). rewrite <- Zle_Qle. lia. }
    congruence.
  - left. destruct (Qlt_le_dec (snd a) (snd b)) as [Hlt|Hle]; [done|].
    exfalso. assert (Qle_bool (snd b - snd a) 0 = true) as Ht.
    { apply Qle_bool_iff. lra. }
    congruence.
Qed.

Lemma candidateOf_Some req policy w m p :
  candidateOf req policy w m = Some p <->
  p = (m, candidateScore req policy w m) /\ ~ inCooldown w m /\ ~ overHardLimit w m.
Proof.
  unfold candidateOf, inCooldown, overHardLimit, candidateScore, truthyZ. cbv zeta.
  destruct (now w <? cooldownUntil (HealthStore.get (id m) w))%Z eqn:Hc.
  { apply Z.ltb_lt in Hc. split; [done|]. intros (_ & Hn & _). done. }
  apply Z.ltb_ge in Hc.
  destruct (hardLimitTokens (BudgetStore.get (provider m) w)) as [hard|] eqn:Hh.
  - destruct (hard =? 0)%Z eqn:Hz.
    + apply Z.eqb_eq in Hz. split.
      * intros [= <-]. split; [done|]. split; [lia|].
        intros (h' & [= <-] & Hne & _). done.
      * intros (-> & _). done.
    + apply Z.eqb_neq in Hz.
      destruct (hard <=? usedTokens (BudgetStore.get (provider m) w))%Z eqn:Hu.
      * apply Z.leb_le in Hu. split; [done|]. intros (_ & _ & Hn).
        exfalso. apply Hn. by exists hard.
      * apply Z.leb_gt in Hu. split.
        -- intros [= <-]. split; [done|]. split; [lia|].
           intros (h' & [= <-] & _ & Hle). lia.
        -- intros (-> & _). done.
  - split.
    + intros [= <-]. split; [done|]. split; [lia|]. intros (h' & ? & _). done.
    + intros (-> & _). done.
Qed.

Lemma existsb_id_In (x : string) (l : list string) :
  existsb (fun p => bool_decide (p = x)) l = true <-> In x l.
Proof.
  rewrite existsb_exists. split.
  - intros (y & Hin & Hy). apply bool_decide_eq_true in Hy. by subst.
  - intros Hin. exists x. split; [done|]. by apply bool_decide_eq_true.
Qed.

Lemma eligible_spec req policy pref m :
  eligible req policy pref m = true <->
  enabled m = true /\ (pref = [] \/ In (id m) pref)
  /\ (minCapability policy <= capabilityFor req m)%Z.
Proof.
  unfold eligible, capabilityFor. cbv zeta.
  destruct (enabled m); simpl; [|split; [done|by intros [? _]]].
  pose proof (existsb_id_In (id m) pref) as Hex.
  destruct (Z.ltb_spec (default 0%Z (capabilities m !! taskKey (taskType req)))
              (minCapability policy)) as [Hlt|Hge].
  - destruct (_ && _); (split; [done|]); intros (_ & _ & ?); lia.
  - destruct pref as [|p pref].
    + split; [|done]. intros _. split; [done|]. split; [by left|done].
    + change (0 <? List.length (p :: pref)) with true. rewrite andb_true_l.
      destruct (existsb _ (p :: pref)); cbn [negb].
      * split; [|done]. intros _. split; [done|]. split; [|done].
        right. by apply Hex.
      * split; [done|]. intros (_ & [?|Hin] & _); [done|].
        apply Hex in Hin. done.
Qed.

(** X3. The candidates of a cycle are exactly the configured models that
    are enabled, listed as preferred when the policy prefers any, capable
    enough for the task, out of cooldown and not over a non-zero hard
    token limit of their provider; sorting loses and adds none. *)
Theorem candidates_are_the_selectable_models (deps : RouterDeps)
    (req : RouterRequest) (policy : RoutingPolicy) (pref : list string)
    (w : World) (m : CandidateModel) :
  In m (orderedCandidates deps req policy pref w)
  <-> Selectable deps req policy pref w m.
Proof.
  unfold orderedCandidates, Selectable. cbv zeta.
  rewrite <- (list_elem_of_In _ m).
  rewrite (sortBy_perm (compareCandidates pref)).
  rewrite list_elem_of_fmap. split.
  - intros ([m' s] & -> & Hin). simpl.
    apply list_elem_of_omap in Hin as (m0 & Hin & Hc).
    apply candidateOf_Some in Hc as ([= -> ->] & Hcool & Hhard).
    apply list_elem_of_In, filter_In in Hin as [Hin He].
    apply eligible_spec in He as (Hen & Hpref & Hcap).
    split_and!; done.
  - intros (Hin & Hen & Hpref & Hcap & Hcool & Hhard).
    exists (m, candidateScore req policy w m). split; [done|].
    apply list_elem_of_omap. exists m. split.
    + apply list_elem_of_In, filter_In. split; [done|].
      apply eligible_spec. done.
    + by apply candidateOf_Some.
Qed.

Lemma Before_trans req policy pref w a b c :
  Before req policy pref w a b -> Before req policy pref w b c ->
  Before req policy pref w a c.
Proof.
  unfold Before.
  set (sa := candidateScore req policy w a).
  set (sb := candidateScore req policy w b).
  set (sc := candidateScore req policy w c).
  intros [H1|[H1 I1]] [H2|[H2 I2]].
  - left. lra.
  - left. lra.
  - left. lra.
  - right. split; [lra|lia].
Qed.

Lemma candidates_scored req policy w l :
  Forall (fun p => snd p = candidateScore req policy w (fst p))
    (omap (candidateOf req policy w) l).
Proof.
  apply Forall_forall. intros [m s] Hin.
  apply list_elem_of_omap in Hin as (m0 & _ & Hc).
  apply candidateOf_Some in Hc as ([= -> ->] & _). done.
Qed.

Lemma Sorted_scored req policy pref w (l : list (CandidateModel * Q)) :
  Forall (fun p => snd p = candidateScore req policy w (fst p)) l ->
  Sorted (BeforeScored pref) l ->
  Sorted (Before req policy pref w) (map fst l).
Proof.
  intros Hall Hs. induction Hs as [|p l Hs IH Hhd]; simpl; [constructor|].
  apply Forall_cons in Hall as [Hp Hall].
  constructor; [by apply IH|].
  destruct Hhd as [|q l Hpq]; simpl; constructor.
  apply Forall_cons in Hall as [Hq _].
  unfold Before. rewrite <- Hp, <- Hq. exact Hpq.
Qed.

(** X4. The candidates of a cycle are attempted best first: every
    candidate has a higher score than each later one, or the same score and
    a place in the preferred list that is not later (a model that is not
    listed counting as last). *)
Theorem candidates_are_ordered_best_first (deps : RouterDeps)
    (req : RouterRequest) (policy : RoutingPolicy) (pref : list string)
    (w : World) :
  StronglySorted (Before req policy pref w)
    (orderedCandidates deps req policy pref w).
Proof.
  apply Sorted_StronglySorted.
  { intros a b c. apply Before_trans. }
  unfold orderedCandidates. cbv zeta.
  apply Sorted_scored.
  - rewrite (sortBy_perm (compareCandidates pref)).
    apply candidates_scored.
  - apply sortBy_Sorted.
    + apply compareCandidates_le.
    + apply compareCandidates_gt.
Qed.

End SelectionFacts.

Module CycleFacts.
Import Heuristics Scoring Evaluator ContextFit Router RouterSpec RouterFacts StoreSpec.

(** X5. One cycle tries the candidates in their order, each at most once,
    and stops after [attemptBudget] of them: the entries it adds to the
    attempt log name a prefix of the ordered candidates that is no longer
    than the budget left, and when the cycle ends without a result the
    prefix is as long as the budget and the list allow. *)
Theorem cycle_respects_attempt_budget (env : Env) (deps : RouterDeps)
    (req : RouterRequest) (thr : Q) (budget attempts : Z)
    (ordered : list CandidateModel) (log : list RoutingAttempt) (w : World) :
  let s := tryCandidates env deps req thr budget attempts ordered log w in
  exists added,
    stepLog s = log ++ added
    /\ map modelId added = map id (take (List.length added) ordered)
    /\ (Z.of_nat (List.length added) <= Z.max 0 (budget - attempts))%Z
    /\ (isReturn s = false ->
        List.length added
        = Nat.min (List.length ordered) (Z.to_nat (budget - attempts))).
Proof.
  cbv zeta. revert attempts log w.
  induction ordered as [|model rest IH]; intros attempts log w;
    cbn [tryCandidates].
  - exists []. rewrite app_nil_r. split_and!; try done; cbn; lia.
  - destruct (Z.leb_spec budget attempts) as [Hle|Hgt]; cbn [stepLog isReturn].
    { exists []. rewrite app_nil_r. split_and!; try done; intros; cbn [List.length]; lia. }
    destruct (attempt_effect env deps req thr model log w)
      as (a & dc & du & [Hlog Hmodel Hret _ _ _ _] & _).
    destruct (attempt env deps req thr model log w) as [log' w'|r log' w'];
      cbn [stepLog isReturn] in *; subst log'.
    + destruct (IH (attempts + 1)%Z (log ++ [a]) w') as (added & Hl & Hm & Hb & Hn).
      exists (a :: added). rewrite Hl, <- app_assoc.
      cbn [List.length take map app].
      split_and!; [done|by rewrite Hm, Hmodel|lia|].
      intros Hr. rewrite (Hn Hr). lia.
    + exists [a]. cbn [List.length take map].
      split_and!; [done|by rewrite Hmodel|lia|done].
Qed.

End CycleFacts.

Module JudgeFacts.
Import Text Heuristics Scoring Evaluator ContextFit Router RouterSpec RouterFacts.

Lemma isDigit_range c : isDigit c = true -> (48 <= Z.of_N (codeUnit c) <= 57)%Z.
Proof.
  unfold isDigit, between. rewrite andb_true_iff, !N.leb_le. lia.
Qed.

Lemma takeDigits_digits s : Forall (fun c => isDigit c = true) (takeDigits s).
Proof.
  induction s as [|c s IH]; simpl; [constructor|].
  destruct (isDigit c) eqn:E; [by constructor|constructor].
Qed.

Lemma digitsValue_bound ds : forall acc,
  Forall (fun c => isDigit c = true) ds -> (0 <= acc)%Z ->
  (0 <= digitsValue acc ds < (acc + 1) * 10 ^ Z.of_nat (List.length ds))%Z.
Proof.
  induction ds as [|d ds IH]; intros acc Hall Hacc; simpl digitsValue.
  - simpl. lia.
  - apply Forall_cons in Hall as [Hd Hall]. apply isDigit_range in Hd.
    specialize (IH (acc * 10 + (Z.of_N (codeUnit d) - 48))%Z Hall ltac:(lia)).
    cbn [List.length]. rewrite Nat2Z.inj_succ, Z.pow_succ_r by lia.
    assert (0 < 10 ^ Z.of_nat (List.length ds))%Z by (apply Z.pow_pos_nonneg; lia).
    nia.
Qed.

Lemma fraction_in_unit (v d : Z) :
  (0 <= v < d)%Z -> (0 <= inject_Z v / inject_Z d <= 1)%Q.
Proof.
  intros [H0 H1].
  assert (0 < inject_Z d)%Q as Hd.
  { change 0%Q with (inject_Z 0). rewrite <- Zlt_Qlt. lia. }
  split.
  - apply Qle_shift_div_l; [done|]. rewrite Qmult_0_l.
    change 0%Q with (inject_Z 0). rewrite <- Zle_Qle. lia.
  - apply Qle_shift_div_r; [done|]. rewrite Qmult_1_l.
    rewrite <- Zle_Qle. lia.
Qed.

Lemma judgeMatch_in_unit s q : judgeMatch s = Some q -> (0 <= q <= 1)%Q.
Proof.
  induction s as [|c s IH]; simpl; [done|].
  case_bool_decide as H0.
  - destruct s as [|dot s']; [intros [= <-]; lra|].
    destruct (bool_decide (dot = "."%char) && negb (bool_decide (takeDigits s' = [])));
      [|intros [= <-]; lra].
    intros [= <-]. apply fraction_in_unit.
    pose proof (digitsValue_bound (takeDigits s') 0 (takeDigits_digits s')
                  ltac:(lia)) as Hb.
    lia.
  - case_bool_decide as H1; [intros [= <-]; lra|]. apply IH.
Qed.

(** X8. A judged score is always a proportion, and it exists only when the
    judge is enabled, is another model than the candidate, the candidate's
    own score has reached the judge's minimum; getting it costs exactly one
    adapter call. *)
Theorem judged_score_is_a_proportion (env : Env) (deps : RouterDeps)
    (responseText : string) (req : RouterRequest) (model : CandidateModel)
    (s thr : Q) (w : World) (judged : Q) :
  fst (maybeJudgeScore env deps responseText req model s thr w) = Some judged ->
  (0 <= judged <= 1)%Q
  /\ (exists cfg,
        evaluationJudge (policies deps) = Some cfg
        /\ j_enabled cfg = true
        /\ id model <> j_modelId cfg
        /\ (default (maxQ 0 (thr - 0.2)) (j_minScore cfg) <= s)%Q)
  /\ adapterCalls (snd (maybeJudgeScore env deps responseText req model s thr w))
     = S (adapterCalls w).
Proof.
  unfold maybeJudgeScore.
  destruct (evaluationJudge (policies deps)) as [cfg|]; [|done].
  destruct (j_enabled cfg) eqn:Hen; simpl; [|done].
  case_bool_decide as Hself; [done|]. cbv zeta.
  destruct (Qltb s _) eqn:Hmin; [done|].
  destruct (List.find _ (models deps)) as [judgeModel|]; [|done].
  unfold callGenerate.
  destruct (answer (generate env (adapterCalls w) judgeModel _)) as [response|err];
    [|done].
  destruct (judgeMatch (chars (text response))) as [q|] eqn:Hq; [|done].
  simpl. intros [= <-]. split; [by eapply judgeMatch_in_unit|]. split.
  - exists cfg. split_and!; try done.
    unfold Qltb in Hmin. apply negb_false_iff in Hmin.
    by apply Qle_bool_iff in Hmin.
  - unfold adapterCalls. rewrite !countCalls_emit, countCalls_advance, countCalls_emit.
    done.
Qed.

End JudgeFacts.

Module EvaluatorFacts.
Import Text Heuristics Evaluator Router RouterFacts.

Lemma clamp01_le_1 x : (clamp01 x <= 1)%Q.
Proof.
  unfold clamp01, Qltb.
  destruct (Qle_bool 0 x) eqn:E0; simpl.
  - destruct (Qle_bool x 1) eqn:E1; simpl; [by apply Qle_bool_iff|lra].
  - lra.
Qed.

(** X9. Whatever weight and penalty the code evaluation is configured with,
    an evaluation score is a proportion; and the evaluation command is run
    once when the task is code, code evaluation is enabled and the command
    is not blank, and not at all otherwise. *)
Theorem evaluation_score_is_a_proportion (env : Env) (text : string)
    (req : RouterRequest) (cfg : option CodeEvaluationConfig)
    (opts : option HeuristicOptions) (w : World) :
  let result := evaluate env text req cfg opts w in
  (0 <= fst result <= 1)%Q
  /\ codeEvalRuns (snd result)
     = codeEvalRuns w
       + match cfg with
         | Some c =>
             if bool_decide (taskType req = Code) && ce_enabled c
                && negb (bool_decide (trim (chars (ce_command c)) = []))
             then 1 else 0
         | None => 0
         end.
Proof.
  cbv zeta. split.
  - split.
    + apply Qle_bool_iff, evaluate_nonneg.
    + unfold evaluate.
      destruct cfg as [c|]; [|apply clamp01_le_1].
      destruct (bool_decide (taskType req = Code) && ce_enabled c);
        [|apply clamp01_le_1].
      destruct (runCodeEvaluation env c w). apply clamp01_le_1.
  - unfold evaluate.
    destruct cfg as [c|]; [|simpl; lia].
    destruct (bool_decide (taskType req = Code) && ce_enabled c); simpl;
      [|lia].
    unfold runCodeEvaluation. cbv zeta.
    case_bool_decide as Hblank; simpl; [lia|].
    destruct (spawn env (codeEvalRuns w) (ce_command c)) as [duration exitCode].
    simpl. unfold codeEvalRuns.
    rewrite countCalls_advance, countCalls_emit. simpl. lia.
Qed.

End EvaluatorFacts.

Module FitFacts.
Import ContextFit ContextFitSpec ContextFitFacts FitSpec.

Lemma dropNonSystem_sublist k msgs : sublist (dropNonSystem k msgs) msgs.
Proof.
  revert k. induction msgs as [|m msgs IH]; intros k; [by rewrite dropNonSystem_nil|].
  destruct k; [by rewrite dropNonSystem_0|]. simpl.
  destruct (nonSystem m).
  - apply sublist_cons, IH.
  - apply sublist_skip, IH.
Qed.

Lemma dropNonSystem_length k msgs :
  List.length (dropNonSystem k msgs)
  = List.length msgs - Nat.min k (nonSystemCount msgs).
Proof.
  unfold nonSystemCount.
  revert k. induction msgs as [|m msgs IH]; intros k; [by rewrite dropNonSystem_nil|].
  destruct k; [rewrite dropNonSystem_0; simpl; lia|].
  cbn [dropNonSystem List.filter List.length].
  destruct (nonSystem m); cbn [List.length]; rewrite IH.
  - lia.
  - pose proof (List.filter_length nonSystem msgs). lia.
Qed.

Lemma dropNonSystem_beyond k msgs :
  nonSystemCount msgs <= k -> dropNonSystem k msgs = systemOnly msgs.
Proof.
  unfold nonSystemCount.
  revert k. induction msgs as [|m msgs IH]; intros k Hk; [by rewrite dropNonSystem_nil|].
  simpl in Hk. destruct (nonSystem m) eqn:Hm; simpl in Hk.
  - destruct k; [lia|]. simpl. rewrite Hm. simpl. apply IH. lia.
  - assert (systemOnly (m :: msgs) = m :: systemOnly msgs) as ->.
    { unfold systemOnly. simpl. by rewrite Hm. }
    destruct k.
    + rewrite dropNonSystem_0. f_equal.
      rewrite <- (dropNonSystem_0 msgs) at 1. apply IH. lia.
    + cbn [dropNonSystem]. rewrite Hm. f_equal. apply IH. lia.
Qed.

Lemma fit_is_fitLoop msgs ctx out :
  fitMessagesToContext msgs ctx out = fitLoop ctx out msgs (totalChars msgs) 0.
Proof.
  unfold fitMessagesToContext. cbv zeta. f_equal.
  rewrite foldl_sumLengths. unfold totalChars.
  destruct msgs as [|m [|m' msgs]]; simpl; lia.
Qed.

(** X10. Fitting only ever removes non-system messages: what it returns
    is a sublist of the request's messages in their order, with every
    system message still there, and [trimmedCount] is the number of
    messages that are gone.  Messages that fit as they are come back
    untouched with a count of [0]. *)
Theorem fitting_only_drops_non_system_messages (msgs : list Message)
    (ctx out : Z) :
  (forall f, fitMessagesToContext msgs ctx out = Some f ->
     sublist (fittedMessages f) msgs
     /\ systemOnly (fittedMessages f) = systemOnly msgs
     /\ (Z.of_nat (List.length (fittedMessages f)) + trimmedCount f
         = Z.of_nat (List.length msgs))%Z)
  /\ ((estimatedTokens msgs out <= ctx)%Z ->
      fitMessagesToContext msgs ctx out
      = Some {| fittedMessages := msgs; trimmedCount := 0 |}).
Proof.
  pose proof (fitLoop_spec ctx out msgs (totalChars msgs) 0 eq_refl) as Hloop.
  rewrite <- fit_is_fitLoop in Hloop. split.
  - intros f Hf. rewrite Hf in Hloop.
    destruct Hloop as (k & Hm & Hc & Hle & Hmin).
    rewrite Hm. split; [apply dropNonSystem_sublist|].
    split; [apply systemOnly_drop|].
    rewrite dropNonSystem_length, Hc.
    assert (k <= nonSystemCount msgs) as Hk.
    { destruct (decide (k <= nonSystemCount msgs)) as [|Hgt]; [done|]. exfalso.
      specialize (Hmin (nonSystemCount msgs) ltac:(lia)).
      rewrite (dropNonSystem_beyond (nonSystemCount msgs)) in Hmin by lia.
      rewrite (dropNonSystem_beyond k) in Hle by lia. lia. }
    pose proof (List.filter_length nonSystem msgs). unfold nonSystemCount in *.
    lia.
  - intros Hfits.
    destruct (fitMessagesToContext msgs ctx out) as [f|].
    + destruct Hloop as (k & Hm & Hc & _ & Hmin).
      destruct k as [|k].
      * rewrite dropNonSystem_0 in Hm. destruct f. simpl in *. by subst.
      * specialize (Hmin 0 ltac:(lia)). rewrite dropNonSystem_0 in Hmin. lia.
    + specialize (Hloop 0). rewrite dropNonSystem_0 in Hloop. lia.
Qed.

End FitFacts.

Module HandlerExtraFacts.
Import Text Heuristics TaskInference Router RouterSpec RouterFacts Handler.

(** X11. A quality-threshold header that parses as a number always yields
    a threshold between 0 and 1: a value in [0,1] is taken as it is, a
    value above 1 is read on a five-point scale and capped at 1, and a
    negative value becomes 0. *)
Theorem threshold_header_is_normalised (Number : string -> option Q)
    (v : string) (x : Q) :
  v <> EmptyString -> Number v = Some x ->
  exists q,
    parseThreshold Number (Some v) = Some q
    /\ (0 <= q <= 1)%Q
    /\ ((0 <= x <= 1)%Q -> (q == x)%Q)
    /\ ((1 < x <= 5)%Q -> (q == x / 5)%Q)
    /\ ((5 <= x)%Q -> (q == 1)%Q)
    /\ ((x <= 0)%Q -> (q == 0)%Q).
Proof.
  intros Hv Hx. unfold parseThreshold.
  destruct v as [|c v]; [done|]. simpl truthyString. cbv iota beta. rewrite Hx.
  unfold Qltb, minQ, maxQ.
  destruct (Qle_bool x 1) eqn:E1; simpl.
  - apply Qle_bool_iff in E1.
    destruct (Qle_bool x 0) eqn:E0.
    + apply Qle_bool_iff in E0. eexists. split; [reflexivity|].
      split_and!; intros; lra.
    + assert (0 < x)%Q.
      { destruct (Qlt_le_dec 0 x) as [|Hle]; [done|].
        apply Qle_bool_iff in Hle. congruence. }
      eexists. split; [reflexivity|]. split_and!; intros; lra.
  - assert (1 < x)%Q.
    { destruct (Qlt_le_dec 1 x) as [|Hle]; [done|].
      apply Qle_bool_iff in Hle. congruence. }
    destruct (Qle_bool (x / 5) 1) eqn:E5.
    + apply Qle_bool_iff in E5.
      assert (x / 5 == x * (1 # 5))%Q as Hdiv by (by field).
      eexists. split; [reflexivity|]. rewrite Hdiv in *.
      split_and!; intros; lra.
    + assert (1 < x / 5)%Q as H5.
      { destruct (Qlt_le_dec 1 (x / 5)) as [|Hle]; [done|].
        apply Qle_bool_iff in Hle. congruence. }
      assert (x / 5 == x * (1 # 5))%Q as Hdiv by (by field).
      rewrite Hdiv in H5.
      eexists. split; [reflexivity|]. rewrite ?Hdiv.
      split_and!; intros; lra.
Qed.

Lemma taskOfString_taskKey t : taskOfString (taskKey t) = Some t.
Proof. by destruct t. Qed.

Lemma taskKey_nonempty t : taskKey t <> EmptyString.
Proof. by destruct t. Qed.

(** X12. The task type of a request is the one its header names, in any
    letter case; a header that names none gives way to the body's
    [task_type], read the same way; and only when neither names a task is
    the type inferred from the text. *)
Theorem task_type_header_then_body_then_text (header bodyTaskType : option string)
    (text : string) :
  (forall h t, header = Some h -> lowerString h = taskKey t ->
     normalizeTaskType header bodyTaskType text = t)
  /\ (forall s t,
        (truthyString (lowerString <$> header)) ≫= taskOfString = None ->
        bodyTaskType = Some s -> lowerString s = taskKey t ->
        normalizeTaskType header bodyTaskType text = t)
  /\ ((truthyString (lowerString <$> header)) ≫= taskOfString = None ->
      bodyTaskType ≫= (fun s => taskOfString (lowerString s)) = None ->
      normalizeTaskType header bodyTaskType text = inferTaskType text).
Proof.
  unfold normalizeTaskType. split_and!.
  - intros h t -> Hh. simpl. rewrite Hh.
    pose proof (taskKey_nonempty t).
    destruct (taskKey t) eqn:E; [done|]. simpl. rewrite <- E.
    by rewrite taskOfString_taskKey.
  - intros s t -> -> Hs. simpl. by rewrite Hs, taskOfString_taskKey.
  - by intros -> ->.
Qed.

Lemma isAdminAuthorized_spec penv req :
  isAdminAuthorized penv req = true <->
  exists token,
    token <> EmptyString /\ ADMIN_TOKEN penv = Some token
    /\ headers req !! "x-router-admin-token"%string = Some token.
Proof.
  unfold isAdminAuthorized.
  destruct (ADMIN_TOKEN penv) as [[|c token]|]; simpl.
  - split; [done|]. intros (t & Hne & [= <-] & _). done.
  - rewrite bool_decide_eq_true. split.
    + intros H. by exists (String c token).
    + by intros (t & _ & [= <-] & H).
  - split; [done|]. by intros (t & _ & ? & _).
Qed.

(** X13. Resuming is allowed when [ALLOW_INSECURE_RESUME] is exactly
    [true], or a non-empty [ADMIN_TOKEN] is configured and the request
    carries it; every other request that asks to resume is answered 401
    before anything is routed, so no store and no adapter sees it. *)
Theorem resume_needs_authorisation (Number : string -> option Q)
    (createRequestId : string -> Z -> string) (penv : ProcessEnv)
    (req : HttpRequest) :
  (isResumeAuthorized penv req = true <->
   ALLOW_INSECURE_RESUME penv = Some "true"%string
   \/ exists token,
        token <> EmptyString /\ ADMIN_TOKEN penv = Some token
        /\ headers req !! "x-router-admin-token"%string = Some token)
  /\ (forall fuel env deps b w,
        body req = Some b -> b_messages b <> [] ->
        parseBoolean (headers req !! "x-router-resume"%string) = true ->
        isResumeAuthorized penv req = false ->
        handle Number createRequestId fuel env deps penv req w
        = Some (jsonResponse
                  (ErrorJson "unauthorized" "Resume requires admin token" None) 401,
                w)).
Proof.
  split.
  - unfold isResumeAuthorized. case_bool_decide as Hins.
    + split; [by left|done].
    + rewrite isAdminAuthorized_spec. split; [by right|].
      by intros [?|?].
  - intros fuel env deps b w Hb Hm Hres Hauth. unfold handle. rewrite Hb.
    destruct (b_messages b) as [|m ms] eqn:Hms; [done|].
    cbn [List.length Nat.eqb]. cbv zeta.
    unfold routerRequestOf at 1. cbn [resume]. by rewrite Hres, Hauth.
Qed.

Lemma route_throws_only_NoSuitableModel fuel env deps req w e log w' :
  route fuel env deps req w = Some (Threw e, log, w') ->
  e = NoSuitableModelError 10000.
Proof.
  unfold route. cbv zeta.
  destruct (resumeHit req w) as [[r wr]|]; [done|].
  intros Hrun.
  eapply (routeLoop_effect _ _ _ _ _ _ _ _ _ w) in Hrun as [_ Hset];
    [|split; [lia|simpl; lia]|by constructor].
  simpl in Hset. by destruct Hset.
Qed.

(** X14. From the decoded body on the handler answers 200, 400, 401, 500
    or 503; a request that it refuses with 400 or 401 leaves the world
    exactly as it was, so nothing was routed, stored or sent to a provider;
    and a 503 always carries the code [no_suitable_model_available] with a
    retry hint of 10000 ms. *)
Theorem refused_requests_leave_no_trace (Number : string -> option Q)
    (createRequestId : string -> Z -> string) (fuel : nat) (env : Env)
    (deps : RouterDeps) (penv : ProcessEnv) (req : HttpRequest) (w : World)
    (resp : HttpResponse) (w' : World) :
  handle Number createRequestId fuel env deps penv req w = Some (resp, w') ->
  (status resp = 200 \/ status resp = 400 \/ status resp = 401
   \/ status resp = 500 \/ status resp = 503)%Z
  /\ ((status resp = 400 \/ status resp = 401)%Z -> w' = w)
  /\ (status resp = 503%Z ->
      payload resp
      = ErrorJson "no_suitable_model_available"
          "No suitable model available before timeout" (Some 10000%Z)).
Proof.
  unfold handle.
  destruct (body req) as [b|]; [|intros [= <- <-]; simpl; split_and!; auto; lia].
  destruct (List.length (b_messages b) =? 0);
    [intros [= <- <-]; simpl; split_and!; auto; lia|].
  cbv zeta.
  destruct (resume _ && negb _);
    [intros [= <- <-]; simpl; split_and!; auto; lia|].
  destruct (bool_decide (endpoint req = Responses) && stream _);
    [intros [= <- <-]; simpl; split_and!; auto; lia|].
  destruct (route fuel env deps _ w) as [[[outcome log] w1]|] eqn:Hroute; [|done].
  intros [= <- <-].
  destruct outcome as [[response m meta|stream m meta]|e].
  - unfold respond. destruct (bool_decide _); simpl; split_and!; auto; lia.
  - unfold respond. simpl. split_and!; auto; lia.
  - apply route_throws_only_NoSuitableModel in Hroute as ->. simpl.
    split_and!; auto; lia.
Qed.

End HandlerExtraFacts.

Module StreamFacts.
Import Stream.

Lemma slice_inside text index size :
  (0 <= index < Z.of_nat (List.length text))%Z -> (0 < size)%Z ->
  slice text index (index + size)
  = take (Z.to_nat size) (drop (Z.to_nat index) text).
Proof.
  intros Hi Hs. unfold slice, relativeIndex. cbv zeta.
  destruct (Z.ltb_spec index 0) as [|_]; [lia|].
  destruct (Z.ltb_spec (index + size) 0) as [|_]; [lia|].
  rewrite (Z.min_l index) by lia.
  destruct (Z.le_gt_cases (index + size) (Z.of_nat (List.length text))) as [Hle|Hgt].
  - rewrite Z.min_l by lia. f_equal. lia.
  - rewrite Z.min_r by lia.
    rewrite !take_ge; [done| |]; rewrite length_drop; lia.
Qed.

(** The loop from a position inside the text, with enough fuel. *)
Lemma splitLoop_spec text size : (0 < size)%Z ->
  forall fuel index (chunks : list (list ascii)),
    (0 <= index)%Z ->
    (Z.max 0 (Z.of_nat (List.length text) - index) < Z.of_nat fuel)%Z ->
    exists rest,
      splitLoop fuel text size index chunks = Some (chunks ++ rest)%list
      /\ List.concat rest = drop (Z.to_nat index) text
      /\ Forall (fun c => 0 < List.length c <= Z.to_nat size) rest
      /\ (Z.of_nat (List.length rest)
          = Z.max 0 ((Z.of_nat (List.length text) - index + size - 1) / size))%Z
      /\ Forall (fun c => List.length c = Z.to_nat size)
           (take (pred (List.length rest)) rest).
Proof.
  intros Hs. induction fuel as [|fuel IH]; intros index chunks Hi Hf; [lia|].
  cbn [splitLoop].
  destruct (Z.ltb_spec index (Z.of_nat (List.length text))) as [Hlt|Hge].
  - destruct (IH (index + size)%Z
                (chunks ++ [slice text index (index + size)%Z]))
      as (rest & Hrun & Hcat & Hall & Hlen & Hfull); [lia|lia|].
    exists (slice text index (index + size)%Z :: rest).
    rewrite Hrun, <- app_assoc. split; [done|].
    rewrite slice_inside by lia.
    assert (Z.to_nat (index + size) = Z.to_nat index + Z.to_nat size) as Hsum by lia.
    split_and!.
    + simpl. rewrite Hcat, Hsum, <- drop_drop. apply take_drop.
    + constructor; [|done]. rewrite length_take, length_drop. lia.
    + cbn [List.length]. rewrite Nat2Z.inj_succ, Hlen.
      replace (Z.of_nat (List.length text) - index + size - 1)%Z
        with ((Z.of_nat (List.length text) - (index + size) + size - 1) + 1 * size)%Z
        by lia.
      rewrite Z.div_add by lia.
      assert (0 <= (Z.of_nat (List.length text) - (index + size) + size - 1) / size
              \/ Z.of_nat (List.length text) - (index + size) + size - 1 < 0)%Z
        as [Hnn|Hneg].
      { destruct (Z.le_gt_cases 0
           (Z.of_nat (List.length text) - (index + size) + size - 1)) as [H|H];
          [left; by apply Z.div_pos|right; lia]. }
      * lia.
      * assert ((Z.of_nat (List.length text) - (index + size) + size - 1) / size
                = -1)%Z as ->.
        { symmetry. apply (Z.div_unique _ _ _
            (Z.of_nat (List.length text) - (index + size) + size - 1 + size)%Z);
            lia. }
        lia.
    + cbn [List.length pred]. destruct rest as [|c rest']; [constructor|].
      cbn [List.length take]. constructor.
      * rewrite length_take, length_drop.
        assert (Z.to_nat index + Z.to_nat size < List.length text).
        { rewrite <- Hsum.
          apply (f_equal (@List.length _)) in Hcat.
          rewrite length_drop in Hcat. simpl in Hcat. rewrite length_app in Hcat.
          apply Forall_cons in Hall as [[Hc _] _]. lia. }
        lia.
      * exact Hfull.
  - exists []. rewrite app_nil_r. split; [done|].
    split_and!.
    + simpl. rewrite drop_ge by lia. done.
    + constructor.
    + simpl. assert ((Z.of_nat (List.length text) - index + size - 1) / size < 1)%Z.
      { apply Z.div_lt_upper_bound; lia. }
      lia.
    + constructor.
Qed.

(** X15. With a positive chunk size [splitText] ends within one iteration
    per code unit, and its chunks put back together are the text: none is
    empty or longer than the size, every chunk but the last has exactly
    the size, and there are [ceil (length / size)] of them. *)
Theorem chunks_put_together_are_the_text (text : list ascii) (size : Z) :
  (0 < size)%Z ->
  exists chunks,
    splitText (S (List.length text)) text size = Some chunks
    /\ List.concat chunks = text
    /\ Forall (fun c => 0 < List.length c <= Z.to_nat size) chunks
    /\ Forall (fun c => List.length c = Z.to_nat size)
         (take (pred (List.length chunks)) chunks)
    /\ (Z.of_nat (List.length chunks)
        = (Z.of_nat (List.length text) + size - 1) / size)%Z.
Proof.
  intros Hs. unfold splitText.
  destruct (splitLoop_spec text size Hs (S (List.length text)) 0 [])
    as (rest & Hrun & Hcat & Hall & Hlen & Hfull); [lia|lia|].
  exists rest. split; [exact Hrun|]. split; [exact Hcat|]. split; [done|].
  split; [done|].
  rewrite Hlen, Z.sub_0_r.
  assert (0 <= (Z.of_nat (List.length text) + size - 1) / size)%Z
    by (apply Z.div_pos; lia).
  lia.
Qed.

Lemma splitLoop_stuck text size : (size <= 0)%Z ->
  forall fuel index (chunks : list (list ascii)),
    (index < Z.of_nat (List.length text))%Z ->
    splitLoop fuel text size index chunks = None.
Proof.
  intros Hs. induction fuel as [|fuel IH]; intros index chunks Hi; [done|].
  cbn [splitLoop].
  destruct (Z.ltb_spec index (Z.of_nat (List.length text))); [|lia].
  apply IH. lia.
Qed.

(** X16. With a chunk size of zero or less [splitText] never ends on a
    text that is not empty: however many iterations it is given, it is
    still in its loop.  The router hands a configured chunk size on as it
    is, a size of [0] included. *)
Theorem nonpositive_chunk_size_never_ends (txt : list ascii) (size : Z)
    (fuel : nat) :
  (size <= 0)%Z -> txt <> [] ->
  splitText fuel txt size = None
  /\ streamFromText fuel txt
       (Some {| o_chunkSize := Some size; o_delayMs := None |}) = None
  /\ (forall req deps model response log w str,
        stream req = true -> Router.hasItems (toolCalls response) = false ->
        streaming (Router.policies deps) = Some str ->
        chunkSize str = Some size ->
        exists delay meta,
          fst (Router.finalizeResult req deps model response log w)
          = Router.StreamResult
              (Router.ChunkedText (text response) size delay) (id model) meta).
Proof.
  intros Hs Hne.
  assert (splitText fuel txt size = None) as Hsplit.
  { apply splitLoop_stuck; [done|]. destruct txt; [done|]. simpl. lia. }
  split; [exact Hsplit|]. split.
  - unfold streamFromText. simpl. by rewrite Hsplit.
  - intros req deps model response log w str Hstream Hno Hstr Hsize.
    unfold Router.finalizeResult. cbv zeta. rewrite Hstream, Hno, Hstr. simpl.
    rewrite Hsize. simpl. by eexists _, _.
Qed.

End StreamFacts.

Module AdapterErrorsFacts.
Import Text Router RouterSpec RouterFacts AdapterErrors AdapterErrorsSpec.

Lemma get_markDegraded m ms w :
  degradedUntil (HealthStore.get m (HealthStore.markDegraded m ms w))
  = (now w + ms)%Z.
Proof.
  unfold HealthStore.get at 1. unfold HealthStore.markDegraded. simpl.
  by rewrite lookup_insert_eq.
Qed.

(** X17. A provider failure whose message speaks of the context window is
    a permanent [context_length_exceeded] error whatever its status, a 429
    included, and carries no retry hint; the router answers such an error
    by logging a permanent attempt and degrading the model for 60
    seconds. *)
Theorem context_failures_outrank_the_status (Number : string -> option Q)
    (f : ProviderFailure) :
  mentionsContext (messageOf f) = true ->
  normalizeAdapterError Number (Another f)
  = {| ne_type := PERMANENT; ne_message := "context_length_exceeded";
       ne_retryAfterMs := None |}
  /\ (forall req model attemptStart e log w,
        errType e = ne_type (normalizeAdapterError Number (Another f)) ->
        errMessage e = ne_message (normalizeAdapterError Number (Another f)) ->
        exists w',
          handleError req model attemptStart (ThrowAdapter e) log w
          = Continue (log ++ [attemptOf model permanent None]) w'
          /\ degradedUntil (HealthStore.get (id model) w') = (now w + 60000)%Z).
Proof.
  intros Hctx.
  assert (normalizeAdapterError Number (Another f)
          = {| ne_type := PERMANENT; ne_message := "context_length_exceeded";
               ne_retryAfterMs := None |}) as Hn.
  { unfold normalizeAdapterError, messageOf in *. cbv zeta. by rewrite Hctx. }
  split; [exact Hn|]. rewrite Hn. simpl.
  intros req model attemptStart e log w Ht Hm.
  unfold handleError. rewrite Ht, Hm. cbv zeta.
  rewrite bool_decide_eq_true_2 by done.
  eexists. split; [reflexivity|].
  rewrite get_recordAttempt, get_health_recordResult. simpl.
  change (HealthStore.get (id model) (emit ?c ?x))
    with (HealthStore.get (id model) x).
  apply get_markDegraded.
Qed.

(** X18. Failures that do not speak of the context window are classified
    by their status alone, [statusCode] standing in when [status] is
    absent: 429 is a rate limit, 402 an exceeded quota, 500 and above
    transient, everything else permanent; only a rate limit ever carries a
    retry hint; and an error that is already classified is left as it
    is. *)
Theorem failures_are_classified_by_status (Number : string -> option Q)
    (f : ProviderFailure) :
  let n := normalizeAdapterError Number (Another f) in
  (mentionsContext (messageOf f) = false ->
     (ne_type n = RATE_LIMIT <-> effectiveStatus f = Some 429%Z)
     /\ (ne_type n = QUOTA_EXCEEDED <-> effectiveStatus f = Some 402%Z)
     /\ (ne_type n = TRANSIENT <->
         exists s, effectiveStatus f = Some s /\ (500 <= s)%Z)
     /\ ne_message n = messageOf f)
  /\ (ne_retryAfterMs n <> None -> ne_type n = RATE_LIMIT)
  /\ normalizeAdapterError Number (AnAdapterError n) = n.
Proof.
  cbv zeta. split; [|split; [|done]].
  - intros Hctx. unfold normalizeAdapterError, messageOf, effectiveStatus in *.
    cbv zeta. rewrite Hctx.
    set (status := match f_status f with Some s => Some s | None => f_statusCode f end).
    clearbody status.
    assert (forall P : Z -> Prop, (exists s, @None Z = Some s /\ P s) -> False)
      as Hnone by (by intros P (s & ? & _)).
    case_bool_decide as H429.
    { subst status. simpl. split_and!; try done.
      split; [done|]. intros (s & [= <-] & ?). lia. }
    case_bool_decide as H402.
    { subst status. simpl. split_and!; try done.
      split; [done|]. intros (s & [= <-] & ?). lia. }
    destruct status as [s|]; simpl.
    + destruct (Z.eqb_spec s 0) as [->|Hnz]; simpl.
      * split_and!; try done. split; [done|]. intros (s & [= <-] & ?). lia.
      * destruct (Z.leb_spec 500 s); simpl.
        -- split_and!; try done. split; [|done]. intros _. by exists s.
        -- split_and!; try done. split; [done|]. intros (s' & [= <-] & ?). lia.
    + split_and!; try done. split; [done|]. intros He. by apply Hnone in He.
  - unfold normalizeAdapterError. cbv zeta.
    destruct (mentionsContext _); [done|].
    case_bool_decide; [done|]. case_bool_decide; [done|].
    by destruct (match _ with Some s => _ | None => false end).
Qed.

End AdapterErrorsFacts.

Module SessionFacts.
Import Text Heuristics Scoring Evaluator ContextFit Router RouterSpec RouterFacts
  SessionSpec.

Lemma SessionGained_refl req w : SessionGained req w w [].
Proof.
  unfold SessionGained. destruct (sessions w) as [store|]; [|done].
  exists store. by rewrite app_nil_r.
Qed.

Lemma SessionGained_trans req w1 w2 w3 l1 l2 :
  SessionGained req w1 w2 l1 -> SessionGained req w2 w3 l2 ->
  SessionGained req w1 w3 (l1 ++ l2).
Proof.
  unfold SessionGained. destruct (sessions w1) as [s1|].
  - intros (s2 & -> & Ho2 & Ha2) (s3 & -> & Ho3 & Ha3).
    exists s3. split; [done|]. split.
    + intros r Hr. by rewrite Ho3, Ho2.
    + by rewrite Ha3, Ha2, app_assoc.
  - by intros -> ?.
Qed.

(** Steps that leave the session store alone. *)
Lemma SessionGained_before req w w1 w' l :
  sessions w1 = sessions w -> SessionGained req w1 w' l -> SessionGained req w w' l.
Proof. unfold SessionGained. by intros ->. Qed.

Lemma SessionGained_after req w w1 w' l :
  sessions w' = sessions w1 -> SessionGained req w w1 l -> SessionGained req w w' l.
Proof. unfold SessionGained. by intros ->. Qed.

Lemma SessionGained_recordAttempt req a w :
  SessionGained req w
    (SessionStore.recordAttempt (requestId req) (taskType req) a w) [a].
Proof.
  unfold SessionGained, SessionStore.recordAttempt, attemptsIn.
  destruct (sessions w) as [store|] eqn:E; [|done]. simpl.
  eexists. split; [done|]. split.
  - intros r Hr. by rewrite lookup_insert_ne.
  - by rewrite lookup_insert_eq.
Qed.

Lemma SessionGained_recordResult req m x w :
  SessionGained req w
    (SessionStore.recordResult (requestId req) (taskType req) m x w) [].
Proof.
  unfold SessionGained, SessionStore.recordResult, attemptsIn.
  destruct (sessions w) as [store|] eqn:E; [|done]. simpl.
  eexists. split; [done|]. split.
  - intros r Hr. by rewrite lookup_insert_ne.
  - rewrite lookup_insert_eq. simpl. by rewrite app_nil_r.
Qed.

Lemma sessions_evaluate env t req cfg opts w :
  sessions (snd (evaluate env t req cfg opts w)) = sessions w.
Proof.
  unfold evaluate. destruct cfg as [cfg|]; [|done].
  destruct (bool_decide (taskType req = Code) && ce_enabled cfg); [|done].
  unfold runCodeEvaluation. case_bool_decide; [done|].
  by destruct (spawn env _ _).
Qed.

Lemma sessions_maybeJudgeScore env deps t req model s thr w :
  sessions (snd (maybeJudgeScore env deps t req model s thr w)) = sessions w.
Proof. unfold maybeJudgeScore. repeat (case_match; simpl; try done). Qed.

Lemma finalizeResult_session req deps model response log w :
  let out := finalizeResult req deps model response log w in
  SessionGained req w (snd out) [] /\ Recorded req (fst out) (snd out).
Proof.
  cbv zeta. unfold finalizeResult. cbv zeta.
  set (w1 := if (0 <? _)%Z then _ else w).
  assert (sessions w1 = sessions w) as Hw1.
  { subst w1. by destruct (0 <? _)%Z. }
  clearbody w1.
  assert (forall w2 : World, sessions w2 = sessions w ->
            forall store,
              sessions (SessionStore.recordResult (requestId req) (taskType req)
                          (id model) (text response) w2) = Some store ->
              exists s, store !! requestId req = Some s
                /\ s_complete s = true
                /\ s_responseText s = Some (text response)
                /\ s_selectedModelId s = Some (id model)) as Hrec.
  { intros w2 _ store. unfold SessionStore.recordResult.
    destruct (sessions w2) as [st|] eqn:Hst; simpl.
    - intros [= <-]. eexists. rewrite lookup_insert_eq. done.
    - by rewrite Hst. }
  destruct (stream req && negb (hasItems (toolCalls response))); simpl.
  - split.
    + eapply SessionGained_before; [exact Hw1|].
      eapply SessionGained_after; [|apply SessionGained_recordResult]. done.
    + intros store Hs. by apply (Hrec w1).
  - set (w2 := if stream req && hasItems (toolCalls response) then _ else w1).
    assert (sessions w2 = sessions w1) as Hw2.
    { subst w2. by destruct (stream req && hasItems (toolCalls response)). }
    clearbody w2. split.
    + eapply SessionGained_before; [by rewrite Hw2|].
      eapply SessionGained_after; [|apply SessionGained_recordResult]. done.
    + intros store Hs. apply (Hrec w2); [congruence|exact Hs].
Qed.

Lemma accept_session req deps model response ok latency sc log w :
  exists r w',
    accept req deps model response ok latency sc log w
    = Return r (log ++ [attemptOf model success (Some sc)]) w'
    /\ SessionGained req w w' [attemptOf model success (Some sc)]
    /\ Recorded req r w'.
Proof.
  unfold accept, pushAndRecord.
  pose proof (finalizeResult_session req deps model response
                (log ++ [attemptOf model success (Some sc)])
                (SessionStore.recordAttempt (requestId req) (taskType req)
                   (attemptOf model success (Some sc))
                   (HealthStore.recordResult (id model) ok (Some latency) w)))
    as [Hg Hr].
  destruct (finalizeResult _ _ _ _ _ _) as [r w']. simpl in Hg, Hr.
  exists r, w'. split; [done|]. split; [|done].
  change [attemptOf model success (Some sc)]
    with ([attemptOf model success (Some sc)] ++ []).
  eapply SessionGained_trans; [|exact Hg].
  eapply SessionGained_before; [|apply SessionGained_recordAttempt]. done.
Qed.

Lemma handleError_session req model start err log w :
  exists a w',
    handleError req model start err log w = Continue (log ++ [a]) w'
    /\ SessionGained req w w' [a].
Proof.
  unfold handleError.
  destruct err as [e|msg]; [destruct (errType e)|]; cbv zeta;
    (eexists _, _; split; [reflexivity|]);
    try (eapply SessionGained_after;
         [|eapply SessionGained_before; [|apply SessionGained_recordAttempt]];
         [reflexivity|]; try done; by case_bool_decide).
  all: eapply SessionGained_before; [|apply SessionGained_recordAttempt]; done.
Qed.

Lemma attempt_session env deps req thr model log w :
  exists a,
    stepLog (attempt env deps req thr model log w) = log ++ [a]
    /\ SessionGained req w (stepWorld (attempt env deps req thr model log w)) [a]
    /\ forall r l' w', attempt env deps req thr model log w = Return r l' w' ->
                       Recorded req r w'.
Proof.
  unfold attempt. cbv zeta.
  destruct (fitMessagesToContext _ _ _) as [fitted|].
  2: { unfold pushAndRecord. eexists. split; [done|]. split; [|done]. simpl.
       eapply SessionGained_after; [|apply SessionGained_recordAttempt]. done. }
  set (w0 := if (0 <? trimmedCount fitted)%Z then _ else w).
  assert (sessions w0 = sessions w) as H0.
  { subst w0. by destruct (0 <? trimmedCount fitted)%Z. }
  clearbody w0.
  destruct (stream req && allowDegrade req).
  - unfold callStream. simpl.
    destruct (answer (openStream env _ _ _)) as [providerStream|err].
    + unfold pushAndRecord. eexists. split; [done|]. simpl. split.
      * eapply SessionGained_before; [|apply SessionGained_recordAttempt]. done.
      * intros r l' w' [= <- _ _]. by intros store _.
    + match goal with
      | |- context [handleError ?r ?m ?st ?e ?l ?w1] =>
          destruct (handleError_session r m st e l w1) as (a & w' & -> & Hg)
      end.
      exists a. split; [done|]. split; [|done]. simpl.
      eapply SessionGained_before; [|exact Hg]. done.
  - unfold callGenerate. simpl.
    set (w1 := advance _ (emit _ w0)).
    assert (sessions w1 = sessions w) as H1 by done.
    clearbody w1.
    destruct (answer (generate env _ _ _)) as [response|err].
    2: { destruct (handleError_session req model (now w) err log w1)
           as (a & w' & -> & Hg).
         exists a. split; [done|]. split; [|done]. simpl.
         eapply SessionGained_before; [|exact Hg]. done. }
    destruct (evaluate env (text response) req _ _ w1) as [sc w2] eqn:He.
    assert (sessions w2 = sessions w) as H2.
    { replace w2 with (snd (evaluate env (text response) req
                              (codeEvaluation (policies deps))
                              (Some {| hasToolCalls := Some (hasItems (toolCalls response)) |})
                              w1)) by (by rewrite He).
      by rewrite sessions_evaluate. }
    clear He.
    assert (forall wx ok lat sc',
      sessions wx = sessions w ->
      exists a,
        stepLog (accept req deps model response ok lat sc' log wx) = log ++ [a]
        /\ SessionGained req w
             (stepWorld (accept req deps model response ok lat sc' log wx)) [a]
        /\ forall r l' w',
             accept req deps model response ok lat sc' log wx = Return r l' w' ->
             Recorded req r w') as Haccept.
    { intros wx ok lat sc' Hx.
      destruct (accept_session req deps model response ok lat sc' log wx)
        as (r & w' & -> & Hg & Hr).
      eexists. split; [done|]. simpl. split.
      - eapply SessionGained_before; [|exact Hg]. done.
      - by intros r' l' w'' [= <- _ <-]. }
    destruct (allowDegrade req); [by apply Haccept|].
    destruct (Qle_bool thr sc); [by apply Haccept|].
    destruct (maybeJudgeScore env deps (text response) req model sc thr w2)
      as [judged w3] eqn:Hj.
    assert (sessions w3 = sessions w) as H3.
    { replace w3 with (snd (maybeJudgeScore env deps (text response) req model sc thr w2))
        by (by rewrite Hj).
      by rewrite sessions_maybeJudgeScore. }
    clear Hj.
    assert (forall lat, exists a,
      log ++ [attemptOf model eval_fail (Some sc)] = log ++ [a]
      /\ SessionGained req w
           (HealthStore.markDegraded (id model) 30000
              (emit (Log router_eval_fail (id model))
                 (SessionStore.recordAttempt (requestId req) (taskType req)
                    (attemptOf model eval_fail (Some sc))
                    (HealthStore.recordResult (id model) false (Some lat) w3))))
           [a]) as Hfail.
    { intros lat. eexists. split; [done|].
      eapply SessionGained_after;
        [|eapply SessionGained_before; [|apply SessionGained_recordAttempt]];
        done. }
    destruct judged as [judgedScore|].
    + destruct (Qle_bool thr judgedScore); [by apply Haccept|].
      edestruct Hfail as (a & Hl & Hg).
      exists a. simpl. split; [exact Hl|]. split; [exact Hg|done].
    + edestruct Hfail as (a & Hl & Hg).
      exists a. simpl. split; [exact Hl|]. split; [exact Hg|done].
Qed.

Lemma tryCandidates_session env deps req thr budget ordered :
  forall attempts log w,
    let s := tryCandidates env deps req thr budget attempts ordered log w in
    exists added,
      stepLog s = log ++ added
      /\ SessionGained req w (stepWorld s) added
      /\ forall r l' w', s = Return r l' w' -> Recorded req r w'.
Proof.
  induction ordered as [|model rest IH]; intros attempts log w; cbn [tryCandidates].
  - exists []. rewrite app_nil_r. split; [done|].
    split; [apply SessionGained_refl|done].
  - destruct (budget <=? attempts)%Z.
    { exists []. rewrite app_nil_r. split; [done|].
      split; [apply SessionGained_refl|done]. }
    destruct (attempt_session env deps req thr model log w) as (a & Hl & Hg & Hr).
    destruct (attempt env deps req thr model log w) as [log1 w1|r log1 w1];
      cbn [stepLog stepWorld] in *; subst log1.
    + destruct (IH (attempts + 1)%Z (log ++ [a]) w1) as (added & Hl' & Hg' & Hr').
      exists (a :: added). rewrite Hl', <- app_assoc. split; [done|].
      split; [|exact Hr'].
      change (a :: added) with ([a] ++ added).
      by eapply SessionGained_trans.
    + exists [a]. split; [done|]. split; [done|].
      intros r' l' w' [= <- _ <-]. by eapply Hr.
Qed.

Lemma routeLoop_session env deps req policy maxWait budget thr pref start :
  forall fuel log w c log' w',
    routeLoop fuel env deps req policy maxWait budget thr pref start log w
    = Some (c, log', w') ->
    exists added,
      log' = log ++ added
      /\ SessionGained req w w' added
      /\ forall r, c = Returned r -> Recorded req r w'.
Proof.
  induction fuel as [|fuel IH]; intros log w c log' w' Hrun; [done|].
  cbn [routeLoop] in Hrun.
  destruct (elapsedBelow start maxWait w).
  2: { injection Hrun as <- <- <-. exists []. rewrite app_nil_r.
       split; [done|]. split; [apply SessionGained_refl|done]. }
  cbv zeta in Hrun.
  destruct (tryCandidates_session env deps req thr budget
              (orderedCandidates deps req policy pref w) 0%Z log w)
    as (added & Hl & Hg & Hr).
  destruct (tryCandidates _ _ _ _ _ _ _ _ _) as [log1 w1|r log1 w1];
    cbn [stepLog stepWorld] in *; subst log1.
  - destruct (negb (elapsedBelow start maxWait w1)).
    + injection Hrun as <- <- <-. exists added. done.
    + apply IH in Hrun as (added' & -> & Hg' & Hr').
      exists (added ++ added'). rewrite app_assoc. split; [done|].
      split; [|exact Hr'].
      eapply SessionGained_trans; [exact Hg|].
      eapply SessionGained_before; [|exact Hg']. done.
  - injection Hrun as <- <- <-. exists added. split; [done|]. split; [done|].
    intros r' [= <-]. by eapply Hr.
Qed.


(** X19. The session store mirrors the attempt log: a run of [route] that
    does not resume adds to the session of its request exactly the
    attempts of its log, in order, and touches no other session; and when
    it returns a text, the session is complete and holds that text and the
    selected model. *)
Theorem session_mirrors_the_attempt_log (fuel : nat) (env : Env)
    (deps : RouterDeps) (req : RouterRequest) (w : World) (c : Completion)
    (log : list RoutingAttempt) (w' : World) :
  route fuel env deps req w = Some (c, log, w') ->
  resumeHit req w = None ->
  SessionGained req w w' log
  /\ (forall r, c = Returned r -> Recorded req r w').
Proof.
  intros Hrun Hres. unfold route in Hrun. cbv zeta in Hrun.
  rewrite Hres in Hrun.
  destruct (routeLoop_session _ _ _ _ _ _ _ _ _ _ _ _ _ _ _ Hrun)
    as (added & Hlog & Hgained & Hrecorded).
  rewrite app_nil_l in Hlog. subst added. split; [exact Hgained|exact Hrecorded].
Qed.


End SessionFacts.

Module ScoringFacts.
Import Heuristics Scoring.

Lemma minQ_le_r x y : (minQ x y <= y)%Q.
Proof.
  unfold minQ. destruct (Qle_bool x y) eqn:E; [by apply Qle_bool_iff|lra].
Qed.

Lemma minQ_le_l x y : (minQ x y <= x)%Q.
Proof.
  unfold minQ. destruct (Qle_bool x y) eqn:E; [lra|].
  destruct (Qlt_le_dec y x) as [|Hle]; [lra|].
  apply Qle_bool_iff in Hle. congruence.
Qed.

Lemma minQ_mono x x' y : (x <= x')%Q -> (minQ x y <= minQ x' y)%Q.
Proof.
  intros Hx. pose proof (minQ_le_l x y). pose proof (minQ_le_r x y).
  unfold minQ at 2. destruct (Qle_bool x' y); lra.
Qed.

Lemma Qltb_true x y : Qltb x y = true <-> (x < y)%Q.
Proof.
  unfold Qltb. rewrite negb_true_iff. split.
  - intros E. destruct (Qlt_le_dec x y) as [|Hle]; [done|].
    apply Qle_bool_iff in Hle. congruence.
  - intros Hlt. destruct (Qle_bool y x) eqn:E; [|done].
    apply Qle_bool_iff in E. lra.
Qed.

(** X21. With weights that are not negative, a model never scores lower
    for being healthier: of two health records for the same model, budget
    and policy, the one with the higher success rate, the lower rolling
    latency and no later end of degradation has the higher or equal
    score. *)
Theorem healthier_models_never_score_lower (model : CandidateModel)
    (task : TaskType) (h1 h2 : ModelHealth) (budget : ProviderBudget)
    (policy : RoutingPolicy) (dateNow : Z) :
  (0 <= weightOf policy w_reliability 0.5)%Q ->
  (0 <= weightOf policy w_latency 0.2)%Q ->
  (0 <= weightOf policy w_degradePenalty 1.5)%Q ->
  (rollingSuccessRate h1 <= rollingSuccessRate h2)%Q ->
  (rollingLatencyMs h2 <= rollingLatencyMs h1)%Q ->
  (degradedUntil h2 <= degradedUntil h1)%Z ->
  (scoreModel model task h1 budget policy dateNow
   <= scoreModel model task h2 budget policy dateNow)%Q.
Proof.
  intros Hr Hl Hd Hrate Hlat Hdeg. unfold scoreModel. cbv zeta.
  set (base := (weightOf policy w_capability 1
                * inject_Z (default 0%Z (capabilities model !! taskKey task))
                - weightOf policy w_cost 0.5 * default 1%Q (costWeight model))%Q).
  set (wr := weightOf policy w_reliability 0.5) in *.
  set (wl := weightOf policy w_latency 0.2) in *.
  set (wd := weightOf policy w_degradePenalty 1.5) in *.
  set (wb := weightOf policy w_budgetPenalty 1).
  assert (forall a b c : Q, (0 <= a)%Q -> (b <= c)%Q -> (a * b <= a * c)%Q) as Hmul.
  { intros a b c Ha Hbc. rewrite !(Qmult_comm a). by apply Qmult_le_compat_r. }
  pose proof (Hmul wr _ _ Hr Hrate) as Hrel.
  assert (minQ (rollingLatencyMs h2 / 1000) 5 <= minQ (rollingLatencyMs h1 / 1000) 5)%Q
    as Hnorm.
  { apply minQ_mono. unfold Qdiv. by apply Qmult_le_compat_r. }
  pose proof (Hmul wl _ _ Hl Hnorm) as Hpen.
  assert ((0 < rollingLatencyMs h1)%Q ->
          (0 <= wl * minQ (rollingLatencyMs h1 / 1000) 5)%Q) as Hpos.
  { intros Hp. apply Qmult_le_0_compat; [done|].
    unfold minQ. destruct (Qle_bool _ 5); [|lra].
    apply Qle_shift_div_l; lra. }
  set (r1 := (wr * rollingSuccessRate h1)%Q) in *.
  set (r2 := (wr * rollingSuccessRate h2)%Q) in *.
  set (p1 := (wl * minQ (rollingLatencyMs h1 / 1000) 5)%Q) in *.
  set (p2 := (wl * minQ (rollingLatencyMs h2 / 1000) 5)%Q) in *.
  destruct (Qltb 0 (rollingLatencyMs h1)) eqn:E1;
    destruct (Qltb 0 (rollingLatencyMs h2)) eqn:E2;
    try (apply Qltb_true in E1); try (apply Qltb_true in E2);
    try (assert (~ (0 < rollingLatencyMs h1)%Q)
           by (rewrite <- Qltb_true; congruence));
    try (assert (~ (0 < rollingLatencyMs h2)%Q)
           by (rewrite <- Qltb_true; congruence));
    try (specialize (Hpos E1));
    try (exfalso; lra);
    destruct (Z.ltb_spec dateNow (degradedUntil h1));
    destruct (Z.ltb_spec dateNow (degradedUntil h2)); try lia;
    destruct (truthyZ (softLimitTokens budget)) as [soft|];
    try destruct (Qle_bool (inject_Z soft * 0.9) (inject_Z (usedTokens budget)));
    lra.
Qed.

End ScoringFacts.

Module BackoffFacts.
Import Text Heuristics Scoring Router RouterSpec RouterFacts.

(** X22. Without a retry hint from the provider, a rate limit keeps the
    model out for at least 2 and at most 60 seconds: the cooldown stored
    for it ends between 2000 and 60000 ms from now, the stored strikes are
    at least 1, from the sixth strike in a row the cooldown is the full 60
    seconds, and until the cooldown has ended the model is no candidate. *)
Theorem rate_limit_backoff_is_bounded (req : RouterRequest)
    (model : CandidateModel) (attemptStart : Z) (e : AdapterError)
    (log : list RoutingAttempt) (w : World) :
  errType e = RATE_LIMIT -> retryAfterMs e = None ->
  (0 <= rateLimitStrikes (HealthStore.get (id model) w))%Z ->
  let w' := stepWorld (handleError req model attemptStart (ThrowAdapter e) log w) in
  let after := HealthStore.get (id model) w' in
  (now w + 2000 <= cooldownUntil after <= now w + 60000)%Z
  /\ (1 <= rateLimitStrikes after)%Z
  /\ ((6 <= rateLimitStrikes after)%Z -> cooldownUntil after = (now w + 60000)%Z)
  /\ (forall req' policy later,
        HealthStore.get (id model) later = after ->
        (now later < cooldownUntil after)%Z ->
        candidateOf req' policy later model = None).
Proof.
  intros Ht Hr Hs. cbv zeta. unfold handleError. rewrite Ht, Hr. cbv zeta.
  cbn [stepWorld].
  change (HealthStore.get (id model) (emit ?c ?x))
    with (HealthStore.get (id model) x).
  rewrite get_recordAttempt, get_health_recordResult, get_markRateLimited.
  cbn [cooldownUntil rateLimitStrikes].
  unfold RATE_LIMIT_BASE_MS, RATE_LIMIT_CAP_MS, RATE_LIMIT_WINDOW_MS.
  set (prev := rateLimitStrikes (HealthStore.get (id model) w)) in *.
  set (strikes := if (_ <=? 60000)%Z then (prev + 1)%Z else 1%Z).
  assert (1 <= strikes)%Z as H1.
  { subst strikes. destruct (_ <=? 60000)%Z; lia. }
  assert (2 ^ 0 <= 2 ^ (strikes - 1))%Z as Hpow by (apply Z.pow_le_mono_r; lia).
  change (2 ^ 0)%Z with 1%Z in Hpow.
  split_and!.
  - lia.
  - lia.
  - done.
  - intros H6.
    assert (2 ^ 5 <= 2 ^ (strikes - 1))%Z as H5 by (apply Z.pow_le_mono_r; lia).
    change (2 ^ 5)%Z with 32%Z in H5. lia.
  - intros req' policy later Hget Hnow. unfold candidateOf. cbv zeta.
    rewrite Hget. cbn [cooldownUntil].
    destruct (Z.ltb_spec (now later)
                (now w + Z.min (2000 * 2 ^ (strikes - 1)) 60000)); [done|].
    cbn [cooldownUntil] in Hnow. lia.
Qed.

End BackoffFacts.

Module HealthFrameFacts.
Import Text Heuristics Scoring Evaluator ContextFit Router RouterSpec RouterFacts.

Section OtherModel.
Context (m other : string) (Hother : other <> m).

Lemma other_recordResult ok l w :
  HealthStore.get other (HealthStore.recordResult m ok l w) = HealthStore.get other w.
Proof.
  unfold HealthStore.get at 1. unfold HealthStore.recordResult. simpl.
  by rewrite lookup_insert_ne.
Qed.

Lemma other_markDegraded ms w :
  HealthStore.get other (HealthStore.markDegraded m ms w) = HealthStore.get other w.
Proof.
  unfold HealthStore.get at 1. unfold HealthStore.markDegraded. simpl.
  by rewrite lookup_insert_ne.
Qed.

Lemma other_markRateLimited ms info w :
  HealthStore.get other (HealthStore.markRateLimited m ms info w)
  = HealthStore.get other w.
Proof.
  unfold HealthStore.get at 1. unfold HealthStore.markRateLimited. simpl.
  by rewrite lookup_insert_ne.
Qed.

End OtherModel.

Lemma get_emit m c w : HealthStore.get m (emit c w) = HealthStore.get m w.
Proof. done. Qed.

Lemma get_maybeJudgeScore m env deps t req model s thr w :
  HealthStore.get m (snd (maybeJudgeScore env deps t req model s thr w))
  = HealthStore.get m w.
Proof. unfold maybeJudgeScore. repeat (case_match; simpl; try done). Qed.

Ltac settle_health Hother :=
  repeat first
    [ rewrite get_emit | rewrite get_recordAttempt | rewrite get_finalizeResult
    | rewrite get_evaluate | rewrite get_maybeJudgeScore
    | rewrite (other_recordResult _ _ Hother)
    | rewrite (other_markDegraded _ _ Hother)
    | rewrite (other_markRateLimited _ _ Hother) ].

Lemma handleError_frame req model start err log w other :
  other <> id model ->
  HealthStore.get other (stepWorld (handleError req model start err log w))
  = HealthStore.get other w.
Proof.
  intros Hother. unfold handleError.
  destruct err as [e|msg]; [destruct (errType e)|]; cbv zeta; cbn [stepWorld];
    try case_bool_decide; by settle_health Hother.
Qed.

Lemma accept_frame req deps model response ok latency sc log w other :
  other <> id model ->
  HealthStore.get other (stepWorld (accept req deps model response ok latency sc log w))
  = HealthStore.get other w.
Proof.
  intros Hother. unfold accept, pushAndRecord.
  pose proof (get_finalizeResult other req deps model response
                (log ++ [attemptOf model success (Some sc)])
                (SessionStore.recordAttempt (requestId req) (taskType req)
                   (attemptOf model success (Some sc))
                   (HealthStore.recordResult (id model) ok (Some latency) w))) as Hf.
  destruct (finalizeResult _ _ _ _ _ _) as [r w']. simpl in *.
  rewrite Hf. by settle_health Hother.
Qed.

(** X26. An attempt on one model leaves the health record of every other
    model as it was, whatever the attempt ends in: a result, a failed
    evaluation with or without a call to the judge, or an error of the
    adapter. *)
Theorem attempt_touches_one_health_record (env : Env) (deps : RouterDeps)
    (req : RouterRequest) (thr : Q) (model : CandidateModel)
    (log : list RoutingAttempt) (w : World) (other : string) :
  other <> id model ->
  HealthStore.get other (stepWorld (attempt env deps req thr model log w))
  = HealthStore.get other w.
Proof.
  intros Hother. unfold attempt. cbv zeta.
  destruct (fitMessagesToContext _ _ _) as [fitted|].
  2: { unfold pushAndRecord. cbn [stepWorld]. by settle_health Hother. }
  set (w0 := if (0 <? trimmedCount fitted)%Z then _ else w).
  assert (HealthStore.get other w0 = HealthStore.get other w) as <-.
  { subst w0. by destruct (0 <? trimmedCount fitted)%Z. }
  clearbody w0.
  destruct (stream req && allowDegrade req).
  - unfold callStream. simpl.
    destruct (answer (openStream env _ _ _)) as [providerStream|err].
    + unfold pushAndRecord. cbn [stepWorld]. by settle_health Hother.
    + by rewrite handleError_frame.
  - unfold callGenerate. simpl.
    set (w1 := advance _ (emit _ w0)).
    assert (HealthStore.get other w1 = HealthStore.get other w0) as <- by done.
    clearbody w1.
    destruct (answer (generate env _ _ _)) as [response|err];
      [|by rewrite handleError_frame].
    pose proof (get_evaluate other env (text response) req
                  (codeEvaluation (policies deps))
                  (Some {| hasToolCalls := Some (hasItems (toolCalls response)) |}) w1)
      as He.
    destruct (evaluate env (text response) req _ _ w1) as [sc w2]. simpl in He.
    rewrite <- He.
    destruct (allowDegrade req); [by rewrite accept_frame|].
    destruct (Qle_bool thr sc); [by rewrite accept_frame|].
    pose proof (get_maybeJudgeScore other env deps (text response) req model sc thr w2)
      as Hj.
    destruct (maybeJudgeScore env deps (text response) req model sc thr w2)
      as [judged w3]. simpl in Hj. rewrite <- Hj.
    destruct judged as [judgedScore|].
    + destruct (Qle_bool thr judgedScore); [by rewrite accept_frame|].
      unfold pushAndRecord. cbn [stepWorld]. by settle_health Hother.
    + unfold pushAndRecord. cbn [stepWorld]. by settle_health Hother.
Qed.

(** X27. The rolling latency of a model is a moving average: after a
    result with a measured latency it lies between the average before and
    the measurement, and a result without a measurement leaves it where it
    was. *)
Theorem rolling_latency_is_a_moving_average (m : string) (ok : bool)
    (lat : option Z) (w : World) :
  let before := rollingLatencyMs (HealthStore.get m w) in
  let after := rollingLatencyMs (HealthStore.get m (HealthStore.recordResult m ok lat w)) in
  match lat with
  | Some l =>
      (inject_Z l <= before -> inject_Z l <= after <= before)%Q
      /\ (before <= inject_Z l -> before <= after <= inject_Z l)%Q
  | None => (after == before)%Q
  end.
Proof.
  cbv zeta. rewrite get_health_recordResult. simpl.
  unfold HealthStore.EMA_ALPHA.
  set (b := rollingLatencyMs (HealthStore.get m w)). clearbody b.
  destruct lat as [l|]; [|lra].
  set (x := inject_Z l). clearbody x. split; intros; lra.
Qed.

End HealthFrameFacts.

Module HandlerInputFacts.
Import Text Handler HandlerInput.

Lemma mapJs_length {A B : Type} (f : A -> Js B) (l : list A) (out : list B) :
  mapJs f l = Ok out -> List.length out = List.length l.
Proof.
  revert out. induction l as [|x l IH]; intros out; simpl.
  - by intros [= <-].
  - destruct (f x) as [y|]; [|done].
    destruct (mapJs f l) as [ys|]; [|done].
    intros [= <-]. simpl. f_equal. by apply IH.
Qed.

Lemma mapJs_TypeError {A B : Type} (f : A -> Js B) (l : list A) :
  mapJs f l = TypeError <-> Exists (fun x => f x = TypeError) l.
Proof.
  induction l as [|x l IH]; simpl.
  - split; [done|]. by intros H%Exists_nil.
  - rewrite Exists_cons. destruct (f x) as [y|] eqn:E.
    + destruct (mapJs f l) as [ys|].
      * split; [done|]. intros [?|H]; [done|]. by apply IH in H.
      * split; [|done]. intros _. right. by apply IH.
    + split; [|done]. intros _. by left.
Qed.

Lemma omap_length_le {A B : Type} (f : A -> option B) (l : list A) :
  List.length (omap f l) <= List.length l.
Proof.
  induction l as [|x l IH]; csimpl; [done|].
  destruct (f x); simpl; lia.
Qed.

(** X23. Of a chat-completions body only an array of messages is taken:
    anything else gives [null].  Each normalized message has a content
    that is not empty, there are no more of them than array items, and
    decoding fails with a [TypeError] exactly when the content array of
    some item holds a [null] part. *)
Theorem normalized_messages_are_never_empty (toStr : Json -> string)
    (raw : option Json) :
  (normalizeMessages toStr raw = Ok None <->
   ~ exists items, raw = Some (JArray items))
  /\ (forall msgs,
        normalizeMessages toStr raw = Ok (Some msgs) ->
        Forall (fun m => content m <> EmptyString) msgs
        /\ exists items,
             raw = Some (JArray items)
             /\ List.length msgs <= List.length items)
  /\ (normalizeMessages toStr raw = TypeError <->
      exists items,
        raw = Some (JArray items)
        /\ Exists (fun item =>
                     isObject item = true
                     /\ exists parts,
                          property "content" item = Some (JArray parts)
                          /\ In JNull parts) items).
Proof.
  assert (forall item,
            normalizeOne toStr item = TypeError <->
            isObject item = true
            /\ exists parts,
                 property "content" item = Some (JArray parts) /\ In JNull parts)
    as Hone.
  { intros item. unfold normalizeOne.
    destruct item as [|b|n|s|items|fields]; simpl;
      try (split; [done|by intros [? _]]).
    - destruct b; (split; [done|by intros [? _]]).
    - destruct (negb (Qeq_bool n 0)); (split; [done|by intros [? _]]).
    - destruct (negb (bool_decide (s = EmptyString))); (split; [done|by intros [? _]]).
    - split; [done|]. by intros [_ (parts & ? & _)].
    - destruct (lookupField "content" fields) as [c|]; simpl.
      + destruct c as [|b|n|s|parts|fs]; simpl;
          try (split; [done|by intros [_ (parts' & ? & _)]]).
        destruct (existsb isNull parts) eqn:Hex.
        * split; [|done]. intros _. split; [done|]. exists parts. split; [done|].
          apply existsb_exists in Hex as (p & Hin & Hp). by destruct p.
        * split; [done|]. intros [_ (parts' & [= <-] & Hin)].
          assert (existsb isNull parts = true) as Ht.
          { apply existsb_exists. by exists JNull. }
          congruence.
      + split; [done|]. by intros [_ (parts & ? & _)]. }
  split_and!.
  - unfold normalizeMessages.
    destruct raw as [[|b|n|s|items|fields]|];
      try (split; [by intros _ (items' & ?)|done]).
    destruct (mapJs _ items); split; try done; intros H; exfalso; apply H; eauto.
  - intros msgs. unfold normalizeMessages.
    destruct raw as [[|b|n|s|items|fields]|]; try done.
    destruct (mapJs (normalizeOne toStr) items) as [mapped|] eqn:Hmap; [|done].
    intros [= <-]. split.
    + apply Forall_forall. intros m Hin.
      apply list_elem_of_omap in Hin as (mm & _ & Hm).
      destruct mm as [msg|]; [|done].
      destruct (content msg) as [|c rest] eqn:Ec; simpl in Hm; [done|].
      injection Hm as <-. by rewrite Ec.
    + exists items. split; [done|].
      rewrite <- (mapJs_length _ _ _ Hmap). apply omap_length_le.
  - unfold normalizeMessages.
    destruct raw as [[|b|n|s|items|fields]|];
      try (split; [done|by intros (items' & ? & _)]).
    destruct (mapJs (normalizeOne toStr) items) as [mapped|] eqn:Hmap.
    + split; [done|]. intros (items' & [= <-] & Hex).
      assert (mapJs (normalizeOne toStr) items = TypeError) as Ht.
      { apply mapJs_TypeError. eapply Exists_impl; [exact Hex|].
        intros item. apply Hone. }
      congruence.
    + split; [|done]. intros _. exists items. split; [done|].
      apply mapJs_TypeError in Hmap.
      eapply Exists_impl; [exact Hmap|]. intros item. apply Hone.
Qed.

End HandlerInputFacts.

Module ResultFacts.
Import Text Heuristics Scoring Evaluator ContextFit Router RouterSpec RouterFacts
  ResultSpec.

Lemma finalizeResult_names req deps model response log w :
  let r := fst (finalizeResult req deps model response log w) in
  modelOfResult r = id model
  /\ metadataOfResult r = buildMetadata log (id model) (taskType req).
Proof.
  cbv zeta. unfold finalizeResult. cbv zeta.
  by destruct (stream req && negb (hasItems (toolCalls response))).
Qed.

Lemma accept_names req deps model response ok latency sc log w r l' w' :
  accept req deps model response ok latency sc log w = Return r l' w' ->
  l' = log ++ [attemptOf model success (Some sc)]
  /\ modelOfResult r = id model
  /\ metadataOfResult r = buildMetadata l' (id model) (taskType req).
Proof.
  unfold accept, pushAndRecord.
  pose proof (finalizeResult_names req deps model response
                (log ++ [attemptOf model success (Some sc)])
                (SessionStore.recordAttempt (requestId req) (taskType req)
                   (attemptOf model success (Some sc))
                   (HealthStore.recordResult (id model) ok (Some latency) w)))
    as [Hm Hmeta].
  destruct (finalizeResult _ _ _ _ _ _) as [r0 w0]. simpl in Hm, Hmeta.
  by intros [= <- <- <-].
Qed.

Lemma handleError_continues req model start err log w r l' w' :
  handleError req model start err log w = Return r l' w' -> False.
Proof.
  destruct (handleError_effect req model start err log w) as (a & _ & Hret & _).
  intros H. by rewrite H in Hret.
Qed.

Lemma attempt_names env deps req thr model log w r l' w' :
  attempt env deps req thr model log w = Return r l' w' ->
  exists sc,
    l' = log ++ [attemptOf model success sc]
    /\ modelOfResult r = id model
    /\ metadataOfResult r = buildMetadata l' (id model) (taskType req).
Proof.
  unfold attempt. cbv zeta.
  destruct (fitMessagesToContext _ _ _) as [fitted|]; [|done].
  destruct (stream req && allowDegrade req).
  - destruct (callStream _ _ _ _) as [[providerStream|err] w1].
    + unfold pushAndRecord. intros [= <- <- <-]. by exists None.
    + intros H. by apply handleError_continues in H.
  - destruct (callGenerate _ _ _ _ _) as [[response|err] w1].
    2: { intros H. by apply handleError_continues in H. }
    destruct (evaluate _ _ _ _ _ _) as [sc w2].
    destruct (allowDegrade req).
    { intros H. apply accept_names in H. by exists (Some sc). }
    destruct (Qle_bool thr sc).
    { intros H. apply accept_names in H. by exists (Some sc). }
    destruct (maybeJudgeScore _ _ _ _ _ _ _ _) as [[judgedScore|] w3]; [|done].
    destruct (Qle_bool thr judgedScore); [|done].
    intros H. apply accept_names in H. by exists (Some judgedScore).
Qed.

Lemma tryCandidates_names env deps req thr budget ordered :
  forall attempts log w r l' w',
    tryCandidates env deps req thr budget attempts ordered log w = Return r l' w' ->
    noSuccess log -> ToldBy req r l'.
Proof.
  induction ordered as [|model rest IH]; intros attempts log w r l' w';
    cbn [tryCandidates]; [done|].
  destruct (budget <=? attempts)%Z; [done|].
  destruct (attempt_effect env deps req thr model log w)
    as (a & dc & du & [Hlog Hmodel Hret _ _ _ _] & _).
  destruct (attempt env deps req thr model log w) as [log1 w1|r1 log1 w1] eqn:Ha;
    cbn [stepLog isReturn] in *; subst log1.
  - intros Hrun Hns. eapply IH; [exact Hrun|].
    apply Forall_app. split; [done|]. constructor; [|done].
    intros Hs. apply Hret in Hs. done.
  - intros [= <- <- <-] Hns.
    apply attempt_names in Ha as (sc & Hl & Hm & Hmeta).
    apply app_inj_tail in Hl as [_ ->].
    exists log, (attemptOf model success sc). rewrite Hm. done.
Qed.

Lemma tryCandidates_failures env deps req thr budget ordered :
  forall attempts log w l' w',
    tryCandidates env deps req thr budget attempts ordered log w = Continue l' w' ->
    noSuccess log -> noSuccess l'.
Proof.
  induction ordered as [|model rest IH]; intros attempts log w l' w';
    cbn [tryCandidates]; [by intros [= <- _]|].
  destruct (budget <=? attempts)%Z; [by intros [= <- _]|].
  destruct (attempt_effect env deps req thr model log w)
    as (a & dc & du & [Hlog Hmodel Hret _ _ _ _] & _).
  destruct (attempt env deps req thr model log w) as [log1 w1|r1 log1 w1];
    cbn [stepLog isReturn] in *; subst log1; [|done].
  intros Hrun Hns. eapply IH; [exact Hrun|].
  apply Forall_app. split; [done|]. constructor; [|done].
  intros Hs. apply Hret in Hs. done.
Qed.

Lemma routeLoop_names env deps req policy maxWait budget thr pref start :
  forall fuel log w r log' w',
    routeLoop fuel env deps req policy maxWait budget thr pref start log w
    = Some (Returned r, log', w') ->
    noSuccess log -> ToldBy req r log'.
Proof.
  induction fuel as [|fuel IH]; intros log w r log' w' Hrun Hns; [done|].
  cbn [routeLoop] in Hrun.
  destruct (elapsedBelow start maxWait w); [|done].
  cbv zeta in Hrun.
  destruct (tryCandidates _ _ _ _ _ _ _ _ _) as [log1 w1|r1 log1 w1] eqn:Htry.
  - destruct (negb (elapsedBelow start maxWait w1)); [done|].
    eapply IH; [exact Hrun|]. by eapply tryCandidates_failures.
  - injection Hrun as <- <- <-. by eapply tryCandidates_names.
Qed.

(** X24. The metadata of a result tells the run that led to it: when
    [route] returns without resuming, the attempts in the metadata are
    exactly the attempt log, every attempt but the last failed, the last
    one succeeded, and it is on the model that the result and the metadata
    name as selected. *)
Theorem result_metadata_tells_the_run (fuel : nat) (env : Env)
    (deps : RouterDeps) (req : RouterRequest) (w : World) (r : RouteResult)
    (log : list RoutingAttempt) (w' : World) :
  route fuel env deps req w = Some (Returned r, log, w') ->
  resumeHit req w = None ->
  attempts (metadataOfResult r) = log
  /\ selectedModelId (metadataOfResult r) = Some (modelOfResult r)
  /\ exists earlier a,
       log = earlier ++ [a]
       /\ noSuccess earlier
       /\ outcome a = success
       /\ modelId a = modelOfResult r.
Proof.
  intros Hrun Hres. unfold route in Hrun. cbv zeta in Hrun. rewrite Hres in Hrun.
  apply routeLoop_names in Hrun as (earlier & a & Hl & Hns & Hs & Hm & Hmeta);
    [|by constructor].
  rewrite Hmeta. split; [done|]. split; [done|].
  by exists earlier, a.
Qed.

(** X25. A wait limit that is not positive leaves no time for any
    attempt: [route] then gives up at once, for a request that does not
    resume, with an empty attempt log and the world as it was: no store
    is written and no provider called.  A request's own limit is used
    whenever it is not [0], a negative one included. *)
Theorem nonpositive_wait_gives_up_at_once (fuel : nat) (env : Env)
    (deps : RouterDeps) (req : RouterRequest) (w : World) :
  let policy := policyForTask (policies deps) (taskType req) in
  (orElseQ (maxWaitMs req) (policyMaxWaitMs policy) <= 0)%Q ->
  resumeHit req w = None ->
  route (S fuel) env deps req w
  = Some (Threw (NoSuitableModelError 10000), [], w).
Proof.
  intros policy Hwait Hres. unfold route. fold policy. cbv zeta. rewrite Hres.
  cbn [routeLoop].
  assert (elapsedBelow (now w) (orElseQ (maxWaitMs req) (policyMaxWaitMs policy)) w
          = false) as ->; [|done].
  unfold elapsedBelow, Qltb. rewrite Z.sub_diag. apply negb_false_iff.
  by apply Qle_bool_iff.
Qed.

End ResultFacts.

(** The further theorems that carry hypotheses, each applied to a concrete
    input. *)
Module MoreWitnesses.
Import Text Heuristics Scoring Evaluator ContextFit Router RouterSpec Handler
  AdapterErrors Stream StoreSpec SessionSpec ResultSpec Examples MoreExamples.
Import StoreFacts JudgeFacts HandlerExtraFacts StreamFacts AdapterErrorsFacts
  SessionFacts ScoringFacts BackoffFacts ResultFacts HealthFrameFacts.

Lemma success_rate_witness :
  (0 <= successRate "model:a" world0 <= 1)%Q
  /\ (0 <= successRate "model:a"
             (HealthStore.recordResult "model:a" false None world0) <= 1)%Q.
Proof.
  assert (0 <= successRate "model:a" world0 <= 1)%Q as H.
  { split; vm_compute; discriminate. }
  split; [exact H|].
  exact (proj1 (success_rate_stays_a_proportion "model:a" false None world0 H)).
Defined.

Lemma judged_score_witness :
  exists q,
    fst (maybeJudgeScore (scripted ["0.85"]) (depsOf [modelA; judgeModel]
           (Some judgeConfig)) "maybe" (request false false) modelA 0.5 0.9 world0)
    = Some q
    /\ (0 <= q <= 1)%Q.
Proof.
  assert (exists q,
    fst (maybeJudgeScore (scripted ["0.85"]) (depsOf [modelA; judgeModel]
           (Some judgeConfig)) "maybe" (request false false) modelA 0.5 0.9 world0)
    = Some q) as [q Hq].
  { eexists. vm_compute. reflexivity. }
  exists q. split; [exact Hq|].
  exact (proj1 (judged_score_is_a_proportion _ _ _ _ _ _ _ _ _ Hq)).
Defined.

Lemma threshold_header_witness :
  exists q,
    parseThreshold (fun _ => Some 3%Q) (Some "3"%string) = Some q
    /\ (0 <= q <= 1)%Q.
Proof.
  destruct (threshold_header_is_normalised (fun _ => Some 3%Q) "3" 3
              ltac:(discriminate) eq_refl) as (q & Hq & Hb & _).
  exists q. split; [exact Hq|exact Hb].
Defined.

Lemma refused_request_witness :
  exists resp w',
    handle (fun _ => None) (fun seed _ => seed) 3 (scripted [])
      (depsOf [modelA] None) noSecrets resumeRequest world0
    = Some (resp, w')
    /\ status resp = 401%Z /\ w' = world0.
Proof.
  assert (handle (fun _ => None) (fun seed _ => seed) 3 (scripted [])
            (depsOf [modelA] None) noSecrets resumeRequest world0
          = Some (jsonResponse
                    (ErrorJson "unauthorized" "Resume requires admin token" None) 401,
                  world0)) as H by (vm_compute; reflexivity).
  eexists _, _. split; [exact H|]. split; [reflexivity|].
  apply (proj1 (proj2 (refused_requests_leave_no_trace _ _ _ _ _ _ _ _ _ _ H))).
  right. reflexivity.
Defined.

Lemma chunks_witness :
  exists chunks,
    splitText 12 (chars "hello world") 4 = Some chunks
    /\ List.concat chunks = chars "hello world".
Proof.
  destruct (chunks_put_together_are_the_text (chars "hello world") 4 ltac:(lia))
    as (chunks & Hrun & Hcat & _).
  exists chunks. split; [exact Hrun|exact Hcat].
Defined.

Lemma zero_chunk_size_witness :
  splitText 1000 (chars "hello world") 0 = None.
Proof.
  exact (proj1 (nonpositive_chunk_size_never_ends (chars "hello world") 0 1000
                  ltac:(lia) ltac:(discriminate))).
Defined.

Lemma context_failure_witness :
  mentionsContext "Maximum context length exceeded" = true
  /\ normalizeAdapterError (fun _ => Some 3%Q) (Another contextFailure)
     = {| ne_type := PERMANENT; ne_message := "context_length_exceeded";
          ne_retryAfterMs := None |}.
Proof.
  assert (mentionsContext (AdapterErrorsSpec.messageOf contextFailure) = true) as H
    by (vm_compute; reflexivity).
  split; [exact H|].
  exact (proj1 (context_failures_outrank_the_status (fun _ => Some 3%Q)
                  contextFailure H)).
Defined.

Lemma judgedRun_returns :
  judgedRun
  = Some (Returned (TextResult (reply "maybe") "model:a" (metadataOf judgedRun)),
          snd (fst (parts judgedRun)), snd (parts judgedRun)).
Proof. vm_compute. reflexivity. Qed.

Lemma session_mirror_witness :
  SessionGained (request false false) world0 (snd (parts judgedRun))
    (snd (fst (parts judgedRun))).
Proof.
  exact (proj1 (session_mirrors_the_attempt_log 3 _ _ _ world0 _ _ _
                  judgedRun_returns eq_refl)).
Defined.


Lemma healthier_witness :
  (scoreModel modelA Reasoning shakyHealth noBudget policy 1000
   <= scoreModel modelA Reasoning HealthStore.DEFAULT_HEALTH noBudget policy 1000)%Q.
Proof.
  apply healthier_models_never_score_lower;
    try (vm_compute; discriminate).
Defined.

Lemma backoff_witness :
  (now world0 + 2000
   <= cooldownUntil
        (HealthStore.get (id modelA)
           (stepWorld (handleError (request false false) modelA 1000
                         (ThrowAdapter rateLimited) [] world0)))
   <= now world0 + 60000)%Z.
Proof.
  exact (proj1 (rate_limit_backoff_is_bounded (request false false) modelA 1000
                  rateLimited [] world0 eq_refl eq_refl ltac:(vm_compute; discriminate))).
Defined.

Lemma result_metadata_witness :
  attempts (metadataOf judgedRun) = snd (fst (parts judgedRun)).
Proof.
  exact (proj1 (result_metadata_tells_the_run 3 _ _ _ world0 _ _ _
                  judgedRun_returns eq_refl)).
Defined.

Lemma negative_wait_witness :
  route 1 (scripted ["never asked"]) (depsOf [modelA] None) hurriedRequest world0
  = Some (Threw (NoSuitableModelError 10000), [], world0).
Proof.
  exact (nonpositive_wait_gives_up_at_once 0 (scripted ["never asked"])
           (depsOf [modelA] None) hurriedRequest world0
           ltac:(vm_compute; discriminate) eq_refl).
Defined.

Lemma other_health_witness :
  HealthStore.get "model:b"
    (stepWorld (attempt (scripted ["no"]) (depsOf [modelA] None)
                  (request false false) 0.9 modelA [] world0))
  = HealthStore.get "model:b" world0.
Proof.
  exact (attempt_touches_one_health_record (scripted ["no"]) (depsOf [modelA] None)
           (request false false) 0.9 modelA [] world0 "model:b"
           ltac:(discriminate)).
Defined.

End MoreWitnesses.
